(** * PackFrameworkerScript.py: a shallow embedding and its properties

    The script is sequential file-system orchestration.  The embedding has
    three layers:

    - [node]: the file system as a tree, with the primitive operations of
      the host (POSIX) on canonical paths;
    - [M]: a state-and-exception monad over [world] (file system, deletion
      locks, standard output) in which the library calls of the script
      ([os.path.exists], [os.makedirs], [shutil.copytree], ...) are written;
    - the functions of the script itself, under their own names.

    The host is taken to be POSIX: [os.path] is [posixpath] and
    [os.linesep] is a single line feed.  The script runs as an ordinary
    user who owns the files it works on: every file can be read, every
    directory can be searched and written to, and a regular file can be
    written to when its mode says so ([writable]); what the host refuses to
    delete is listed in [locked].  There are no symbolic links.

    A Python [str] is kept as the bytes of its UTF-8 encoding, so that
    writing a text is writing these bytes and reading one is checking that
    the bytes read are such an encoding ([utf8_valid]). *)

From Stdlib Require Import String Ascii List Bool Arith Lia.
Import ListNotations.
Open Scope string_scope.
Open Scope list_scope.

(** ** Exceptions *)

Inductive exn : Type :=
| FileNotFoundError
| NotADirectoryError
| IsADirectoryError
| FileExistsError
| PermissionError
| OSError
| SameFileError
| ShutilError
| CalledProcessError
| RecursionError
| UnicodeDecodeError.

(** [except OSError]: everything the file system raises, [shutil.Error]
    and its subclass [SameFileError] included; [OSError] itself stands for
    an error of the host that has no class of its own. *)
Definition is_OSError (e : exn) : bool :=
  match e with
  | CalledProcessError | RecursionError | UnicodeDecodeError => false
  | _ => true
  end.

(** [except subprocess.CalledProcessError]. *)
Definition is_CalledProcessError (e : exn) : bool :=
  match e with
  | CalledProcessError => true
  | _ => false
  end.

(** [except Exception]: every exception of the model. *)
Definition is_Exception (e : exn) : bool := true.

(** [str(e)], abridged to the reason. *)
Definition exn_message (e : exn) : string :=
  match e with
  | FileNotFoundError => "No such file or directory"
  | NotADirectoryError => "Not a directory"
  | IsADirectoryError => "Is a directory"
  | FileExistsError => "File exists"
  | PermissionError => "Permission denied"
  | OSError => "Exec format error"
  | SameFileError => "are the same file"
  | ShutilError => "shutil.Error"
  | CalledProcessError => "returned non-zero exit status"
  | RecursionError => "maximum recursion depth exceeded"
  | UnicodeDecodeError => "'utf-8' codec can't decode byte"
  end.

(** ** The file-system tree *)

(** A canonical path: the names from the root down, none of them ".", ".."
    or empty. *)
Definition path := list string.

(** A regular file: its bytes, and whether its mode lets the user write
    to it. *)
Record file : Type := mkFile {
  writable : bool;
  content : string
}.

#[local] Unset Elimination Schemes.
Inductive node : Type :=
| File (data : file)
| Dir (ents : list (string * node)).
#[local] Set Elimination Schemes.

(** A file of the usual mode, and one without the write permission. *)
Definition regular (s : string) : node := File (mkFile true s).

Definition read_only (s : string) : node := File (mkFile false s).

Definition entries := list (string * node).

Fixpoint alist_get (k : string) (l : entries) : option node :=
  match l with
  | [] => None
  | (k', v) :: r => if String.eqb k k' then Some v else alist_get k r
  end.

(** Replace in place, or append: a directory keeps its listing order. *)
Fixpoint alist_set (k : string) (v : node) (l : entries) : entries :=
  match l with
  | [] => [(k, v)]
  | (k', v') :: r =>
      if String.eqb k k' then (k', v) :: r else (k', v') :: alist_set k v r
  end.

Fixpoint alist_del (k : string) (l : entries) : entries :=
  match l with
  | [] => []
  | (k', v') :: r =>
      if String.eqb k k' then alist_del k r else (k', v') :: alist_del k r
  end.

Fixpoint lookup (p : path) (t : node) : option node :=
  match p with
  | [] => Some t
  | k :: p' =>
      match t with
      | Dir es =>
          match alist_get k es with
          | Some c => lookup p' c
          | None => None
          end
      | File _ => None
      end
  end.

(** Apply [f] to the subtree at [p], which has to exist. *)
Fixpoint alter (p : path) (f : node -> exn + node) (t : node) : exn + node :=
  match p with
  | [] => f t
  | k :: p' =>
      match t with
      | File _ => inl NotADirectoryError
      | Dir es =>
          match alist_get k es with
          | Some c =>
              match alter p' f c with
              | inr c' => inr (Dir (alist_set k c' es))
              | inl e => inl e
              end
          | None => inl FileNotFoundError
          end
      end
  end.

Definition is_dir_node (n : node) : bool :=
  match n with Dir _ => true | File _ => false end.

Definition exists_at (p : path) (t : node) : bool :=
  match lookup p t with Some _ => true | None => false end.

Definition is_dir_at (p : path) (t : node) : bool :=
  match lookup p t with Some (Dir _) => true | _ => false end.

Definition is_file_at (p : path) (t : node) : bool :=
  match lookup p t with Some (File _) => true | _ => false end.

(** [open(p, "wb")], the writes and the close, after which [data] is the
    file at [p]: a file that is there is truncated, which its mode has to
    allow, and a file that is not there is made. *)
Fixpoint write_node (p : path) (data : file) (t : node) : exn + node :=
  match t with
  | File old =>
      match p with
      | [] => if writable old then inr (File data) else inl PermissionError
      | _ :: _ => inl NotADirectoryError
      end
  | Dir es =>
      match p with
      | [] => inl IsADirectoryError
      | k :: p' =>
          match alist_get k es with
          | Some c =>
              match write_node p' data c with
              | inr c' => inr (Dir (alist_set k c' es))
              | inl e => inl e
              end
          | None =>
              match p' with
              | [] => inr (Dir (alist_set k (File data) es))
              | _ :: _ => inl FileNotFoundError
              end
          end
      end
  end.

(** [open(p, "rb")] followed by a read of everything. *)
Definition read_node (p : path) (t : node) : exn + string :=
  match lookup p t with
  | Some (File data) => inr (content data)
  | Some (Dir _) => inl IsADirectoryError
  | None => inl FileNotFoundError
  end.

Fixpoint mkchain (p : path) : node :=
  match p with
  | [] => Dir []
  | k :: p' => Dir [(k, mkchain p')]
  end.

(** [os.makedirs(p, exist_ok=True)]: the missing tail of [p] is created; a
    regular file on the way is an error. *)
Fixpoint makedirs_node (p : path) (t : node) : exn + node :=
  match t with
  | File _ =>
      match p with
      | [] => inl FileExistsError
      | _ :: _ => inl NotADirectoryError
      end
  | Dir es =>
      match p with
      | [] => inr t
      | k :: p' =>
          match alist_get k es with
          | Some c =>
              match makedirs_node p' c with
              | inr c' => inr (Dir (alist_set k c' es))
              | inl e => inl e
              end
          | None => inr (Dir (alist_set k (mkchain p') es))
          end
      end
  end.

(** Unlink the entry at [p] from its parent. *)
Fixpoint prune (p : path) (t : node) : exn + node :=
  match p with
  | [] => inl PermissionError
  | k :: p' =>
      match t with
      | File _ => inl NotADirectoryError
      | Dir es =>
          match alist_get k es with
          | None => inl FileNotFoundError
          | Some c =>
              match p' with
              | [] => inr (Dir (alist_del k es))
              | _ :: _ =>
                  match prune p' c with
                  | inr c' => inr (Dir (alist_set k c' es))
                  | inl e => inl e
                  end
              end
          end
      end
  end.

Definition path_eqb (p q : path) : bool :=
  if list_eq_dec string_dec p q then true else false.

Definition is_locked (locked : list path) (p : path) : bool :=
  existsb (path_eqb p) locked.

(** What [shutil.rmtree] leaves of the tree [n] rooted at [here]: [None]
    when all of it went, [Some n'] when a locked entry stopped the walk;
    the entries after the first failure are not visited. *)
Fixpoint rm_node (locked : list path) (here : path) (n : node) : option node :=
  match n with
  | File _ => if is_locked locked here then Some n else None
  | Dir es =>
      let left :=
        (fix go (l : entries) : entries :=
           match l with
           | [] => []
           | (k, c) :: r =>
               match rm_node locked (here ++ [k]) c with
               | None => go r
               | Some c' => (k, c') :: r
               end
           end) es in
      match left with
      | [] => if is_locked locked here then Some (Dir []) else None
      | _ :: _ => Some (Dir left)
      end
  end.

(** ** Python strings *)

Definition LF : ascii := ascii_of_nat 10.
Definition CR : ascii := ascii_of_nat 13.
Definition SLASH : ascii := ascii_of_nat 47.

(** Text-mode reading with the default [newline=None]: a carriage return,
    alone or before a line feed, is read as one line feed. *)
Fixpoint universal_newlines (s : string) : string :=
  match s with
  | EmptyString => EmptyString
  | String c r =>
      if Ascii.eqb c CR then
        String LF
          match r with
          | EmptyString => EmptyString
          | String c' r' =>
              if Ascii.eqb c' LF then universal_newlines r'
              else universal_newlines r
          end
      else String c (universal_newlines r)
  end.

(** The code of the byte [c] lies between [lo] and [hi], or is [n]. *)
Definition byte_in (lo hi : nat) (c : ascii) : bool :=
  ((lo <=? nat_of_ascii c) && (nat_of_ascii c <=? hi))%nat.

Definition byte_is (n : nat) (c : ascii) : bool := Nat.eqb (nat_of_ascii c) n.

Fixpoint all_bytes (P : ascii -> bool) (s : string) : bool :=
  match s with
  | EmptyString => true
  | String c r => P c && all_bytes P r
  end.

(** A byte that continues the character begun before it. *)
Definition is_continuation (c : ascii) : bool := byte_in 128 191 c.

(** The second byte that may follow the lead [a] of a character of three
    or of four bytes: no overlong form, no surrogate (U+D800-U+DFFF),
    nothing above U+10FFFF. *)
Definition second_of_three (a b : ascii) : bool :=
  (byte_is 224 a && byte_in 160 191 b)
  || (byte_in 225 236 a && byte_in 128 191 b)
  || (byte_is 237 a && byte_in 128 159 b)
  || (byte_in 238 239 a && byte_in 128 191 b).

Definition second_of_four (a b : ascii) : bool :=
  (byte_is 240 a && byte_in 144 191 b)
  || (byte_in 241 243 a && byte_in 128 191 b)
  || (byte_is 244 a && byte_in 128 143 b).

(** The bytes the [utf-8] codec decodes with [errors="strict"]. *)
Fixpoint utf8_valid (s : string) : bool :=
  match s with
  | EmptyString => true
  | String a r1 =>
      if byte_in 0 127 a then utf8_valid r1
      else if byte_in 194 223 a then
        match r1 with
        | String b r2 => is_continuation b && utf8_valid r2
        | _ => false
        end
      else if byte_in 224 239 a then
        match r1 with
        | String b (String c r3) =>
            second_of_three a b && is_continuation c && utf8_valid r3
        | _ => false
        end
      else if byte_in 240 244 a then
        match r1 with
        | String b (String c (String d r4)) =>
            second_of_four a b && is_continuation c && is_continuation d
            && utf8_valid r4
        | _ => false
        end
      else false
  end.

(** The characters [str.strip()] removes, as UTF-8 writes them: in one
    byte U+0009-U+000D and U+001C-U+0020, in two U+0085 and U+00A0, in
    three U+1680, U+2000-U+200A, U+2028, U+2029, U+202F, U+205F and
    U+3000. *)
Definition space1 (a : ascii) : bool := byte_in 9 13 a || byte_in 28 32 a.

Definition space2 (a b : ascii) : bool :=
  byte_is 194 a && (byte_is 133 b || byte_is 160 b).

Definition space3 (a b c : ascii) : bool :=
  (byte_is 225 a && byte_is 154 b && byte_is 128 c)
  || (byte_is 226 a && byte_is 128 b
      && (byte_in 128 138 c || byte_in 168 169 c || byte_is 175 c))
  || (byte_is 226 a && byte_is 129 b && byte_is 159 c)
  || (byte_is 227 a && byte_is 128 b && byte_is 128 c).

Fixpoint lstrip (s : string) : string :=
  match s with
  | EmptyString => EmptyString
  | String a r1 =>
      if space1 a then lstrip r1
      else
        match r1 with
        | EmptyString => s
        | String b r2 =>
            if space2 a b then lstrip r2
            else
              match r2 with
              | EmptyString => s
              | String c r3 => if space3 a b c then lstrip r3 else s
              end
        end
  end.

(** The text up to the point from which only white space follows. *)
Fixpoint rstrip (s : string) : string :=
  match s with
  | EmptyString => EmptyString
  | String c r =>
      if String.eqb (lstrip s) "" then EmptyString else String c (rstrip r)
  end.

Definition strip (s : string) : string := lstrip (rstrip s).

(** [f.readlines()] on text already read: each line keeps its line feed. *)
Fixpoint readlines (s : string) : list string :=
  match s with
  | EmptyString => []
  | String c r =>
      if Ascii.eqb c LF then String c EmptyString :: readlines r
      else
        match readlines r with
        | [] => [String c EmptyString]
        | h :: tl => String c h :: tl
        end
  end.

(** [str.replace(old, new)] for a non-empty [old]: scan from the left, and
    at an occurrence emit [new] and skip over it ([skip] counts what is
    left to skip). *)
Fixpoint replace_go (old new s : string) (skip : nat) : string :=
  match s with
  | EmptyString => EmptyString
  | String c r =>
      match skip with
      | S k => replace_go old new r k
      | 0 =>
          if String.prefix old s
          then (new ++ replace_go old new r (String.length old - 1))%string
          else String c (replace_go old new r 0)
      end
  end.

(** [str.replace("", new)]: [new] before every character and at the end;
    a character starts at each byte that is not a continuation. *)
Fixpoint replace_empty (new s : string) : string :=
  match s with
  | EmptyString => new
  | String c r =>
      if is_continuation c then String c (replace_empty new r)
      else (new ++ String c (replace_empty new r))%string
  end.

Definition str_replace (old new s : string) : string :=
  match old with
  | EmptyString => replace_empty new s
  | String _ _ => replace_go old new s 0
  end.

(** ** Path strings *)

(** The script holds paths as strings.  A path string is kept here as the
    list of its components, as written (".." and "." included); every path
    of the script starts from [SCRIPT_DIR], which is absolute, so the list
    is read from the root. *)
Definition pypath := list string.

(** The path string itself, for messages. *)
Definition path_string (pp : pypath) : string := String.concat "/" ("" :: pp).

Fixpoint split_slash (s : string) : list string :=
  match s with
  | EmptyString => [EmptyString]
  | String c r =>
      if Ascii.eqb c SLASH then EmptyString :: split_slash r
      else
        match split_slash r with
        | h :: tl => String c h :: tl
        | [] => [String c EmptyString]
        end
  end.

Definition nonempty (s : string) : bool :=
  match s with EmptyString => false | String _ _ => true end.

(** The components of a path string.  A string that ends with a slash
    names what it names as a directory, and so does the empty string, to
    which [os.path.join] gives a slash: this is kept as a last, empty
    component. *)
Definition components (s : string) : list string :=
  filter nonempty (split_slash s)
  ++ (if nonempty (last (split_slash s) "") then [] else [""]).

Definition is_absolute (s : string) : bool :=
  match s with
  | String c _ => Ascii.eqb c SLASH
  | EmptyString => false
  end.

(** [os.path.join(a, s)] of [posixpath]: an absolute [s] discards [a]. *)
Definition os_path_join (a : pypath) (s : string) : pypath :=
  if is_absolute s then components s else a ++ components s.

(** How the host walks a path string: "." and the empty component of a
    trailing slash stay, ".." steps up, and all three need the directory
    they are taken in to exist. *)
Fixpoint resolve_from (t : node) (acc : path) (pp : pypath) : option path :=
  match pp with
  | [] => Some acc
  | c :: r =>
      if String.eqb c "" || String.eqb c "." then
        if is_dir_at acc t then resolve_from t acc r else None
      else if String.eqb c ".." then
        if is_dir_at acc t then resolve_from t (removelast acc) r else None
      else resolve_from t (acc ++ [c]) r
  end.

Definition resolve (t : node) (pp : pypath) : option path :=
  resolve_from t [] pp.

Fixpoint no_slash (s : string) : bool :=
  match s with
  | EmptyString => true
  | String c r => negb (Ascii.eqb c SLASH) && no_slash r
  end.

(** A name a directory entry can bear. *)
Definition plain (s : string) : bool :=
  nonempty s && no_slash s && negb (String.eqb s ".") && negb (String.eqb s "..").

Definition basename (p : path) : string := last p "".

(** ** The world and the monad of the script *)

(** [locked] lists the entries the host refuses to delete; [spawned] logs
    every [subprocess.run] call (its argument vector and working
    directory), [stdout] every [print]. *)
Record world : Type := mkWorld {
  fs : node;
  locked : list path;
  spawned : list (list string * pypath);
  stdout : list string
}.

Definition with_fs (t : node) (w : world) : world :=
  mkWorld t (locked w) (spawned w) (stdout w).

Inductive result (A : Type) : Type :=
| Ok (a : A)
| Raise (e : exn).
Arguments Ok {A} a.
Arguments Raise {A} e.

Definition M (A : Type) : Type := world -> result A * world.

Definition ret {A : Type} (a : A) : M A := fun w => (Ok a, w).

Definition raise {A : Type} (e : exn) : M A := fun w => (Raise e, w).

Definition bind {A B : Type} (m : M A) (k : A -> M B) : M B :=
  fun w =>
    match m w with
    | (Ok a, w') => k a w'
    | (Raise e, w') => (Raise e, w')
    end.

Notation "x <- m ;; k" := (bind m (fun x => k))
  (at level 61, m at next level, right associativity).
Notation "m ;; k" := (bind m (fun _ => k))
  (at level 61, right associativity).

(** [try: m  except <catches> as e: handler e]. *)
Definition try_except (m : M unit) (catches : exn -> bool)
    (handler : exn -> M unit) : M unit :=
  fun w =>
    match m w with
    | (Ok a, w') => (Ok a, w')
    | (Raise e, w') => if catches e then handler e w' else (Raise e, w')
    end.

(** [for x in l: body x]. *)
Fixpoint for_each {A : Type} (l : list A) (body : A -> M unit) : M unit :=
  match l with
  | [] => ret tt
  | x :: r => body x ;; for_each r body
  end.

Definition print (s : string) : M unit :=
  fun w => (Ok tt, mkWorld (fs w) (locked w) (spawned w) (stdout w ++ [s])).

(** A file-system step that fails without a change. *)
Definition fs_step (f : node -> exn + node) : M unit :=
  fun w =>
    match f (fs w) with
    | inr t' => (Ok tt, with_fs t' w)
    | inl e => (Raise e, w)
    end.

(** ** The library calls the script makes *)

Definition os_path_exists (pp : pypath) : M bool :=
  fun w =>
    (Ok match resolve (fs w) pp with
        | Some p => exists_at p (fs w)
        | None => false
        end, w).

Definition os_path_isdir (pp : pypath) : M bool :=
  fun w =>
    (Ok match resolve (fs w) pp with
        | Some p => is_dir_at p (fs w)
        | None => false
        end, w).

Definition os_path_isfile (pp : pypath) : M bool :=
  fun w =>
    (Ok match resolve (fs w) pp with
        | Some p => is_file_at p (fs w)
        | None => false
        end, w).

(** [os.makedirs(pp, exist_ok=True)]. *)
Definition os_makedirs (pp : pypath) : M unit :=
  fun w =>
    match resolve (fs w) pp with
    | Some p => fs_step (makedirs_node p) w
    | None => (Raise FileNotFoundError, w)
    end.

Definition os_listdir (pp : pypath) : M (list string) :=
  fun w =>
    match resolve (fs w) pp with
    | Some p =>
        match lookup p (fs w) with
        | Some (Dir es) => (Ok (map fst es), w)
        | Some (File _) => (Raise NotADirectoryError, w)
        | None => (Raise FileNotFoundError, w)
        end
    | None => (Raise FileNotFoundError, w)
    end.

Definition os_remove (pp : pypath) : M unit :=
  fun w =>
    match resolve (fs w) pp with
    | Some p =>
        match lookup p (fs w) with
        | Some (File _) =>
            if is_locked (locked w) p then (Raise PermissionError, w)
            else fs_step (prune p) w
        | Some (Dir _) => (Raise IsADirectoryError, w)
        | None => (Raise FileNotFoundError, w)
        end
    | None => (Raise FileNotFoundError, w)
    end.

Definition shutil_rmtree (pp : pypath) : M unit :=
  fun w =>
    match resolve (fs w) pp with
    | Some p =>
        match lookup p (fs w) with
        | Some (Dir es) =>
            match rm_node (locked w) p (Dir es) with
            | None => fs_step (prune p) w
            | Some n' =>
                match alter p (fun _ => inr n') (fs w) with
                | inr t' => (Raise PermissionError, with_fs t' w)
                | inl e => (Raise e, w)
                end
            end
        | Some (File _) => (Raise NotADirectoryError, w)
        | None => (Raise FileNotFoundError, w)
        end
    | None => (Raise FileNotFoundError, w)
    end.

(** [shutil.copy2(src, dst)]: a [dst] that is a directory receives the
    file under the name it has in [src]; the source is opened first, then
    the target is opened for writing, which a file there without the write
    permission refuses; the target gets the bytes of the source and then,
    by [copystat], its mode. *)
Definition copy2_node (src dst : path) (t : node) : result unit * node :=
  let dst' := if is_dir_at dst t then dst ++ [basename src] else dst in
  if path_eqb src dst' && exists_at src t then (Raise SameFileError, t)
  else
    match lookup src t with
    | None => (Raise FileNotFoundError, t)
    | Some (Dir _) => (Raise IsADirectoryError, t)
    | Some (File data) =>
        match write_node dst' data t with
        | inl e => (Raise e, t)
        | inr t' => (Ok tt, t')
        end
    end.

(** [shutil._copytree]'s loop over the listed entries of [src], each with
    the kind it had when listed: the failure of one entry is recorded and
    the others are still copied.  [copytree] is the recursive call. *)
Fixpoint copy_entries (copytree : path -> path -> node -> result unit * node)
    (src dst : path) (l : entries) (errors : bool) (t : node)
    : result bool * node :=
  match l with
  | [] => (Ok errors, t)
  | (name, c) :: rest =>
      let (r, t') :=
        if is_dir_node c
        then copytree (src ++ [name]) (dst ++ [name]) t
        else copy2_node (src ++ [name]) (dst ++ [name]) t in
      match r with
      | Ok _ => copy_entries copytree src dst rest errors t'
      | Raise e =>
          if is_OSError e then copy_entries copytree src dst rest true t'
          else (Raise e, t')
      end
  end.

(** [shutil.copytree(src, dst, dirs_exist_ok=True)].  The entries of [src]
    are listed once before [dst] is made, and a [shutil.Error] is raised at
    the end if the loop recorded a failure.  [limit] is what is left of the
    interpreter's recursion limit, counted in nested [copytree] calls: at
    zero a [RecursionError] is raised, which the [except OSError] of the
    loop does not catch. *)
Fixpoint copytree_node (limit : nat) (src dst : path) (t : node)
    : result unit * node :=
  match limit with
  | 0 => (Raise RecursionError, t)
  | S limit' =>
      match lookup src t with
      | None => (Raise FileNotFoundError, t)
      | Some (File _) => (Raise NotADirectoryError, t)
      | Some (Dir es) =>
          match makedirs_node dst t with
          | inl e => (Raise e, t)
          | inr t1 =>
              match copy_entries (copytree_node limit') src dst es false t1 with
              | (Ok false, t2) => (Ok tt, t2)
              | (Ok true, t2) => (Raise ShutilError, t2)
              | (Raise e, t2) => (Raise e, t2)
              end
          end
      end
  end.

(** [with open(pp, "r", encoding="utf-8") as f: f.read()]: bytes that are
    not UTF-8 raise [UnicodeDecodeError], and the line ends of the text
    are read as line feeds. *)
Definition read_text (pp : pypath) : M string :=
  fun w =>
    match resolve (fs w) pp with
    | Some p =>
        match read_node p (fs w) with
        | inr bytes =>
            if utf8_valid bytes then (Ok (universal_newlines bytes), w)
            else (Raise UnicodeDecodeError, w)
        | inl e => (Raise e, w)
        end
    | None => (Raise FileNotFoundError, w)
    end.

(** [with open(pp, "w", encoding="utf-8") as f: f.write(s)]; on this host
    a line feed is written as it is.  A file that is made is made with the
    write permission, and one that is written to has it. *)
Definition write_text (pp : pypath) (s : string) : M unit :=
  fun w =>
    match resolve (fs w) pp with
    | Some p => fs_step (write_node p (mkFile true s)) w
    | None => (Raise FileNotFoundError, w)
    end.

(** ** The script *)

Record config : Type := mkConfig {
  mcversion : string;
  modloader : string
}.

(** Why the host does not start a program: none of that name on PATH,
    one that may not be executed, a part of its path that is not a
    directory, a file that is no program. *)
Inductive errno : Type := ENOENT | EACCES | ENOTDIR | ENOEXEC.

(** The exception [subprocess.run] raises for it. *)
Definition OSError_of (e : errno) : exn :=
  match e with
  | ENOENT => FileNotFoundError
  | EACCES => PermissionError
  | ENOTDIR => NotADirectoryError
  | ENOEXEC => OSError
  end.

(** An external command, run in a directory of the file system: it exits
    with a status and leaves a file system, or it is not started. *)
Inductive run_result : Type :=
| Exited (code : nat) (t' : node)
| NotStarted (e : errno).

Definition command : Type := list string -> path -> node -> run_result.

Section Script.

(** [SCRIPT_DIR = os.path.dirname(os.path.abspath(__file__))]. *)
Variable SCRIPT_DIR : pypath.

(** The recursion limit of the interpreter, in nested [copytree] calls. *)
Variable recursion_limit : nat.

(** The programs found on PATH. *)
Variable spawn : command.

Definition join_all (a : pypath) (l : list string) : pypath :=
  fold_left os_path_join l a.

Definition shutil_copytree (src dst : pypath) : M unit :=
  fun w =>
    match resolve (fs w) src, resolve (fs w) dst with
    | Some s, Some d =>
        let (r, t') := copytree_node recursion_limit s d (fs w) in
        (r, with_fs t' w)
    | _, _ => (Raise FileNotFoundError, w)
    end.

Definition shutil_copy2 (src dst : pypath) : M unit :=
  fun w =>
    match resolve (fs w) src, resolve (fs w) dst with
    | Some s, Some d =>
        let (r, t') := copy2_node s d (fs w) in
        (r, with_fs t' w)
    | _, _ => (Raise FileNotFoundError, w)
    end.

(** [subprocess.run(argv, cwd=cwd, check=True)]: a program that is not
    started raises the error of the host, one that exits with a status
    other than zero raises [CalledProcessError]. *)
Definition subprocess_run (argv : list string) (cwd : pypath) : M unit :=
  fun w =>
    let w1 := mkWorld (fs w) (locked w) (spawned w ++ [(argv, cwd)]) (stdout w) in
    match resolve (fs w) cwd with
    | Some p =>
        match lookup p (fs w) with
        | Some (Dir _) =>
            match spawn argv p (fs w) with
            | Exited code t' =>
                if Nat.eqb code 0 then (Ok tt, with_fs t' w1)
                else (Raise CalledProcessError, with_fs t' w1)
            | NotStarted e => (Raise (OSError_of e), w1)
            end
        | Some (File _) => (Raise NotADirectoryError, w1)
        | None => (Raise FileNotFoundError, w1)
        end
    | None => (Raise FileNotFoundError, w1)
    end.

Definition update_pack_framework : M unit :=
  let framework_path := os_path_join SCRIPT_DIR "framework" in
  found <- os_path_exists framework_path ;;
  if (found : bool) then
    print "Found a PackFramework folder, trying to update..." ;;
    try_except
      (subprocess_run ["git"; "pull"; "origin"] framework_path)
      is_CalledProcessError
      (fun _ => print "Error updating PackFramework.")
  else
    print "PackFramework folder not found, cloning repository..." ;;
    try_except
      (subprocess_run
         ["git"; "clone"; "https://github.com/Den4enko/PackFramework"; "framework"]
         SCRIPT_DIR)
      is_CalledProcessError
      (fun _ => print "Error cloning PackFramework repository.").

Definition copy_directory_contents (src dest : pypath) : M unit :=
  found <- os_path_exists src ;;
  if negb found then ret tt
  else
    os_makedirs dest ;;
    items <- os_listdir src ;;
    for_each items (fun item =>
      let s_item := os_path_join src item in
      let d_item := os_path_join dest item in
      isd <- os_path_isdir s_item ;;
      if (isd : bool) then shutil_copytree s_item d_item
      else shutil_copy2 s_item d_item).

Definition replace_in_file (file_path : pypath) (old_text new_text : string)
    : M unit :=
  found <- os_path_exists file_path ;;
  if (found : bool) then
    try_except
      (content <- read_text file_path ;;
       let content := str_replace old_text new_text content in
       write_text file_path content)
      is_Exception
      (fun e =>
         print ("Error processing file " ++ path_string file_path ++ ": "
                ++ exn_message e)%string)
  else ret tt.

Definition output_path_of (modpacktype : string) (cfg : config) : pypath :=
  join_all SCRIPT_DIR ["beta"; modloader cfg; mcversion cfg; modpacktype].

Definition is_nano_or_giga (modpacktype : string) : bool :=
  String.eqb modpacktype "nano" || String.eqb modpacktype "giga".

(** Lines 201-204: the old output tree goes, an empty one is made. *)
Definition build_clean (output_path : pypath) : M unit :=
  found <- os_path_exists output_path ;;
  (if (found : bool) then shutil_rmtree output_path else ret tt) ;;
  os_makedirs output_path.

(** Lines 206-221: the tiers, in their order. *)
Definition build_merge (modpacktype : string) (cfg : config)
    (output_path : pypath) : M unit :=
  let src_path :=
    join_all SCRIPT_DIR
      ["framework"; "packwiz"; modloader cfg; mcversion cfg; modpacktype] in
  copy_directory_contents src_path output_path ;;
  let src_path_server := join_all SCRIPT_DIR ["mod"; modloader cfg; "all"; "server"] in
  copy_directory_contents src_path_server output_path ;;
  if is_nano_or_giga modpacktype then
    let src_path_nano := join_all SCRIPT_DIR ["mod"; modloader cfg; "all"; "nano"] in
    copy_directory_contents src_path_nano output_path ;;
    if String.eqb modpacktype "giga" then
      let src_path_giga := join_all SCRIPT_DIR ["mod"; modloader cfg; "all"; "giga"] in
      copy_directory_contents src_path_giga output_path
    else ret tt
  else ret tt.

(** Lines 230-237: one line of the removal list. *)
Definition remove_listed (output_path : pypath) (file_relative : string)
    : M unit :=
  let file_relative := strip file_relative in
  if nonempty file_relative then
    let target_path := os_path_join output_path file_relative in
    isf <- os_path_isfile target_path ;;
    if (isf : bool) then os_remove target_path
    else
      isd <- os_path_isdir target_path ;;
      if (isd : bool) then shutil_rmtree target_path else ret tt
  else ret tt.

(** Lines 223-240: the removal list; one [try] around the whole of it. *)
Definition build_remove (output_path : pypath) : M unit :=
  let files_to_remove_path := os_path_join output_path "filesToRemove.txt" in
  isf <- os_path_isfile files_to_remove_path ;;
  if (isf : bool) then
    print "Removing files from the list..." ;;
    try_except
      (content <- read_text files_to_remove_path ;;
       let files_to_remove := readlines content in
       for_each files_to_remove (remove_listed output_path) ;;
       os_remove files_to_remove_path)
      is_Exception
      (fun e => print ("Error removing files: " ++ exn_message e)%string)
  else ret tt.

(** Lines 242-250: the version is stamped. *)
Definition build_stamp (modpacktype : string) (output_path : pypath)
    (selected_version : string) : M unit :=
  replace_in_file (os_path_join output_path "pack.toml")
    "noVersion" selected_version ;;
  replace_in_file (join_all output_path ["config"; "bcc-common.toml"])
    "noVersion" selected_version ;;
  if is_nano_or_giga modpacktype then
    replace_in_file
      (join_all output_path
         ["config"; "fancymenu"; "custom_locals"; "mod"; "en_us.local"])
      "noVersion" selected_version
  else ret tt.

(** Lines 252-257: packwiz. *)
Definition build_refresh (output_path : pypath) : M unit :=
  print "Refreshing modpack using packwiz..." ;;
  try_except
    (subprocess_run ["packwiz"; "refresh"; "--build"] output_path)
    is_CalledProcessError
    (fun _ => print "Error refreshing modpack with packwiz.").

Definition build_modpack (modpacktype : string) (cfg : config)
    (selected_version : string) : M unit :=
  let output_path := output_path_of modpacktype cfg in
  print ("Building " ++ mcversion cfg ++ "-" ++ modpacktype ++ "...")%string ;;
  build_clean output_path ;;
  build_merge modpacktype cfg output_path ;;
  build_remove output_path ;;
  build_stamp modpacktype output_path selected_version ;;
  build_refresh output_path ;;
  print "Done!".

Definition copy_beta_to_release : M unit :=
  let beta_dir := os_path_join SCRIPT_DIR "beta" in
  let release_dir := os_path_join SCRIPT_DIR "release" in
  found <- os_path_exists release_dir ;;
  (if (found : bool) then shutil_rmtree release_dir else ret tt) ;;
  os_makedirs release_dir ;;
  items <- os_listdir beta_dir ;;
  for_each items (fun item =>
    let s_item := os_path_join beta_dir item in
    let d_item := os_path_join release_dir item in
    isd <- os_path_isdir s_item ;;
    if (isd : bool) then shutil_copytree s_item d_item
    else shutil_copy2 s_item d_item) ;;
  let last_version_release := os_path_join release_dir "lastVersion.txt" in
  found <- os_path_exists last_version_release ;;
  if (found : bool) then
    try_except (os_remove last_version_release) is_Exception
      (fun e =>
         print ("Error removing lastVersion.txt from release: " ++ exn_message e)%string)
  else ret tt.

End Script.

(** ** The merge as a function of two trees

    What [copy_directory_contents] does when the source and the
    destination do not overlap, written on the trees themselves; the
    refinement theorems below relate the two. *)

(** Replace the subtree at [p]. *)
Definition graft (p : path) (n : node) (t : node) : node :=
  match alter p (fun _ => inr n) t with
  | inr t' => t'
  | inl _ => t
  end.

Definition upd (k : string) (v : option node) (d : entries) : entries :=
  match v with
  | Some x => alist_set k x d
  | None => d
  end.

Definition is_raise {A : Type} (r : result A) : bool :=
  match r with Ok _ => false | Raise _ => true end.

(** The loop of [copytree] over the entries [l], into a directory that
    holds [c]. *)
Fixpoint overlay_loop (f : node -> string -> option node -> result unit * option node)
    (l : entries) (errors : bool) (c : entries) : bool * entries :=
  match l with
  | [] => (errors, c)
  | (n, s) :: rest =>
      let (r, v) := f s n (alist_get n c) in
      overlay_loop f rest (errors || is_raise r) (upd n v c)
  end.

(** Copy the source entry [s], named [k], into a directory whose entry of
    that name is [o]: the outcome and the new entry.  A file goes into a
    directory of its name and does not replace a file without the write
    permission, a directory does not replace a file. *)
Fixpoint overlay (s : node) (k : string) (o : option node)
    : result unit * option node :=
  match s with
  | File data =>
      match o with
      | Some (Dir c) =>
          match alist_get k c with
          | Some (Dir _) => (Raise IsADirectoryError, o)
          | Some (File old) =>
              if writable old
              then (Ok tt, Some (Dir (alist_set k (File data) c)))
              else (Raise PermissionError, o)
          | None => (Ok tt, Some (Dir (alist_set k (File data) c)))
          end
      | Some (File old) =>
          if writable old then (Ok tt, Some (File data))
          else (Raise PermissionError, o)
      | None => (Ok tt, Some (File data))
      end
  | Dir es =>
      match o with
      | Some (File _) => (Raise FileExistsError, o)
      | _ =>
          let c0 := match o with Some (Dir c) => c | _ => [] end in
          let (errors, c') := overlay_loop overlay es false c0 in
          (if errors then Raise ShutilError else Ok tt, Some (Dir c'))
      end
  end.

(** The loop of [copy_directory_contents]: it stops at the first entry
    that raises. *)
Fixpoint overlay_all (l : entries) (d : entries) : result unit * entries :=
  match l with
  | [] => (Ok tt, d)
  | (n, s) :: rest =>
      match overlay s n (alist_get n d) with
      | (Ok _, v) => overlay_all rest (upd n v d)
      | (Raise e, v) => (Raise e, upd n v d)
      end
  end.

Fixpoint height (n : node) : nat :=
  match n with
  | File _ => 0
  | Dir es => S (fold_right (fun e m => Nat.max (height (snd e)) m) 0 es)
  end.

Fixpoint nodupb (l : list string) : bool :=
  match l with
  | [] => true
  | x :: r => negb (existsb (String.eqb x) r) && nodupb r
  end.

(** A tree as a host keeps it: in every directory the names are plain and
    no name is borne twice. *)
Fixpoint wf_node (n : node) : bool :=
  match n with
  | File _ => true
  | Dir es =>
      forallb plain (map fst es) && nodupb (map fst es)
      && forallb (fun e => wf_node (snd e)) es
  end.

(** No file of the tree is without the write permission. *)
Fixpoint all_writable (n : node) : bool :=
  match n with
  | File data => writable data
  | Dir es => forallb (fun e => all_writable (snd e)) es
  end.

(** Neither path is a prefix of the other. *)
Fixpoint disjointb (p q : path) : bool :=
  match p, q with
  | a :: p', b :: q' => if String.eqb a b then disjointb p' q' else true
  | _, _ => false
  end.

(** Induction on trees, with the hypothesis for every entry of a
    directory. *)
Fixpoint node_induction (P : node -> Prop)
    (HF : forall data, P (File data))
    (HD : forall es, Forall (fun e => P (snd e)) es -> P (Dir es))
    (n : node) : P n :=
  match n with
  | File data => HF data
  | Dir es =>
      HD es
        ((fix go (l : entries) : Forall (fun e => P (snd e)) l :=
            match l with
            | [] => Forall_nil _
            | e :: r => Forall_cons e (node_induction P HF HD (snd e)) (go r)
            end) es)
  end.

(** Every entry of [t] is still there in [t'], a directory as a directory
    and a file as a file. *)
Definition preserved (t t' : node) : Prop :=
  forall p n, lookup p t = Some n ->
    exists n', lookup p t' = Some n' /\ is_dir_node n' = is_dir_node n.

(** A step of the script that removes nothing. *)
Definition keeps {A : Type} (m : M A) : Prop :=
  forall w, preserved (fs w) (fs (snd (m w))).

(** ** The removal list as the claim words it *)

(** Spelt in the visible characters of ASCII. *)
Definition visible (s : string) : bool := all_bytes (byte_in 33 126) s.

(** The path string of the relative path [q]. *)
Definition listed (q : path) : string := String.concat "/" q.

(** The text of a removal list that names the paths [names], a line
    each. *)
Fixpoint removal_list (names : list path) : string :=
  match names with
  | [] => EmptyString
  | q :: rest => (listed q ++ String LF (removal_list rest))%string
  end.

(** The paths the property of the removal step is stated for: relative
    and not empty, of plain names spelt in visible ASCII, and not the
    removal list itself. *)
Definition listable (q : path) : bool :=
  negb (path_eqb q []) && forallb plain q && forallb visible q
  && negb (path_eqb q ["filesToRemove.txt"]).

(** ** The stamping as the claim words it *)

Definition occurs (old s : string) : Prop :=
  exists a b, s = (a ++ old ++ b)%string.

Fixpoint butlast (s : string) : string :=
  match s with
  | EmptyString => EmptyString
  | String c r =>
      match r with
      | EmptyString => EmptyString
      | String _ _ => String c (butlast r)
      end
  end.

(** [Stamped old new s out]: [out] is [s] with every occurrence of [old],
    taken from the left and one after the other, replaced by [new], and
    the text between the occurrences kept. *)
Inductive Stamped (old new : string) : string -> string -> Prop :=
| stamped_rest : forall s, ~ occurs old s -> Stamped old new s s
| stamped_next : forall pre rest out,
    ~ occurs old (pre ++ butlast old)%string ->
    Stamped old new rest out ->
    Stamped old new (pre ++ old ++ rest)%string (pre ++ new ++ out)%string.

(** The empty token: [Interleaved new s out] when [out] is [s] with [new]
    before each of its characters and after the last.  A character is a
    byte that is not a continuation and the continuations that follow
    it. *)
Definition is_char (ch : string) : bool :=
  match ch with
  | String c tail => negb (is_continuation c) && all_bytes is_continuation tail
  | EmptyString => false
  end.

Definition at_boundary (rest : string) : bool :=
  match rest with
  | String c _ => negb (is_continuation c)
  | EmptyString => true
  end.

Inductive Interleaved (new : string) : string -> string -> Prop :=
| interleaved_end : Interleaved new "" new
| interleaved_char : forall ch rest out,
    is_char ch = true -> at_boundary rest = true ->
    Interleaved new rest out ->
    Interleaved new (ch ++ rest)%string (new ++ ch ++ out)%string.

Fixpoint has_CR (s : string) : bool :=
  match s with
  | EmptyString => false
  | String c r => Ascii.eqb c CR || has_CR r
  end.

(** ** Tiers that can be merged

    Two trees agree when no path is a file in one and a directory in the
    other; [compatb] decides it on the common entries. *)
Fixpoint compatb (a b : node) : bool :=
  match a, b with
  | File _, File _ => true
  | Dir ea, Dir eb =>
      forallb (fun e =>
                 match alist_get (fst e) eb with
                 | Some y => compatb (snd e) y
                 | None => true
                 end) ea
  | _, _ => false
  end.

(** Where both trees have a file, the file of [a] has the write
    permission: a tree laid over [a] can take its place. *)
Fixpoint yields (a b : node) : bool :=
  match a, b with
  | File data, File _ => writable data
  | Dir ea, Dir eb =>
      forallb (fun e =>
                 match alist_get (fst e) eb with
                 | Some y => yields (snd e) y
                 | None => true
                 end) ea
  | _, _ => true
  end.

Definition gives_way (a b : node) : Prop :=
  forall q g f, lookup q a = Some (File g) -> lookup q b = Some (File f) ->
    writable g = true.

Definition gives_way_opt (o : option node) (s : node) : Prop :=
  match o with Some y => gives_way y s | None => True end.

Definition agree (a b : node) : Prop :=
  forall q x y, lookup q a = Some x -> lookup q b = Some y ->
    is_dir_node x = is_dir_node y.

Definition agree_opt (s : node) (o : option node) : Prop :=
  match o with Some y => agree s y | None => True end.

Definition lookup_opt (q : path) (o : option node) : option node :=
  match o with Some y => lookup q y | None => None end.

(** [x] is [o] with [s] laid over it: the files of [s] are in [x], the
    directories of [s] are directories of [x], and where [s] has nothing
    [x] has what [o] had. *)
Definition merged (s : node) (o : option node) (x : node) : Prop :=
  (forall q d, lookup q s = Some (File d) -> lookup q x = Some (File d))
  /\ (forall q, lookup q s = None -> lookup q x = lookup_opt q o)
  /\ (forall q es, lookup q s = Some (Dir es) -> is_dir_at q x = true).

(** [x] is [o] with a part of [s] laid over it, as a merge that stopped
    on the way leaves it: where [s] has nothing [x] has what [o] had, and
    where [s] has something [x] has nothing of another kind. *)
Definition within (s : node) (o : option node) (x : node) : Prop :=
  (forall q, lookup q s = None -> lookup q x = lookup_opt q o)
  /\ (forall q n y, lookup q s = Some n -> lookup q x = Some y ->
        is_dir_node y = is_dir_node n).

(** The tier found at [p], an absent tier being an empty one, and the
    tests on the tiers of a list, each with those after it: that they
    agree in kind, and that no read-only file of a tier is in the way of
    a file of a later one. *)
Definition tier_node (t : node) (p : path) : node :=
  match lookup p t with Some n => n | None => Dir [] end.

Fixpoint all_pairs (test : node -> node -> bool) (l : list node) : bool :=
  match l with
  | [] => true
  | a :: r => forallb (test a) r && all_pairs test r
  end.

Definition mergeable (t : node) (tiers : list path) : bool :=
  forallb (fun p => negb (is_file_at p t)) tiers
  && all_pairs compatb (map (tier_node t) tiers).

Definition overwritable (t : node) (tiers : list path) : bool :=
  all_pairs yields (map (tier_node t) tiers).

(** Walking [p] from [t] meets a regular file, at [p] or before it: what
    makes [os.makedirs(p, exist_ok=True)] fail. *)
Fixpoint file_on_path (p : path) (t : node) : bool :=
  match t with
  | File _ => true
  | Dir es =>
      match p with
      | [] => false
      | k :: p' =>
          match alist_get k es with
          | Some c => file_on_path p' c
          | None => false
          end
      end
  end.

(** ** The console: the prompts of the script

    [input(prompt)] writes the prompt to standard output and reads a line
    from the keyboard, without its line end; at the end of the input it
    raises [EOFError], which no handler of the script catches. *)
Record console : Type := mkConsole {
  screen : world;
  keyboard : list string
}.

Inductive outcome (A : Type) : Type :=
| Returned (a : A)
| Raised (e : exn)
| EndOfInput.
Arguments Returned {A} a.
Arguments Raised {A} e.
Arguments EndOfInput {A}.

Definition IO (A : Type) : Type := console -> outcome A * console.

Definition io_ret {A : Type} (a : A) : IO A := fun c => (Returned a, c).

Definition io_bind {A B : Type} (m : IO A) (k : A -> IO B) : IO B :=
  fun c =>
    match m c with
    | (Returned a, c') => k a c'
    | (Raised e, c') => (Raised e, c')
    | (EndOfInput, c') => (EndOfInput, c')
    end.

Notation "x <~ m ;; k" := (io_bind m (fun x => k))
  (at level 61, m at next level, right associativity).
Notation "m ~;; k" := (io_bind m (fun _ => k))
  (at level 61, right associativity).

(** A step that does not prompt. *)
Definition lift {A : Type} (m : M A) : IO A :=
  fun c =>
    match m (screen c) with
    | (Ok a, w') => (Returned a, mkConsole w' (keyboard c))
    | (Raise e, w') => (Raised e, mkConsole w' (keyboard c))
    end.

Definition input (prompt : string) : IO string :=
  fun c =>
    let w' := snd (print prompt (screen c)) in
    match keyboard c with
    | line :: rest => (Returned line, mkConsole w' rest)
    | [] => (EndOfInput, mkConsole w' [])
    end.

(** [try: m  except <catches>: handler], for a block that yields a value. *)
Definition try_catch {A : Type} (m : M A) (catches : exn -> bool)
    (handler : exn -> M A) : M A :=
  fun w =>
    match m w with
    | (Ok a, w') => (Ok a, w')
    | (Raise e, w') => if catches e then handler e w' else (Raise e, w')
    end.

Section Prompts.

Variable SCRIPT_DIR : pypath.

(** [LAST_VERSION_FILE = os.path.join(SCRIPT_DIR, "beta", "lastVersion.txt")]. *)
Definition LAST_VERSION_FILE : pypath :=
  join_all SCRIPT_DIR ["beta"; "lastVersion.txt"].

(** Lines 99-105: the version stored by the last selection, empty when
    there is none or it cannot be read. *)
Definition read_last_version : M string :=
  found <- os_path_exists LAST_VERSION_FILE ;;
  if (found : bool) then
    try_catch
      (content <- read_text LAST_VERSION_FILE ;; ret (strip content))
      is_Exception
      (fun _ => ret "")
  else ret "".

Definition select_new_mp_version : IO string :=
  let beta_dir := os_path_join SCRIPT_DIR "beta" in
  lift (os_makedirs beta_dir) ~;;
  last_version <~ lift read_last_version ;;
  let prompt :=
    ("Select the new modpack version (Press Enter to keep '" ++ last_version
     ++ "'): ")%string in
  new_version <~ input prompt ;;
  let new_version := strip new_version in
  let new_version :=
    if String.eqb new_version "" then last_version else new_version in
  lift (write_text LAST_VERSION_FILE new_version) ~;;
  lift (print ("Selected modpack version: " ++ new_version)%string) ~;;
  io_ret new_version.

End Prompts.

(** ** The build action of the menu *)

Section BuildAction.

Variable SCRIPT_DIR : pypath.
Variable recursion_limit : nat.
Variable spawn : command.

(** [main_menu], lines 333-339, the branch of choice "1": the version is
    asked once, the framework is synced once, and the three variants are
    built in this order. *)
Definition menu_build (cfg : config) : IO unit :=
  selected_version <~ select_new_mp_version SCRIPT_DIR ;;
  lift (update_pack_framework SCRIPT_DIR spawn) ~;;
  lift (for_each ["giga"; "nano"; "server"] (fun modpacktype =>
          build_modpack SCRIPT_DIR recursion_limit spawn modpacktype cfg
            selected_version)).

End BuildAction.

(** A step that starts no program, and a step that starts at most the
    program call [e], and only as its last effect on the log. *)
Definition quiet {A : Type} (m : M A) : Prop :=
  forall w, spawned (snd (m w)) = spawned w.

Definition starts_at_most {A : Type} (e : list string * pypath) (m : M A) : Prop :=
  forall w,
    spawned (snd (m w)) = spawned w ++ [e]
    \/ (spawned (snd (m w)) = spawned w /\ exists x, fst (m w) = Raise x).

(** ** Worlds and programs to run the script on *)

Definition world_of (t : node) : world := mkWorld t [] [] [].

Definition no_program : command := fun _ _ _ => NotStarted ENOENT.

Definition program_exits (code : nat) : command := fun _ _ t => Exited code t.

(** A program that is on PATH and may not be executed. *)
Definition no_permission : command := fun _ _ _ => NotStarted EACCES.

(** * Properties *)

(** ** Directory listings *)

Lemma alist_get_set_same (k : string) (v : node) (l : entries) :
  alist_get k (alist_set k v l) = Some v.
Proof.
  induction l as [|[k' v'] r IH]; simpl.
  - now rewrite String.eqb_refl.
  - destruct (String.eqb k k') eqn:E; simpl; rewrite E; auto.
Qed.

Lemma alist_get_set_other (k k' : string) (v : node) (l : entries) :
  k <> k' -> alist_get k (alist_set k' v l) = alist_get k l.
Proof.
  intros Hne. induction l as [|[k2 v2] r IH]; simpl.
  - destruct (String.eqb k k') eqn:E; auto.
    apply String.eqb_eq in E. contradiction.
  - destruct (String.eqb k' k2) eqn:E2; simpl.
    + apply String.eqb_eq in E2. subst k2.
      destruct (String.eqb k k') eqn:E; auto.
      apply String.eqb_eq in E. contradiction.
    + now rewrite IH.
Qed.

Lemma alist_set_get_id (k : string) (v : node) (l : entries) :
  alist_get k l = Some v -> alist_set k v l = l.
Proof.
  induction l as [|[k' v'] r IH]; simpl; intros H; [discriminate|].
  destruct (String.eqb k k') eqn:E.
  - congruence.
  - now rewrite IH.
Qed.

Lemma alist_set_set (k : string) (v v' : node) (l : entries) :
  alist_set k v (alist_set k v' l) = alist_set k v l.
Proof.
  induction l as [|[k' x] r IH]; simpl.
  - now rewrite String.eqb_refl.
  - destruct (String.eqb k k') eqn:E; simpl; rewrite E; congruence.
Qed.

Lemma alist_get_upd_same (k : string) (v : option node) (l : entries) :
  alist_get k (upd k v l) = match v with Some x => Some x | None => alist_get k l end.
Proof.
  destruct v; simpl; auto using alist_get_set_same.
Qed.

Lemma alist_get_upd_other (k k' : string) (v : option node) (l : entries) :
  k <> k' -> alist_get k (upd k' v l) = alist_get k l.
Proof.
  destruct v; simpl; auto using alist_get_set_other.
Qed.

Lemma alist_get_in (k : string) (v : node) (l : entries) :
  alist_get k l = Some v -> In (k, v) l.
Proof.
  induction l as [|[k' v'] r IH]; simpl; [discriminate|].
  destruct (String.eqb k k') eqn:E; intros H.
  - apply String.eqb_eq in E. left. congruence.
  - right. auto.
Qed.

Lemma alist_get_none (k : string) (l : entries) :
  alist_get k l = None <-> ~ In k (map fst l).
Proof.
  induction l as [|[k' v'] r IH]; simpl.
  - tauto.
  - destruct (String.eqb k k') eqn:E.
    + apply String.eqb_eq in E. split; [discriminate|]. intros H. exfalso. auto.
    + apply String.eqb_neq in E. rewrite IH. split.
      * intros H [H'|H']; [congruence|contradiction].
      * intros H H'. apply H. auto.
Qed.

Lemma nodupb_NoDup (l : list string) : nodupb l = true <-> NoDup l.
Proof.
  induction l as [|x r IH]; simpl.
  - split; [constructor|reflexivity].
  - rewrite andb_true_iff, negb_true_iff, IH. split.
    + intros [Hx Hr]. constructor; [|assumption].
      intros Hin. assert (existsb (String.eqb x) r = true) as E.
      { apply existsb_exists. exists x. split; [assumption|apply String.eqb_refl]. }
      congruence.
    + intros H. inversion H as [|? ? Hx Hr]; subst. split; [|assumption].
      destruct (existsb (String.eqb x) r) eqn:E; [|reflexivity].
      apply existsb_exists in E. destruct E as [y [Hy Hxy]].
      apply String.eqb_eq in Hxy. subst y. contradiction.
Qed.

Lemma alist_get_head_nodup (k : string) (v : node) (l : entries) :
  alist_get k ((k, v) :: l) = Some v.
Proof. simpl. now rewrite String.eqb_refl. Qed.

(** ** Paths in a tree *)

Lemma lookup_app (p q : path) (t : node) :
  lookup (p ++ q) t =
  match lookup p t with Some c => lookup q c | None => None end.
Proof.
  revert t. induction p as [|k p IH]; intros t; simpl; [reflexivity|].
  destruct t as [|es]; [reflexivity|].
  destruct (alist_get k es); auto.
Qed.

Lemma alter_app (p q : path) (f : node -> exn + node) (t : node) :
  alter (p ++ q) f t = alter p (alter q f) t.
Proof.
  revert t. induction p as [|k p IH]; intros t; simpl; [reflexivity|].
  destruct t as [|es]; [reflexivity|].
  destruct (alist_get k es); auto. now rewrite IH.
Qed.

Lemma alter_ok (p : path) (f : node -> exn + node) (t c c' : node) :
  lookup p t = Some c -> f c = inr c' ->
  exists t', alter p f t = inr t' /\ lookup p t' = Some c'.
Proof.
  revert t. induction p as [|k p IH]; intros t; simpl.
  - intros [= ->] H. eauto.
  - destruct t as [|es]; [discriminate|].
    destruct (alist_get k es) as [x|] eqn:E; [|discriminate].
    intros Hl Hf. destruct (IH _ Hl Hf) as [x' [Ha Hl']].
    rewrite Ha. eexists. split; [reflexivity|]. simpl.
    now rewrite alist_get_set_same.
Qed.

Lemma alter_err (p : path) (f : node -> exn + node) (t c : node) (e : exn) :
  lookup p t = Some c -> f c = inl e -> alter p f t = inl e.
Proof.
  revert t. induction p as [|k p IH]; intros t; simpl.
  - now intros [= ->] H.
  - destruct t as [|es]; [discriminate|].
    destruct (alist_get k es) as [x|] eqn:E; [|discriminate].
    intros Hl Hf. now rewrite (IH _ Hl Hf).
Qed.

Lemma alter_id (p : path) (f : node -> exn + node) (t c : node) :
  lookup p t = Some c -> f c = inr c -> alter p f t = inr t.
Proof.
  revert t. induction p as [|k p IH]; intros t; simpl.
  - now intros [= ->] H.
  - destruct t as [|es]; [discriminate|].
    destruct (alist_get k es) as [x|] eqn:E; [|discriminate].
    intros Hl Hf. rewrite (IH _ Hl Hf). now rewrite alist_set_get_id.
Qed.

Lemma graft_lookup (p : path) (n : node) (t c : node) :
  lookup p t = Some c -> lookup p (graft p n t) = Some n.
Proof.
  intros Hl. unfold graft.
  destruct (alter_ok p (fun _ => inr n) t c n Hl eq_refl) as [t' [Ha Hl']].
  now rewrite Ha.
Qed.

Lemma graft_alter (p : path) (n : node) (t c : node) :
  lookup p t = Some c -> alter p (fun _ => inr n) t = inr (graft p n t).
Proof.
  intros Hl. unfold graft.
  destruct (alter_ok p (fun _ => inr n) t c n Hl eq_refl) as [t' [Ha Hl']].
  now rewrite Ha.
Qed.

Lemma graft_id (p : path) (t c : node) :
  lookup p t = Some c -> graft p c t = t.
Proof.
  intros Hl. unfold graft.
  now rewrite (alter_id p (fun _ => inr c) t c Hl eq_refl).
Qed.

Lemma graft_cons (k : string) (p : path) (n : node) (es : entries) (x c : node) :
  alist_get k es = Some x -> lookup p x = Some c ->
  graft (k :: p) n (Dir es) = Dir (alist_set k (graft p n x) es).
Proof.
  intros E Hl. unfold graft at 1. simpl. rewrite E.
  now rewrite (graft_alter p n x c Hl).
Qed.

Lemma graft_graft (p : path) (n n' : node) (t c : node) :
  lookup p t = Some c -> graft p n' (graft p n t) = graft p n' t.
Proof.
  revert t. induction p as [|k p IH]; intros t; simpl; [reflexivity|].
  destruct t as [|es]; [discriminate|].
  destruct (alist_get k es) as [x|] eqn:E; [|discriminate].
  intros Hl.
  rewrite (graft_cons k p n es x c E Hl).
  rewrite (graft_cons k p n' es x c E Hl).
  rewrite (graft_cons k p n' _ (graft p n x) n).
  - rewrite IH by assumption. now rewrite alist_set_set.
  - apply alist_get_set_same.
  - eapply graft_lookup; eassumption.
Qed.

Lemma alter_ext_at (p : path) (f g : node -> exn + node) (t c : node) :
  lookup p t = Some c -> f c = g c -> alter p f t = alter p g t.
Proof.
  revert t. induction p as [|k p IH]; intros t; simpl.
  - now intros [= ->].
  - destruct t as [|es]; [discriminate|].
    destruct (alist_get k es) as [x|] eqn:E; [|discriminate].
    intros Hl Hfg. now rewrite (IH _ Hl Hfg).
Qed.

Lemma graft_nest (dp : path) (k : string) (y : node) (t : node) (d : entries) (x : node) :
  lookup dp t = Some (Dir d) -> alist_get k d = Some x ->
  graft (dp ++ [k]) y t = graft dp (Dir (alist_set k y d)) t.
Proof.
  intros Hl E. unfold graft. rewrite alter_app.
  rewrite (alter_ext_at dp _ (fun _ => inr (Dir (alist_set k y d))) t (Dir d) Hl);
    [reflexivity|].
  simpl. now rewrite E.
Qed.

Lemma disjointb_sym (p q : path) : disjointb p q = disjointb q p.
Proof.
  revert q. induction p as [|a p IH]; intros [|b q]; simpl; auto.
  rewrite (String.eqb_sym b a). destruct (String.eqb a b); auto.
Qed.

Lemma disjointb_app (p q x y : path) :
  disjointb p q = true -> disjointb (p ++ x) (q ++ y) = true.
Proof.
  revert q. induction p as [|a p IH]; intros [|b q]; simpl; try discriminate.
  destruct (String.eqb a b); auto.
Qed.

Lemma disjointb_neq (p q : path) : disjointb p q = true -> p <> q.
Proof.
  revert q. induction p as [|a p IH]; intros [|b q]; simpl; try discriminate.
  destruct (String.eqb a b) eqn:E.
  - intros H [= _ Hpq]. now apply (IH q).
  - apply String.eqb_neq in E. intros _ [= Hab _]. contradiction.
Qed.

(** Replacing one entry of the directory at [dst] is not seen from a path
    that leaves [dst] by another name. *)
Lemma lookup_graft_other (dst : path) (n : string) (v : option node)
    (c : entries) (t : node) (q : path) :
  lookup dst t = Some (Dir c) ->
  disjointb (dst ++ [n]) q = true ->
  lookup q (graft dst (Dir (upd n v c)) t) = lookup q t.
Proof.
  revert t q. induction dst as [|k dst IH]; intros t q Hl Hd.
  - simpl in Hl. injection Hl as ->. unfold graft. simpl.
    destruct q as [|b q]; [discriminate|]. simpl in Hd. simpl.
    destruct (String.eqb n b) eqn:E; [destruct q; discriminate|].
    apply String.eqb_neq in E.
    rewrite alist_get_upd_other; auto.
  - simpl in Hl. destruct t as [|es]; [discriminate|].
    destruct (alist_get k es) as [x|] eqn:E; [|discriminate].
    rewrite (graft_cons k dst _ es x _ E Hl).
    destruct q as [|b q]; [discriminate|]. simpl in Hd. simpl.
    destruct (String.eqb k b) eqn:Ekb.
    + apply String.eqb_eq in Ekb. subst b.
      rewrite alist_get_set_same, E. now apply IH.
    + apply String.eqb_neq in Ekb.
      rewrite alist_get_set_other; auto.
Qed.

Lemma write_node_zoom (p q : path) (data : file) (t c : node) :
  lookup p t = Some c ->
  write_node (p ++ q) data t = alter p (write_node q data) t.
Proof.
  revert t. induction p as [|k p IH]; intros t; simpl; [reflexivity|].
  destruct t as [|es]; [discriminate|].
  destruct (alist_get k es) as [x|] eqn:E; [|discriminate].
  intros Hl. now rewrite (IH _ Hl).
Qed.

Lemma makedirs_node_zoom (p q : path) (t c : node) :
  lookup p t = Some c ->
  makedirs_node (p ++ q) t = alter p (makedirs_node q) t.
Proof.
  revert t. induction p as [|k p IH]; intros t; simpl; [reflexivity|].
  destruct t as [|es]; [discriminate|].
  destruct (alist_get k es) as [x|] eqn:E; [|discriminate].
  intros Hl. now rewrite (IH _ Hl).
Qed.

Lemma alter_graft (p : path) (f : node -> exn + node) (t c c' : node) :
  lookup p t = Some c -> f c = inr c' -> alter p f t = inr (graft p c' t).
Proof.
  intros Hl Hf.
  rewrite (alter_ext_at p f (fun _ => inr c') t c Hl Hf).
  eapply graft_alter; eassumption.
Qed.

Lemma nodup_get (m : string) (s : node) (es : entries) :
  NoDup (map fst es) -> In (m, s) es -> alist_get m es = Some s.
Proof.
  induction es as [|[k v] r IH]; simpl; intros Hnd Hin; [contradiction|].
  inversion Hnd as [|? ? Hk Hr]; subst.
  destruct Hin as [[= -> ->]|Hin].
  - now rewrite String.eqb_refl.
  - destruct (String.eqb m k) eqn:E; auto.
    apply String.eqb_eq in E. subst k. exfalso. apply Hk.
    change m with (fst (m, s)). now apply in_map.
Qed.

Lemma height_entry (m : string) (s : node) (es : entries) :
  In (m, s) es -> height s < height (Dir es).
Proof.
  simpl. induction es as [|[k v] r IH]; simpl; intros Hin; [contradiction|].
  destruct Hin as [[= -> ->]|Hin]; [lia|].
  specialize (IH Hin). lia.
Qed.

Lemma wf_node_dir (es : entries) :
  wf_node (Dir es) = true ->
  Forall (fun n => plain n = true) (map fst es) /\ NoDup (map fst es)
  /\ forall m s, In (m, s) es -> wf_node s = true.
Proof.
  simpl. rewrite !andb_true_iff, forallb_forall, forallb_forall, nodupb_NoDup.
  intros [[Hp Hn] Hw]. repeat split; auto.
  - now apply Forall_forall.
  - intros m s Hin. exact (Hw (m, s) Hin).
Qed.

(** ** The merge refines to the overlay of trees *)

Lemma overlay_raise_OSError (s : node) (k : string) (o : option node) (e : exn) :
  fst (overlay s k o) = Raise e -> is_OSError e = true.
Proof.
  destruct s as [data|es]; simpl.
  - destruct o as [[old|c]|]; simpl; try discriminate.
    + destruct (writable old); simpl; [discriminate|]. now intros [= <-].
    + destruct (alist_get k c) as [[old|]|]; simpl; try discriminate.
      * destruct (writable old); simpl; [discriminate|]. now intros [= <-].
      * now intros [= <-].
  - destruct o as [[|c]|]; simpl.
    + now intros [= <-].
    + destruct (overlay_loop overlay es false c) as [[|] c']; simpl;
        [now intros [= <-]|discriminate].
    + destruct (overlay_loop overlay es false []) as [[|] c']; simpl;
        [now intros [= <-]|discriminate].
Qed.

Lemma copy2_refine (src dst : path) (n : string) (data : file) (t : node)
    (c : entries) :
  lookup (src ++ [n]) t = Some (File data) ->
  lookup dst t = Some (Dir c) ->
  disjointb src dst = true ->
  copy2_node (src ++ [n]) (dst ++ [n]) t =
  (fst (overlay (File data) n (alist_get n c)),
   graft dst (Dir (upd n (snd (overlay (File data) n (alist_get n c))) c)) t).
Proof.
  intros Hs Hd Hdis. unfold copy2_node, is_dir_at, exists_at, basename.
  rewrite (lookup_app dst [n]), Hd, Hs, last_last. simpl lookup.
  assert (forall x, path_eqb (src ++ [n]) (dst ++ x) = false) as Hne.
  { intros x. unfold path_eqb.
    destruct (list_eq_dec string_dec (src ++ [n]) (dst ++ x)) as [E|]; [|reflexivity].
    exfalso. revert E. apply disjointb_neq. now apply disjointb_app. }
  destruct (alist_get n c) as [[d0|c2]|] eqn:E; simpl.
  - rewrite Hne. simpl.
    rewrite (write_node_zoom dst [n] data t _ Hd).
    destruct (writable d0) eqn:Ew.
    + erewrite alter_graft; [reflexivity|eassumption|].
      simpl. now rewrite E, Ew.
    + erewrite alter_err; [|eassumption|simpl; now rewrite E, Ew].
      simpl. rewrite (alist_set_get_id _ _ _ E).
      now rewrite (graft_id dst t _ Hd).
  - rewrite <- app_assoc, Hne. simpl.
    rewrite (write_node_zoom dst _ data t _ Hd).
    destruct (alist_get n c2) as [[d0|c3]|] eqn:E2; simpl.
    + destruct (writable d0) eqn:Ew.
      * erewrite alter_graft; [reflexivity|eassumption|].
        simpl. now rewrite E, E2, Ew.
      * erewrite alter_err; [|eassumption|simpl; now rewrite E, E2, Ew].
        simpl. rewrite (alist_set_get_id _ _ _ E).
        now rewrite (graft_id dst t _ Hd).
    + erewrite alter_err; [|eassumption|simpl; now rewrite E, E2].
      rewrite (alist_set_get_id _ _ _ E).
      now rewrite (graft_id dst t _ Hd).
    + erewrite alter_graft; [reflexivity|eassumption|].
      simpl. now rewrite E, E2.
  - rewrite Hne. simpl.
    rewrite (write_node_zoom dst [n] data t _ Hd).
    erewrite alter_graft; [reflexivity|eassumption|].
    simpl. now rewrite E.
Qed.

(** The loop of [copytree], given that the recursive call refines. *)
Lemma copy_entries_refine
    (copytree : path -> path -> node -> result unit * node)
    (src dst : path) (l : entries) :
  disjointb src dst = true ->
  (forall m s t c, In (m, s) l -> is_dir_node s = true ->
     lookup (src ++ [m]) t = Some s -> lookup dst t = Some (Dir c) ->
     copytree (src ++ [m]) (dst ++ [m]) t =
     (fst (overlay s m (alist_get m c)),
      graft dst (Dir (upd m (snd (overlay s m (alist_get m c))) c)) t)) ->
  forall (errors : bool) (t : node) (c : entries),
    (forall m s, In (m, s) l -> lookup (src ++ [m]) t = Some s) ->
    lookup dst t = Some (Dir c) ->
    copy_entries copytree src dst l errors t =
    (Ok (fst (overlay_loop overlay l errors c)),
     graft dst (Dir (snd (overlay_loop overlay l errors c))) t).
Proof.
  intros Hdis. induction l as [|[m s] rest IH]; intros Hrec errors t c Hsrc Hdst.
  - simpl. now rewrite (graft_id dst t _ Hdst).
  - assert (lookup (src ++ [m]) t = Some s) as Hm by (apply Hsrc; now left).
    assert ((if is_dir_node s
             then copytree (src ++ [m]) (dst ++ [m]) t
             else copy2_node (src ++ [m]) (dst ++ [m]) t) =
            (fst (overlay s m (alist_get m c)),
             graft dst (Dir (upd m (snd (overlay s m (alist_get m c))) c)) t)) as Hstep.
    { destruct s as [data|es]; simpl is_dir_node; cbv iota.
      - apply copy2_refine; assumption.
      - apply Hrec; auto. left; reflexivity. }
    simpl copy_entries. rewrite Hstep. clear Hstep.
    simpl overlay_loop.
    pose proof (overlay_raise_OSError s m (alist_get m c)) as Hos.
    destruct (overlay s m (alist_get m c)) as [r v]. simpl fst in *. simpl snd in *.
    set (t' := graft dst (Dir (upd m v c)) t).
    assert (lookup dst t' = Some (Dir (upd m v c))) as Hdst'
      by (eapply graft_lookup; eassumption).
    assert (forall m' s', In (m', s') rest -> lookup (src ++ [m']) t' = Some s') as Hsrc'.
    { intros m' s' Hin. unfold t'. rewrite (lookup_graft_other dst m v c t); auto.
      - apply Hsrc. now right.
      - apply disjointb_app. now rewrite disjointb_sym. }
    assert (forall e, copy_entries copytree src dst rest e t' =
              (Ok (fst (overlay_loop overlay rest e (upd m v c))),
               graft dst (Dir (snd (overlay_loop overlay rest e (upd m v c)))) t)) as Hrest.
    { intros e. rewrite (IH (fun m0 s0 t0 c0 Hin => Hrec m0 s0 t0 c0 (or_intror Hin))
                           e t' _ Hsrc' Hdst').
      unfold t'. now rewrite (graft_graft dst _ _ t _ Hdst). }
    destruct r as [[]|e]; simpl is_raise.
    + rewrite orb_false_r. apply Hrest.
    + rewrite (Hos e eq_refl), orb_true_r. apply Hrest.
Qed.

Lemma copytree_refine (limit : nat) :
  forall (s : node) (src dst : path) (n : string) (t : node) (c : entries),
    height s <= limit -> wf_node s = true -> is_dir_node s = true ->
    lookup (src ++ [n]) t = Some s ->
    lookup dst t = Some (Dir c) ->
    disjointb src dst = true ->
    copytree_node limit (src ++ [n]) (dst ++ [n]) t =
    (fst (overlay s n (alist_get n c)),
     graft dst (Dir (upd n (snd (overlay s n (alist_get n c))) c)) t).
Proof.
  induction limit as [|limit IH]; intros s src dst n t c Hh Hwf Hdir Hs Hd Hdis.
  - destruct s; [discriminate|]. simpl in Hh. lia.
  - destruct s as [|es]; [discriminate|].
    destruct (wf_node_dir es Hwf) as [_ [Hnd Hwfe]].
    simpl copytree_node. rewrite Hs.
    rewrite (makedirs_node_zoom dst [n] t _ Hd).
    assert (forall c0 t1,
      alist_get n (alist_set n (Dir c0) c) = Some (Dir c0) ->
      t1 = graft dst (Dir (alist_set n (Dir c0) c)) t ->
      match copy_entries (copytree_node limit) (src ++ [n]) (dst ++ [n]) es false t1 with
      | (Ok false, t2) => (Ok tt, t2)
      | (Ok true, t2) => (Raise ShutilError, t2)
      | (Raise e, t2) => (Raise e, t2)
      end =
      (let (errors, c') := overlay_loop overlay es false c0 in
       (if errors then Raise ShutilError else Ok tt,
        graft dst (Dir (alist_set n (Dir c') c)) t))) as Hloop.
    { intros c0 t1 Hget ->.
      set (c1 := alist_set n (Dir c0) c) in *.
      set (t1 := graft dst (Dir c1) t).
      assert (lookup dst t1 = Some (Dir c1)) as Hd1 by (eapply graft_lookup; eassumption).
      assert (lookup (dst ++ [n]) t1 = Some (Dir c0)) as Hdn.
      { rewrite lookup_app, Hd1. simpl. now rewrite Hget. }
      assert (forall q, disjointb (dst ++ [n]) q = true -> lookup q t1 = lookup q t) as Hfr.
      { intros q Hq. unfold t1, c1.
        exact (lookup_graft_other dst n (Some (Dir c0)) c t q Hd Hq). }
      rewrite (copy_entries_refine (copytree_node limit) (src ++ [n]) (dst ++ [n]) es)
        with (c := c0); auto.
      - destruct (overlay_loop overlay es false c0) as [errors c'] eqn:El. simpl.
        rewrite (graft_nest dst n (Dir c') t1 c1 (Dir c0) Hd1 Hget).
        unfold t1. rewrite (graft_graft dst _ _ t _ Hd).
        unfold c1. rewrite alist_set_set.
        destruct errors; reflexivity.
      - now apply disjointb_app.
      - intros m s0 t0 cc Hin Hdir0 Hl0 Hc0.
        apply IH; auto.
        + pose proof (height_entry m s0 es Hin). lia.
        + eapply Hwfe; eassumption.
        + now apply disjointb_app.
      - intros m s0 Hin. rewrite Hfr.
        + rewrite lookup_app, Hs. simpl. now rewrite (nodup_get m s0 es Hnd Hin).
        + rewrite <- app_assoc. apply disjointb_app. now rewrite disjointb_sym. }
    simpl overlay.
    destruct (alist_get n c) as [[d0|c0]|] eqn:E.
    + erewrite alter_err; [|eassumption|simpl; now rewrite E].
      simpl. rewrite (alist_set_get_id _ _ _ E).
      now rewrite (graft_id dst t _ Hd).
    + erewrite alter_graft; [|eassumption|simpl; rewrite E; reflexivity].
      rewrite (alist_set_get_id _ _ _ E), (graft_id dst t _ Hd).
      rewrite (Hloop c0 t).
      * destruct (overlay_loop overlay es false c0) as [errors c']. reflexivity.
      * apply alist_get_set_same.
      * rewrite (alist_set_get_id _ _ _ E). now rewrite (graft_id dst t _ Hd).
    + erewrite alter_graft; [|eassumption|simpl; rewrite E; reflexivity].
      rewrite (Hloop [] _ (alist_get_set_same _ _ _) eq_refl).
      destruct (overlay_loop overlay es false []) as [errors c']. reflexivity.
Qed.

(** ** Path strings with plain components *)

Lemma split_slash_no_slash (s : string) :
  no_slash s = true -> split_slash s = [s].
Proof.
  induction s as [|c r IH]; simpl; [reflexivity|].
  destruct (Ascii.eqb c SLASH); simpl; [discriminate|].
  intros H. now rewrite (IH H).
Qed.

Lemma components_plain (s : string) : plain s = true -> components s = [s].
Proof.
  unfold plain, components. rewrite !andb_true_iff.
  intros [[[Hn Hs] _] _]. rewrite (split_slash_no_slash s Hs). simpl.
  now rewrite Hn.
Qed.

Lemma plain_not_absolute (s : string) : plain s = true -> is_absolute s = false.
Proof.
  unfold plain. rewrite !andb_true_iff. intros [[[_ Hs] _] _].
  destruct s as [|c r]; simpl in *; [reflexivity|].
  destruct (Ascii.eqb c SLASH); [discriminate|reflexivity].
Qed.

Lemma os_path_join_plain (a : pypath) (s : string) :
  plain s = true -> os_path_join a s = a ++ [s].
Proof.
  intros H. unfold os_path_join.
  now rewrite (plain_not_absolute s H), (components_plain s H).
Qed.

Lemma join_all_plain (a : pypath) (l : list string) :
  Forall (fun s => plain s = true) l -> join_all a l = a ++ l.
Proof.
  unfold join_all. revert a. induction l as [|s l IH]; intros a H; simpl.
  - now rewrite app_nil_r.
  - inversion H as [|? ? Hs Hl]; subst.
    rewrite (os_path_join_plain a s Hs), (IH _ Hl), <- app_assoc. reflexivity.
Qed.

Lemma resolve_from_plain (t : node) (pp : pypath) :
  Forall (fun s => plain s = true) pp ->
  forall acc, resolve_from t acc pp = Some (acc ++ pp).
Proof.
  induction 1 as [|c r Hc Hr IH]; intros acc; simpl.
  - now rewrite app_nil_r.
  - unfold plain in Hc. rewrite !andb_true_iff, !negb_true_iff in Hc.
    destruct Hc as [[[Hn _] Hdot] Hdd].
    destruct c as [|a c']; [discriminate|].
    rewrite Hdot, Hdd. simpl. rewrite IH, <- app_assoc. reflexivity.
Qed.

Lemma resolve_plain (t : node) (pp : pypath) :
  Forall (fun s => plain s = true) pp -> resolve t pp = Some pp.
Proof.
  intros H. unfold resolve. now rewrite (resolve_from_plain t pp H).
Qed.

Lemma plain_app (p : pypath) (s : string) :
  Forall (fun s => plain s = true) p -> plain s = true ->
  Forall (fun s => plain s = true) (p ++ [s]).
Proof.
  intros Hp Hs. apply Forall_app. split; [assumption|]. now constructor.
Qed.

(** ** [os.makedirs] *)

Lemma lookup_mkchain (p : path) : lookup p (mkchain p) = Some (Dir []).
Proof.
  induction p as [|k p IH]; simpl; [reflexivity|].
  now rewrite String.eqb_refl.
Qed.

Lemma lookup_mkchain_disjoint (p q : path) :
  disjointb p q = true -> lookup q (mkchain p) = None.
Proof.
  revert q. induction p as [|a p IH]; intros [|b q]; simpl; try discriminate.
  rewrite (String.eqb_sym b a).
  destruct (String.eqb a b); auto.
Qed.

Lemma makedirs_lookup (p : path) (t t1 : node) :
  makedirs_node p t = inr t1 -> exists c, lookup p t1 = Some (Dir c).
Proof.
  revert t t1. induction p as [|k p IH]; intros t t1; destruct t as [d|es]; simpl;
    try discriminate.
  - intros [= <-]. eauto.
  - destruct (alist_get k es) as [x|] eqn:E.
    + destruct (makedirs_node p x) as [e|x'] eqn:Ex; [discriminate|].
      intros [= <-]. simpl. rewrite alist_get_set_same. eauto.
    + intros [= <-]. simpl. rewrite alist_get_set_same, lookup_mkchain. eauto.
Qed.

Lemma makedirs_existing (p : path) (t : node) (c : entries) :
  lookup p t = Some (Dir c) -> makedirs_node p t = inr t.
Proof.
  intros H. rewrite <- (app_nil_r p).
  rewrite (makedirs_node_zoom p [] t _ H).
  eapply alter_id; [eassumption|reflexivity].
Qed.

Lemma makedirs_frame (p q : path) (t t1 : node) :
  makedirs_node p t = inr t1 -> disjointb p q = true ->
  lookup q t1 = lookup q t.
Proof.
  revert q t t1. induction p as [|k p IH]; intros q t t1; destruct t as [d|es];
    simpl; try discriminate.
  destruct q as [|b q]; [discriminate|].
  destruct (alist_get k es) as [x|] eqn:E.
  - destruct (makedirs_node p x) as [e|x'] eqn:Ex; [discriminate|].
    intros [= <-] Hd. simpl. destruct (String.eqb k b) eqn:Ekb.
    + apply String.eqb_eq in Ekb. subst b.
      rewrite alist_get_set_same, E. eapply IH; eassumption.
    + apply String.eqb_neq in Ekb. rewrite alist_get_set_other; auto.
  - intros [= <-] Hd. simpl. destruct (String.eqb k b) eqn:Ekb.
    + apply String.eqb_eq in Ekb. subst b.
      rewrite alist_get_set_same, E. now apply lookup_mkchain_disjoint.
    + apply String.eqb_neq in Ekb. rewrite alist_get_set_other; auto.
Qed.

Lemma makedirs_idem (p : path) (t t1 : node) :
  makedirs_node p t = inr t1 -> makedirs_node p t1 = inr t1.
Proof.
  intros H. destruct (makedirs_lookup p t t1 H) as [c Hc].
  eapply makedirs_existing; eassumption.
Qed.

Lemma lookup_graft_disjoint (p q : path) (n : node) (t c : node) :
  lookup p t = Some c -> disjointb p q = true ->
  lookup q (graft p n t) = lookup q t.
Proof.
  revert q t. induction p as [|k p IH]; intros q t; [discriminate 2|].
  simpl. destruct t as [|es]; [discriminate|].
  destruct (alist_get k es) as [x|] eqn:E; [|discriminate].
  intros Hl Hd. rewrite (graft_cons k p n es x c E Hl).
  destruct q as [|b q]; [discriminate|]. simpl in Hd. simpl.
  destruct (String.eqb k b) eqn:Ekb.
  - apply String.eqb_eq in Ekb. subst b.
    rewrite alist_get_set_same, E. now apply IH.
  - apply String.eqb_neq in Ekb. rewrite alist_get_set_other; auto.
Qed.

(** ** Steps of the monad *)

Lemma bind_ok {A B : Type} (m : M A) (k : A -> M B) (w w' : world) (a : A) :
  m w = (Ok a, w') -> bind m k w = k a w'.
Proof. intros H. unfold bind. now rewrite H. Qed.

Lemma bind_raise {A B : Type} (m : M A) (k : A -> M B) (w w' : world) (e : exn) :
  m w = (Raise e, w') -> bind m k w = (Raise e, w').
Proof. intros H. unfold bind. now rewrite H. Qed.

Lemma with_fs_id (w : world) : with_fs (fs w) w = w.
Proof. now destruct w. Qed.

Lemma with_fs_with_fs (t t' : node) (w : world) :
  with_fs t (with_fs t' w) = with_fs t w.
Proof. reflexivity. Qed.

Lemma os_path_exists_plain (pp : pypath) (w : world) :
  Forall (fun s => plain s = true) pp ->
  os_path_exists pp w = (Ok (exists_at pp (fs w)), w).
Proof. intros H. unfold os_path_exists. now rewrite (resolve_plain _ _ H). Qed.

Lemma os_path_isdir_plain (pp : pypath) (w : world) :
  Forall (fun s => plain s = true) pp ->
  os_path_isdir pp w = (Ok (is_dir_at pp (fs w)), w).
Proof. intros H. unfold os_path_isdir. now rewrite (resolve_plain _ _ H). Qed.

Lemma os_path_isfile_plain (pp : pypath) (w : world) :
  Forall (fun s => plain s = true) pp ->
  os_path_isfile pp w = (Ok (is_file_at pp (fs w)), w).
Proof. intros H. unfold os_path_isfile. now rewrite (resolve_plain _ _ H). Qed.

Lemma os_makedirs_plain (pp : pypath) (w : world) (t1 : node) :
  Forall (fun s => plain s = true) pp ->
  makedirs_node pp (fs w) = inr t1 ->
  os_makedirs pp w = (Ok tt, with_fs t1 w).
Proof.
  intros H Hm. unfold os_makedirs, fs_step.
  now rewrite (resolve_plain _ _ H), Hm.
Qed.

Lemma os_makedirs_plain_err (pp : pypath) (w : world) (e : exn) :
  Forall (fun s => plain s = true) pp ->
  makedirs_node pp (fs w) = inl e ->
  os_makedirs pp w = (Raise e, w).
Proof.
  intros H Hm. unfold os_makedirs, fs_step.
  now rewrite (resolve_plain _ _ H), Hm.
Qed.

Lemma os_listdir_plain (pp : pypath) (w : world) (es : entries) :
  Forall (fun s => plain s = true) pp ->
  lookup pp (fs w) = Some (Dir es) ->
  os_listdir pp w = (Ok (map fst es), w).
Proof.
  intros H Hl. unfold os_listdir.
  now rewrite (resolve_plain _ _ H), Hl.
Qed.

(** ** [copy_directory_contents] refines to [overlay_all] *)

Lemma cdc_loop_refine (limit : nat) (src dest : pypath) (l : entries) :
  Forall (fun s => plain s = true) src ->
  Forall (fun s => plain s = true) dest ->
  disjointb src dest = true ->
  forall (w : world) (d : entries),
    (forall m s, In (m, s) l ->
       lookup (src ++ [m]) (fs w) = Some s /\ wf_node s = true
       /\ height s <= limit /\ plain m = true) ->
    lookup dest (fs w) = Some (Dir d) ->
    for_each (map fst l) (fun item =>
      isd <- os_path_isdir (os_path_join src item) ;;
      if (isd : bool)
      then shutil_copytree limit (os_path_join src item) (os_path_join dest item)
      else shutil_copy2 (os_path_join src item) (os_path_join dest item)) w =
    (fst (overlay_all l d),
     with_fs (graft dest (Dir (snd (overlay_all l d))) (fs w)) w).
Proof.
  intros Hps Hpd Hdis. induction l as [|[m s] rest IH]; intros w d Hl Hd.
  - simpl. unfold ret. rewrite (graft_id dest (fs w) _ Hd).
    destruct w; reflexivity.
  - destruct (Hl m s (or_introl eq_refl)) as [Hm [Hwf [Hh Hpm]]].
    simpl map. simpl for_each. unfold bind at 1. unfold bind at 1.
    rewrite !(os_path_join_plain _ m Hpm).
    unfold os_path_isdir at 1.
    rewrite (resolve_plain (fs w) (src ++ [m]) (plain_app src m Hps Hpm)).
    unfold is_dir_at. rewrite Hm.
    assert ((if is_dir_node s
             then shutil_copytree limit (src ++ [m]) (dest ++ [m])
             else shutil_copy2 (src ++ [m]) (dest ++ [m])) w =
            (fst (overlay s m (alist_get m d)),
             with_fs (graft dest (Dir (upd m (snd (overlay s m (alist_get m d))) d))
                        (fs w)) w)) as Hstep.
    { destruct s as [data|es]; cbn [is_dir_node];
        unfold shutil_copytree, shutil_copy2;
        rewrite (resolve_plain (fs w) (src ++ [m]) (plain_app src m Hps Hpm));
        rewrite (resolve_plain (fs w) (dest ++ [m]) (plain_app dest m Hpd Hpm)).
      - now rewrite (copy2_refine src dest m data (fs w) d Hm Hd Hdis).
      - now rewrite (copytree_refine limit (Dir es) src dest m (fs w) d
                       Hh Hwf eq_refl Hm Hd Hdis). }
    replace (match s with Dir _ => true | File _ => false end) with (is_dir_node s)
      by reflexivity.
    rewrite Hstep. clear Hstep. simpl overlay_all.
    destruct (overlay s m (alist_get m d)) as [r v]. simpl fst. simpl snd.
    destruct r as [[]|e]; [|reflexivity].
    set (w' := with_fs (graft dest (Dir (upd m v d)) (fs w)) w).
    rewrite (IH w' (upd m v d)).
    + unfold w'. simpl fs. rewrite (graft_graft dest _ _ (fs w) _ Hd). reflexivity.
    + intros m' s' Hin. destruct (Hl m' s' (or_intror Hin)) as [Hm' Hrest].
      split; [|assumption]. unfold w'. simpl fs.
      rewrite (lookup_graft_other dest m v d (fs w)); auto.
      apply disjointb_app. now rewrite disjointb_sym.
    + unfold w'. simpl fs. eapply graft_lookup; eassumption.
Qed.

Lemma cdc_refine (limit : nat) (src dest : pypath) (w : world)
    (es d : entries) (t1 : node) :
  Forall (fun s => plain s = true) src ->
  Forall (fun s => plain s = true) dest ->
  disjointb src dest = true ->
  lookup src (fs w) = Some (Dir es) ->
  wf_node (Dir es) = true ->
  height (Dir es) <= S limit ->
  makedirs_node dest (fs w) = inr t1 ->
  lookup dest t1 = Some (Dir d) ->
  copy_directory_contents limit src dest w =
  (fst (overlay_all es d),
   with_fs (graft dest (Dir (snd (overlay_all es d))) t1) w).
Proof.
  intros Hps Hpd Hdis Hs Hwf Hh Hmk Hd.
  destruct (wf_node_dir es Hwf) as [Hpl [Hnd Hwfe]].
  assert (lookup src t1 = Some (Dir es)) as Hs1.
  { rewrite (makedirs_frame dest src (fs w) t1 Hmk); auto.
    now rewrite disjointb_sym. }
  unfold copy_directory_contents.
  rewrite (bind_ok _ _ w w true)
    by (rewrite (os_path_exists_plain src w Hps); unfold exists_at; now rewrite Hs).
  cbn [negb].
  rewrite (bind_ok _ _ w _ tt (os_makedirs_plain dest w t1 Hpd Hmk)).
  rewrite (bind_ok _ _ _ _ _ (os_listdir_plain src (with_fs t1 w) es Hps Hs1)).
  cbv zeta.
  rewrite (cdc_loop_refine limit src dest es Hps Hpd Hdis (with_fs t1 w) d).
  - reflexivity.
  - intros m s Hin. simpl fs. repeat split.
    + rewrite lookup_app, Hs1. simpl. now rewrite (nodup_get m s es Hnd Hin).
    + eapply Hwfe; eassumption.
    + pose proof (height_entry m s es Hin). lia.
    + rewrite Forall_forall in Hpl. apply Hpl.
      change m with (fst (m, s)). now apply in_map.
  - exact Hd.
Qed.

(** ** The overlay of trees is idempotent *)

Lemma overlay_loop_flag f (l : entries) (e : bool) (c : entries) :
  overlay_loop f l e c =
  (e || fst (overlay_loop f l false c), snd (overlay_loop f l false c)).
Proof.
  revert e c. induction l as [|[m s] rest IH]; intros e c; simpl.
  - now rewrite orb_false_r.
  - destruct (f s m (alist_get m c)) as [r v].
    rewrite (IH (e || is_raise r)), (IH (false || is_raise r)). simpl.
    now rewrite orb_assoc.
Qed.

Lemma overlay_loop_get_other f (l : entries) (e : bool) (c : entries) (m : string) :
  ~ In m (map fst l) ->
  alist_get m (snd (overlay_loop f l e c)) = alist_get m c.
Proof.
  revert e c. induction l as [|[k s] rest IH]; intros e c Hn; simpl; [reflexivity|].
  simpl in Hn. destruct (f s k (alist_get k c)) as [r v].
  rewrite IH by tauto. apply alist_get_upd_other. intros ->. tauto.
Qed.

Lemma overlay_snd_none (s : node) (k : string) (o : option node) :
  snd (overlay s k o) = None -> o = None.
Proof.
  destruct s as [data|es]; simpl.
  - destruct o as [[old|c]|]; simpl; try discriminate; auto.
    + destruct (writable old); simpl; discriminate.
    + destruct (alist_get k c) as [[old|]|]; simpl; try discriminate.
      destruct (writable old); simpl; discriminate.
  - destruct o as [[|c]|]; simpl; try discriminate; auto;
      destruct (overlay_loop overlay es false _); simpl; discriminate.
Qed.

Lemma overlay_upd_get (s : node) (k : string) (c : entries) :
  alist_get k (upd k (snd (overlay s k (alist_get k c))) c) =
  snd (overlay s k (alist_get k c)).
Proof.
  rewrite alist_get_upd_same.
  destruct (snd (overlay s k (alist_get k c))) eqn:E; [reflexivity|].
  now apply overlay_snd_none in E.
Qed.

Lemma upd_get_id (k : string) (v : option node) (c : entries) :
  alist_get k c = v -> upd k v c = c.
Proof.
  destruct v; simpl; intros H; [now apply alist_set_get_id|reflexivity].
Qed.

Lemma overlay_loop_idem (l : entries) :
  NoDup (map fst l) ->
  Forall (fun e => forall k o,
            overlay (snd e) k (snd (overlay (snd e) k o)) = overlay (snd e) k o) l ->
  forall c c2,
    (forall m, In m (map fst l) ->
       alist_get m c2 = alist_get m (snd (overlay_loop overlay l false c))) ->
    overlay_loop overlay l false c2 = (fst (overlay_loop overlay l false c), c2).
Proof.
  induction l as [|[m s] rest IH]; intros Hnd Hid c c2 Hc2; [reflexivity|].
  inversion Hnd as [|? ? Hm Hrest]; subst.
  inversion Hid as [|? ? Hs Hidr]; subst. simpl in Hs.
  simpl overlay_loop in *.
  destruct (overlay s m (alist_get m c)) as [r v] eqn:E.
  assert (alist_get m c2 = v) as Hv.
  { rewrite (Hc2 m) by (now left).
    rewrite overlay_loop_get_other by assumption.
    pose proof (overlay_upd_get s m c) as H. now rewrite E in H. }
  rewrite Hv.
  assert (overlay s m v = (r, v)) as E2.
  { pose proof (Hs m (alist_get m c)) as H. now rewrite E in H. }
  rewrite E2, (upd_get_id m v c2 Hv).
  rewrite (overlay_loop_flag overlay rest (is_raise r) c2).
  rewrite (overlay_loop_flag overlay rest (is_raise r) (upd m v c)).
  rewrite (IH Hrest Hidr (upd m v c) c2).
  - reflexivity.
  - intros m' Hin. rewrite (Hc2 m') by (now right).
    now rewrite (overlay_loop_flag overlay rest (is_raise r)).
Qed.

Lemma all_writable_dir (es : entries) :
  all_writable (Dir es) = true ->
  forall m s, In (m, s) es -> all_writable s = true.
Proof.
  simpl. rewrite forallb_forall. intros H m s Hin. exact (H (m, s) Hin).
Qed.

Lemma all_writable_lookup (p : path) (t s : node) :
  all_writable t = true -> lookup p t = Some s -> all_writable s = true.
Proof.
  revert t. induction p as [|k p IH]; intros t Hw; simpl.
  - now intros [= <-].
  - destruct t as [|es]; [discriminate|].
    destruct (alist_get k es) as [x|] eqn:E; [|discriminate].
    apply IH. eapply all_writable_dir; [exact Hw|]. eapply alist_get_in; eassumption.
Qed.

(** Laying a tree a second time over what the first time left changes
    nothing, provided the tree has no read-only file: such a file, once
    copied, refuses the second copy. *)
Lemma overlay_idem (s : node) :
  wf_node s = true -> all_writable s = true ->
  forall k o, overlay s k (snd (overlay s k o)) = overlay s k o.
Proof.
  induction s as [data|es IH] using node_induction; intros Hwf Hw k o.
  - simpl in Hw. simpl. destruct o as [[d0|c]|]; simpl.
    + destruct (writable d0) eqn:E0; simpl; [now rewrite Hw|now rewrite E0].
    + destruct (alist_get k c) as [[d1|c3]|] eqn:E; simpl.
      * destruct (writable d1) eqn:E1; simpl.
        -- now rewrite alist_get_set_same, Hw, alist_set_set.
        -- now rewrite E, E1.
      * now rewrite E.
      * now rewrite alist_get_set_same, Hw, alist_set_set.
    + now rewrite Hw.
  - destruct (wf_node_dir es Hwf) as [_ [Hnd Hwfe]].
    assert (Forall (fun e => forall k o,
              overlay (snd e) k (snd (overlay (snd e) k o)) = overlay (snd e) k o) es)
      as Hall.
    { rewrite Forall_forall in *. intros [m s] Hin. simpl.
      apply (IH (m, s) Hin).
      - eapply Hwfe; eassumption.
      - eapply all_writable_dir; eassumption. }
    assert (forall c0,
      overlay (Dir es) k
        (snd (let (errors, c') := overlay_loop overlay es false c0 in
              (if errors then Raise ShutilError else Ok tt, Some (Dir c')))) =
      (let (errors, c') := overlay_loop overlay es false c0 in
       (if errors then Raise ShutilError else Ok tt, Some (Dir c')))) as Hgo.
    { intros c0.
      pose proof (overlay_loop_idem es Hnd Hall c0
                    (snd (overlay_loop overlay es false c0)) (fun _ _ => eq_refl)) as H.
      destruct (overlay_loop overlay es false c0) as [errors c'] eqn:E. simpl in *.
      now rewrite H. }
    simpl overlay at 2 3. destruct o as [[d0|c]|].
    + reflexivity.
    + apply Hgo.
    + apply Hgo.
Qed.

Lemma overlay_all_get_other (l : entries) (d : entries) (m : string) :
  ~ In m (map fst l) ->
  alist_get m (snd (overlay_all l d)) = alist_get m d.
Proof.
  revert d. induction l as [|[k s] rest IH]; intros d Hn; simpl; [reflexivity|].
  simpl in Hn. destruct (overlay s k (alist_get k d)) as [[[]|e] v]; simpl.
  - rewrite IH by tauto. apply alist_get_upd_other. intros ->. tauto.
  - apply alist_get_upd_other. intros ->. tauto.
Qed.

Lemma overlay_all_idem (l : entries) :
  NoDup (map fst l) ->
  (forall m s, In (m, s) l -> wf_node s = true) ->
  (forall m s, In (m, s) l -> all_writable s = true) ->
  forall d d2,
    (forall m, In m (map fst l) ->
       alist_get m d2 = alist_get m (snd (overlay_all l d))) ->
    overlay_all l d2 = (fst (overlay_all l d), d2).
Proof.
  induction l as [|[m s] rest IH]; intros Hnd Hwf Hwr d d2 Hd2; [reflexivity|].
  inversion Hnd as [|? ? Hm Hrest]; subst.
  simpl overlay_all in *.
  destruct (overlay s m (alist_get m d)) as [r v] eqn:E.
  assert (alist_get m (upd m v d) = v) as Hget.
  { pose proof (overlay_upd_get s m d) as H. now rewrite E in H. }
  assert (alist_get m d2 = v) as Hv.
  { rewrite (Hd2 m) by (now left). destruct r as [[]|e]; simpl.
    - now rewrite overlay_all_get_other.
    - assumption. }
  assert (overlay s m v = (r, v)) as E2.
  { pose proof (overlay_idem s (Hwf m s (or_introl eq_refl))
                  (Hwr m s (or_introl eq_refl)) m (alist_get m d)) as H.
    now rewrite E in H. }
  rewrite Hv, E2, (upd_get_id m v d2 Hv).
  destruct r as [[]|e]; [|reflexivity].
  apply IH; auto.
  - intros m' s' Hin. apply (Hwf m' s'). now right.
  - intros m' s' Hin. apply (Hwr m' s'). now right.
  - intros m' Hin. apply Hd2. now right.
Qed.

(** ** Subtrees of a well-formed tree *)

Lemma wf_lookup (p : path) (t s : node) :
  wf_node t = true -> lookup p t = Some s -> wf_node s = true.
Proof.
  revert t. induction p as [|k p IH]; intros t Hwf; simpl.
  - now intros [= <-].
  - destruct t as [|es]; [discriminate|].
    destruct (alist_get k es) as [x|] eqn:E; [|discriminate].
    apply IH. destruct (wf_node_dir es Hwf) as [_ [_ Hw]].
    eapply Hw. eapply alist_get_in; eassumption.
Qed.

Lemma height_lookup (p : path) (t s : node) :
  lookup p t = Some s -> height s <= height t.
Proof.
  revert t. induction p as [|k p IH]; intros t; simpl.
  - intros [= <-]. lia.
  - destruct t as [|es]; [discriminate|].
    destruct (alist_get k es) as [x|] eqn:E; [|discriminate].
    intros Hl. specialize (IH _ Hl).
    pose proof (height_entry k x es (alist_get_in _ _ _ E)). lia.
Qed.

(** ** C3: the merge applied twice *)


(** C3 fails as well when the source holds a read-only file, even away
    from the destination: the first merge copies the file with its mode,
    and the second merge is refused the write to the copy. *)
Lemma merge_twice_read_only_differs :
  let w := world_of (Dir [("mod", Dir [("f", read_only "x")]); ("out", Dir [])]) in
  let once := copy_directory_contents 5 ["mod"] ["out"] w in
  let twice := copy_directory_contents 5 ["mod"] ["out"] (snd once) in
  fst once = Ok tt /\ fst twice = Raise PermissionError.
Proof. vm_compute. split; reflexivity. Qed.



(** ** C4: the merge removes nothing *)

Lemma preserved_refl (t : node) : preserved t t.
Proof. intros p n H. eauto. Qed.

Lemma preserved_trans (t1 t2 t3 : node) :
  preserved t1 t2 -> preserved t2 t3 -> preserved t1 t3.
Proof.
  intros H12 H23 p n H. destruct (H12 p n H) as [n2 [H2 K2]].
  destruct (H23 p n2 H2) as [n3 [H3 K3]]. exists n3. split; congruence.
Qed.

Lemma preserved_set_child (k : string) (es : entries) (c c' : node) :
  alist_get k es = Some c -> preserved c c' ->
  preserved (Dir es) (Dir (alist_set k c' es)).
Proof.
  intros E Hc [|b q] n; simpl.
  - intros [= <-]. eauto.
  - destruct (String.eqb b k) eqn:Ebk.
    + apply String.eqb_eq in Ebk. subst b. rewrite E, alist_get_set_same.
      apply Hc.
    + apply String.eqb_neq in Ebk. rewrite alist_get_set_other by assumption.
      destruct (alist_get b es); [|discriminate]. eauto.
Qed.

Lemma preserved_set_new (k : string) (es : entries) (x : node) :
  alist_get k es = None -> preserved (Dir es) (Dir (alist_set k x es)).
Proof.
  intros E [|b q] n; simpl.
  - intros [= <-]. eauto.
  - destruct (String.eqb b k) eqn:Ebk.
    + apply String.eqb_eq in Ebk. subst b. rewrite E. discriminate.
    + apply String.eqb_neq in Ebk. rewrite alist_get_set_other by assumption.
      destruct (alist_get b es); [|discriminate]. eauto.
Qed.

Lemma preserved_file (d d' : file) : preserved (File d) (File d').
Proof.
  intros [|b q] n; simpl; [|discriminate]. intros [= <-]. eauto.
Qed.

Lemma write_node_preserved (p : path) (data : file) (t t' : node) :
  write_node p data t = inr t' -> preserved t t'.
Proof.
  revert t t'. induction p as [|k p IH]; intros [d|es] t'; simpl; try discriminate.
  - destruct (writable d); [|discriminate]. intros [= <-]. apply preserved_file.
  - destruct (alist_get k es) as [c|] eqn:E.
    + destruct (write_node p data c) as [e|c'] eqn:Ew; [discriminate|].
      intros [= <-]. eapply preserved_set_child; eauto.
    + destruct p; [|discriminate]. intros [= <-]. now apply preserved_set_new.
Qed.

Lemma makedirs_node_preserved (p : path) (t t' : node) :
  makedirs_node p t = inr t' -> preserved t t'.
Proof.
  revert t t'. induction p as [|k p IH]; intros [d|es] t'; simpl; try discriminate.
  - intros [= <-]. apply preserved_refl.
  - destruct (alist_get k es) as [c|] eqn:E.
    + destruct (makedirs_node p c) as [e|c'] eqn:Ew; [discriminate|].
      intros [= <-]. eapply preserved_set_child; eauto.
    + intros [= <-]. now apply preserved_set_new.
Qed.

Lemma copy2_node_preserved (src dst : path) (t : node) :
  preserved t (snd (copy2_node src dst t)).
Proof.
  unfold copy2_node.
  destruct (path_eqb src _ && exists_at src t); [apply preserved_refl|].
  destruct (lookup src t) as [[data|es]|]; try apply preserved_refl.
  destruct (write_node _ data t) as [e|t'] eqn:Ew; [apply preserved_refl|].
  simpl. eapply write_node_preserved; eassumption.
Qed.

Lemma copy_entries_preserved
    (copytree : path -> path -> node -> result unit * node)
    (src dst : path) (l : entries) :
  (forall s d t, preserved t (snd (copytree s d t))) ->
  forall errors t, preserved t (snd (copy_entries copytree src dst l errors t)).
Proof.
  intros Hrec. induction l as [|[m c] rest IH]; intros errors t; simpl.
  - apply preserved_refl.
  - assert (preserved t (snd (if is_dir_node c
                               then copytree (src ++ [m]) (dst ++ [m]) t
                               else copy2_node (src ++ [m]) (dst ++ [m]) t))) as Hstep.
    { destruct (is_dir_node c); [apply Hrec|apply copy2_node_preserved]. }
    destruct (if is_dir_node c then _ else _) as [r t']. simpl in Hstep.
    destruct r as [[]|e].
    + eapply preserved_trans; [exact Hstep|apply IH].
    + destruct (is_OSError e).
      * eapply preserved_trans; [exact Hstep|apply IH].
      * exact Hstep.
Qed.

Lemma copytree_node_preserved (limit : nat) (src dst : path) (t : node) :
  preserved t (snd (copytree_node limit src dst t)).
Proof.
  revert src dst t. induction limit as [|limit IH]; intros src dst t; simpl.
  - apply preserved_refl.
  - destruct (lookup src t) as [[d|es]|]; try apply preserved_refl.
    destruct (makedirs_node dst t) as [e|t1] eqn:Hmk; [apply preserved_refl|].
    pose proof (copy_entries_preserved (copytree_node limit) src dst es IH false t1) as H.
    destruct (copy_entries (copytree_node limit) src dst es false t1) as [[[|]|e] t2];
      simpl in *; (eapply preserved_trans; [eapply makedirs_node_preserved; eassumption|exact H]).
Qed.

Lemma keeps_bind {A B : Type} (m : M A) (k : A -> M B) :
  keeps m -> (forall a, keeps (k a)) -> keeps (bind m k).
Proof.
  intros Hm Hk w. unfold bind. specialize (Hm w).
  destruct (m w) as [[a|e] w']; simpl in *.
  - eapply preserved_trans; [exact Hm|apply Hk].
  - exact Hm.
Qed.

Lemma keeps_ret {A : Type} (a : A) : keeps (ret a).
Proof. intros w. apply preserved_refl. Qed.

Lemma keeps_for_each {A : Type} (l : list A) (body : A -> M unit) :
  (forall a, keeps (body a)) -> keeps (for_each l body).
Proof.
  intros Hb. induction l as [|x r IH]; simpl.
  - apply keeps_ret.
  - apply keeps_bind; auto.
Qed.

Lemma keeps_os_path_exists (pp : pypath) : keeps (os_path_exists pp).
Proof. intros w. apply preserved_refl. Qed.

Lemma keeps_os_path_isdir (pp : pypath) : keeps (os_path_isdir pp).
Proof. intros w. apply preserved_refl. Qed.

Lemma keeps_os_listdir (pp : pypath) : keeps (os_listdir pp).
Proof.
  intros w. unfold os_listdir.
  destruct (resolve (fs w) pp) as [p|]; [|apply preserved_refl].
  destruct (lookup p (fs w)) as [[d|es]|]; apply preserved_refl.
Qed.

Lemma keeps_os_makedirs (pp : pypath) : keeps (os_makedirs pp).
Proof.
  intros w. unfold os_makedirs, fs_step.
  destruct (resolve (fs w) pp) as [p|]; [|apply preserved_refl].
  destruct (makedirs_node p (fs w)) as [e|t'] eqn:E; [apply preserved_refl|].
  simpl. eapply makedirs_node_preserved; eassumption.
Qed.

Lemma keeps_shutil_copytree (limit : nat) (s d : pypath) :
  keeps (shutil_copytree limit s d).
Proof.
  intros w. unfold shutil_copytree.
  destruct (resolve (fs w) s) as [p|]; [|apply preserved_refl].
  destruct (resolve (fs w) d) as [q|]; [|apply preserved_refl].
  pose proof (copytree_node_preserved limit p q (fs w)) as H.
  destruct (copytree_node limit p q (fs w)). exact H.
Qed.

Lemma keeps_shutil_copy2 (s d : pypath) : keeps (shutil_copy2 s d).
Proof.
  intros w. unfold shutil_copy2.
  destruct (resolve (fs w) s) as [p|]; [|apply preserved_refl].
  destruct (resolve (fs w) d) as [q|]; [|apply preserved_refl].
  pose proof (copy2_node_preserved p q (fs w)) as H.
  destruct (copy2_node p q (fs w)). exact H.
Qed.

(** C4: whatever the source and the destination, every entry that was
    there before [copy_directory_contents] is there after it, a directory
    as a directory and a file as a file; and unless the source exists, the
    call returns and leaves the world as it was. *)
Theorem merge_is_an_overlay (limit : nat) (src dest : pypath) (w : world) :
  preserved (fs w) (fs (snd (copy_directory_contents limit src dest w)))
  /\ (fst (os_path_exists src w) = Ok true
      \/ copy_directory_contents limit src dest w = (Ok tt, w)).
Proof.
  split.
  - revert w. change (keeps (copy_directory_contents limit src dest)).
    unfold copy_directory_contents.
    apply keeps_bind; [apply keeps_os_path_exists|]. intros found.
    destruct (negb found); [apply keeps_ret|].
    apply keeps_bind; [apply keeps_os_makedirs|]. intros _.
    apply keeps_bind; [apply keeps_os_listdir|]. intros items.
    apply keeps_for_each. intros item.
    apply keeps_bind; [apply keeps_os_path_isdir|]. intros isd.
    destruct isd; [apply keeps_shutil_copytree|apply keeps_shutil_copy2].
  - unfold copy_directory_contents, bind, os_path_exists. simpl.
    destruct (match resolve (fs w) src with
              | Some p => exists_at p (fs w)
              | None => false
              end); [now left|now right].
Qed.

(** ** C2: the repository sync *)

(** C2, as stated, fails when git cannot be started: the
    [FileNotFoundError] of [subprocess.run] is not a
    [CalledProcessError], and it reaches the caller. *)
Lemma sync_raises_without_git :
  let w := world_of (Dir [("home", Dir [("framework", Dir [])])]) in
  fst (update_pack_framework ["home"] no_program w) = Raise FileNotFoundError
  /\ fst (update_pack_framework ["home"] no_program (world_of (Dir [("home", Dir [])])))
     = Raise FileNotFoundError.
Proof. split; reflexivity. Qed.

(** C2, amended: every call starts exactly one of the two commands, the
    pull in the framework folder when that folder exists and the clone in
    the directory of the script otherwise, after announcing it.  When the
    command runs, the call returns normally whatever the exit status,
    leaves the file system the command left, and reports a status other
    than zero with one line; a [CalledProcessError] never reaches the
    caller.  When the command cannot be started (no such program, no
    permission to execute it, ...) or its working directory is not a
    directory, the error of the host is not caught: it is raised to the
    caller, and nothing is reported. *)
Theorem sync_runs_one_command (SCRIPT_DIR : pypath) (spawn : command) (w : world) :
  let framework_path := os_path_join SCRIPT_DIR "framework" in
  let r := update_pack_framework SCRIPT_DIR spawn w in
  let pulls :=
    match fst (os_path_exists framework_path w) with Ok true => true | _ => false end in
  let argv :=
    if pulls then ["git"; "pull"; "origin"]
    else ["git"; "clone"; "https://github.com/Den4enko/PackFramework"; "framework"] in
  let cwd := if pulls then framework_path else SCRIPT_DIR in
  let announce :=
    if pulls then "Found a PackFramework folder, trying to update..."
    else "PackFramework folder not found, cloning repository..." in
  let report :=
    if pulls then "Error updating PackFramework."
    else "Error cloning PackFramework repository." in
  spawned (snd r) = spawned w ++ [(argv, cwd)]
  /\ fst r <> Raise CalledProcessError
  /\ match resolve (fs w) cwd with
     | Some p =>
         match lookup p (fs w) with
         | Some (Dir _) =>
             match spawn argv p (fs w) with
             | Exited code t' =>
                 fst r = Ok tt
                 /\ fs (snd r) = t'
                 /\ stdout (snd r) =
                    stdout w ++ announce :: (if Nat.eqb code 0 then [] else [report])
             | NotStarted e =>
                 fst r = Raise (OSError_of e)
                 /\ fs (snd r) = fs w
                 /\ stdout (snd r) = stdout w ++ [announce]
             end
         | Some (File _) =>
             fst r = Raise NotADirectoryError
             /\ fs (snd r) = fs w
             /\ stdout (snd r) = stdout w ++ [announce]
         | None =>
             fst r = Raise FileNotFoundError
             /\ fs (snd r) = fs w
             /\ stdout (snd r) = stdout w ++ [announce]
         end
     | None =>
         fst r = Raise FileNotFoundError
         /\ fs (snd r) = fs w
         /\ stdout (snd r) = stdout w ++ [announce]
     end.
Proof.
  cbv zeta. unfold update_pack_framework, bind, os_path_exists. simpl.
  set (found := match resolve (fs w) (os_path_join SCRIPT_DIR "framework") with
                | Some p => exists_at p (fs w)
                | None => false
                end).
  destruct found; unfold try_except, subprocess_run, print; simpl.
  - destruct (resolve (fs w) (os_path_join SCRIPT_DIR "framework")) as [p|]; simpl;
      [|repeat split; auto; discriminate].
    destruct (lookup p (fs w)) as [[d|es]|]; simpl;
      try (repeat split; auto; discriminate).
    destruct (spawn _ p (fs w)) as [code t'|e]; simpl.
    + destruct (Nat.eqb code 0); simpl; repeat split; auto; try discriminate.
      now rewrite <- app_assoc.
    + destruct e; simpl; repeat split; auto; discriminate.
  - destruct (resolve (fs w) SCRIPT_DIR) as [p|]; simpl;
      [|repeat split; auto; discriminate].
    destruct (lookup p (fs w)) as [[d|es]|]; simpl;
      try (repeat split; auto; discriminate).
    destruct (spawn _ p (fs w)) as [code t'|e]; simpl.
    + destruct (Nat.eqb code 0); simpl; repeat split; auto; try discriminate.
      now rewrite <- app_assoc.
    + destruct e; simpl; repeat split; auto; discriminate.
Qed.

(** ** C1: a deletion that fails in the removal list *)

Lemma for_each_app {A : Type} (l1 l2 : list A) (body : A -> M unit) (w : world) :
  for_each (l1 ++ l2) body w =
  match for_each l1 body w with
  | (Ok _, w1) => for_each l2 body w1
  | (Raise e, w1) => (Raise e, w1)
  end.
Proof.
  revert w. induction l1 as [|x l1 IH]; intros w; simpl; [reflexivity|].
  unfold bind. destruct (body x w) as [[[]|e] w']; [apply IH|reflexivity].
Qed.

(** C1, as stated, fails: with the first listed file locked, the second
    one, which the host would delete, is left in place, and so is the
    list. *)
Lemma removal_failure_skips_the_rest :
  let out := ["out"] in
  let w :=
    mkWorld (Dir [("out", Dir [("filesToRemove.txt", regular "a
b
"); ("a", regular "1"); ("b", regular "2")])])
            [["out"; "a"]] [] [] in
  let r := build_remove out w in
  fst r = Ok tt
  /\ stdout (snd r) =
       ["Removing files from the list..."; "Error removing files: Permission denied"]
  /\ exists_at ["out"; "b"] (fs (snd r)) = true
  /\ exists_at ["out"; "filesToRemove.txt"] (fs (snd r)) = true
  /\ exists_at ["out"; "b"] (fs (snd (remove_listed out "b" (snd r)))) = false.
Proof. vm_compute. repeat split; reflexivity. Qed.

(** C1, amended: when the deletion of one listed entry raises, the
    failure is reported once and the processing of the list ends there:
    the entries after it are not attempted and the list file is not
    deleted; [build_remove] itself returns normally.  The world it leaves
    is the one of the failing deletion, with the report printed. *)
Theorem removal_failure_ends_the_list (output_path : pypath) (w : world)
    (content : string) (before : list string) (line : string) (after : list string)
    (w0 w1 w2 : world) (e : exn) :
  let files_to_remove_path := os_path_join output_path "filesToRemove.txt" in
  fst (os_path_isfile files_to_remove_path w) = Ok true ->
  print "Removing files from the list..." w = (Ok tt, w0) ->
  read_text files_to_remove_path w0 = (Ok content, w0) ->
  readlines content = before ++ line :: after ->
  for_each before (remove_listed output_path) w0 = (Ok tt, w1) ->
  remove_listed output_path line w1 = (Raise e, w2) ->
  build_remove output_path w =
  (Ok tt, snd (print ("Error removing files: " ++ exn_message e)%string w2)).
Proof.
  cbv zeta. intros Hisf Hprint Hread Hlines Hbefore Hline.
  unfold build_remove.
  assert (os_path_isfile (os_path_join output_path "filesToRemove.txt") w = (Ok true, w))
    as Hisf'.
  { unfold os_path_isfile in *. simpl in Hisf. now injection Hisf as ->. }
  rewrite (bind_ok _ _ _ _ _ Hisf').
  rewrite (bind_ok _ _ _ _ _ Hprint).
  unfold try_except.
  rewrite (bind_ok _ _ _ _ _ Hread). cbv zeta.
  assert (for_each (readlines content) (remove_listed output_path) w0 = (Raise e, w2))
    as Hloop.
  { rewrite Hlines, for_each_app, Hbefore. simpl. now apply bind_raise. }
  rewrite (bind_raise _ _ _ _ _ Hloop). reflexivity.
Qed.

Lemma removal_failure_ends_the_list_witness :
  let w :=
    mkWorld (Dir [("out", Dir [("filesToRemove.txt", regular "k
a
b
"); ("a", regular "1"); ("b", regular "2"); ("k", regular "3")])])
            [["out"; "a"]] [] [] in
  let w0 := snd (print "Removing files from the list..." w) in
  let w1 := snd (for_each ["k
"] (remove_listed ["out"]) w0) in
  let w2 := snd (remove_listed ["out"] "a
" w1) in
  build_remove ["out"] w =
  (Ok tt, snd (print "Error removing files: Permission denied" w2)).
Proof.
  intros w w0 w1 w2.
  apply (removal_failure_ends_the_list ["out"] w "k
a
b
" ["k
"] "a
" ["b
"] w0 w1 w2 PermissionError); vm_compute; reflexivity.
Defined.

(** ** Deleting *)

Lemma alist_get_del_same (k : string) (es : entries) :
  alist_get k (alist_del k es) = None.
Proof.
  induction es as [|[k' v] r IH]; simpl; [reflexivity|].
  destruct (String.eqb k k') eqn:E; [assumption|]. simpl. now rewrite E.
Qed.

Lemma alist_get_del_other (b k : string) (es : entries) :
  b <> k -> alist_get b (alist_del k es) = alist_get b es.
Proof.
  intros Hne. induction es as [|[k' v] r IH]; simpl; [reflexivity|].
  destruct (String.eqb k k') eqn:E; simpl.
  - apply String.eqb_eq in E. subst k'.
    destruct (String.eqb b k) eqn:E2; [|assumption].
    apply String.eqb_eq in E2. contradiction.
  - now rewrite IH.
Qed.

Lemma prune_ok (p : path) (t c : node) :
  lookup p t = Some c -> p <> [] -> exists t', prune p t = inr t'.
Proof.
  revert t. induction p as [|k p IH]; intros t Hl Hne; [contradiction|].
  simpl in *. destruct t as [|es]; [discriminate|].
  destruct (alist_get k es) as [x|] eqn:E; [|discriminate].
  destruct p as [|k' p']; [eauto|].
  destruct (IH x Hl) as [x' Hx]; [discriminate|]. rewrite Hx. eauto.
Qed.

Lemma prune_gone (p : path) (t t' : node) :
  prune p t = inr t' -> forall r, lookup (p ++ r) t' = None.
Proof.
  revert t t'. induction p as [|k p IH]; intros t t'; simpl; [discriminate|].
  destruct t as [|es]; [discriminate|].
  destruct (alist_get k es) as [x|] eqn:E; [|discriminate].
  destruct p as [|k' p'].
  - intros [= <-] r. simpl. now rewrite alist_get_del_same.
  - destruct (prune (k' :: p') x) as [e|x'] eqn:Ex; [discriminate|].
    intros [= <-] r. simpl lookup. rewrite alist_get_set_same.
    exact (IH x x' Ex r).
Qed.

Lemma prune_frame (p q : path) (t t' : node) :
  prune p t = inr t' -> disjointb p q = true -> lookup q t' = lookup q t.
Proof.
  revert q t t'. induction p as [|k p IH]; intros q t t'; simpl; [discriminate|].
  destruct t as [|es]; [discriminate|].
  destruct (alist_get k es) as [x|] eqn:E; [|discriminate].
  destruct q as [|b q]; [discriminate 2|].
  destruct (String.eqb k b) eqn:Ekb.
  - apply String.eqb_eq in Ekb. subst b. destruct p as [|k' p'].
    + discriminate 2.
    + destruct (prune (k' :: p') x) as [e|x'] eqn:Ex; [discriminate|].
      intros [= <-] Hd. simpl lookup. rewrite alist_get_set_same, E.
      exact (IH q x x' Ex Hd).
  - apply String.eqb_neq in Ekb. destruct p as [|k' p'].
    + intros [= <-] _. simpl. rewrite alist_get_del_other; auto.
    + destruct (prune (k' :: p') x) as [e|x'] eqn:Ex; [discriminate|].
      intros [= <-] _. simpl lookup. rewrite alist_get_set_other; auto.
Qed.

Lemma prune_shrinks (p q : path) (t t' : node) :
  prune p t = inr t' -> lookup q t = None -> lookup q t' = None.
Proof.
  revert q t t'. induction p as [|k p IH]; intros q t t'; simpl; [discriminate|].
  destruct t as [|es]; [discriminate|].
  destruct (alist_get k es) as [x|] eqn:E; [|discriminate].
  destruct q as [|b q]; [discriminate 2|].
  destruct (String.eqb b k) eqn:Ebk.
  - apply String.eqb_eq in Ebk. subst b. destruct p as [|k' p'].
    + intros [= <-] _. simpl. now rewrite alist_get_del_same.
    + destruct (prune (k' :: p') x) as [e|x'] eqn:Ex; [discriminate|].
      intros [= <-]. simpl lookup. rewrite alist_get_set_same, E.
      exact (IH q x x' Ex).
  - apply String.eqb_neq in Ebk. destruct p as [|k' p'].
    + intros [= <-]. simpl. rewrite alist_get_del_other; auto.
    + destruct (prune (k' :: p') x) as [e|x'] eqn:Ex; [discriminate|].
      intros [= <-]. simpl lookup. rewrite alist_get_set_other; auto.
Qed.

(** Without locks [shutil.rmtree] leaves nothing. *)
Lemma rm_node_unlocked (n : node) : forall here, rm_node [] here n = None.
Proof.
  induction n as [data|es IH] using node_induction; intros here; simpl; [reflexivity|].
  assert ((fix go (l : entries) : entries :=
             match l with
             | [] => []
             | (k, c) :: r =>
                 match rm_node [] (here ++ [k]) c with
                 | None => go r
                 | Some c' => (k, c') :: r
                 end
             end) es = []) as Hgo.
  { induction es as [|[k c] r IHr]; [reflexivity|].
    inversion IH as [|? ? Hc Hr]; subst. simpl in Hc.
    rewrite Hc. now apply IHr. }
  now rewrite Hgo.
Qed.

Lemma os_remove_unlocked (pp : pypath) (w : world) (data : file) :
  Forall (fun s => plain s = true) pp -> locked w = [] ->
  lookup pp (fs w) = Some (File data) -> pp <> [] ->
  exists t', prune pp (fs w) = inr t' /\ os_remove pp w = (Ok tt, with_fs t' w).
Proof.
  intros Hp Hl Hf Hne. destruct (prune_ok pp (fs w) _ Hf Hne) as [t' Ht].
  exists t'. split; [assumption|].
  unfold os_remove, fs_step. rewrite (resolve_plain _ _ Hp), Hf, Hl, Ht. reflexivity.
Qed.

Lemma shutil_rmtree_unlocked (pp : pypath) (w : world) (es : entries) :
  Forall (fun s => plain s = true) pp -> locked w = [] ->
  lookup pp (fs w) = Some (Dir es) -> pp <> [] ->
  exists t', prune pp (fs w) = inr t' /\ shutil_rmtree pp w = (Ok tt, with_fs t' w).
Proof.
  intros Hp Hl Hf Hne. destruct (prune_ok pp (fs w) _ Hf Hne) as [t' Ht].
  exists t'. split; [assumption|].
  unfold shutil_rmtree, fs_step.
  rewrite (resolve_plain _ _ Hp), Hf, Hl, (rm_node_unlocked (Dir es) pp), Ht.
  reflexivity.
Qed.

Lemma disjointb_prefix (p x y : path) :
  disjointb x y = true -> disjointb (p ++ x) (p ++ y) = true.
Proof.
  intros H. induction p as [|a p IH]; simpl; [assumption|].
  now rewrite String.eqb_refl.
Qed.

Lemma prune_parent (dp : path) (k : string) (t t' : node) (d : entries) :
  prune (dp ++ [k]) t = inr t' -> lookup dp t = Some (Dir d) ->
  lookup dp t' = Some (Dir (alist_del k d)).
Proof.
  revert t t'. induction dp as [|a dp IH]; intros t t'; simpl.
  - destruct t as [|es]; [discriminate|].
    destruct (alist_get k es); [|discriminate].
    now intros [= <-] [= <-].
  - destruct t as [|es]; [discriminate|].
    destruct (alist_get a es) as [x|] eqn:E; [|discriminate].
    destruct (dp ++ [k]) as [|k' p'] eqn:Edp; [now destruct dp|].
    destruct (prune (k' :: p') x) as [e|x'] eqn:Ex; [discriminate|].
    intros [= <-] Hl. simpl. rewrite alist_get_set_same.
    eapply IH; eassumption.
Qed.

Lemma lookup_child (dp : path) (k : string) (t : node) (d : entries) :
  lookup dp t = Some (Dir d) -> lookup (dp ++ [k]) t = alist_get k d.
Proof.
  intros H. rewrite lookup_app, H. simpl. now destruct (alist_get k d).
Qed.

(** Making a directory that is not there, in a directory that is. *)
Lemma makedirs_child (dp : path) (k : string) (t : node) (d : entries) :
  lookup dp t = Some (Dir d) -> alist_get k d = None ->
  makedirs_node (dp ++ [k]) t = inr (graft dp (Dir (alist_set k (Dir []) d)) t).
Proof.
  intros Hd Hk. rewrite (makedirs_node_zoom dp [k] t _ Hd).
  eapply alter_graft; [eassumption|]. simpl. now rewrite Hk.
Qed.

(** ** C10: promoting without a beta directory *)

(** C10: with no beta directory (and a release path that is not a regular
    file, nothing locked), [copy_beta_to_release] raises the
    [FileNotFoundError] of listing the beta directory to its caller, and
    by then the release directory has been removed and made again,
    empty. *)
Theorem promote_without_beta (SCRIPT_DIR : pypath) (limit : nat) (w : world) :
  Forall (fun s => plain s = true) SCRIPT_DIR ->
  locked w = [] ->
  is_dir_at SCRIPT_DIR (fs w) = true ->
  exists_at (SCRIPT_DIR ++ ["beta"]) (fs w) = false ->
  is_file_at (SCRIPT_DIR ++ ["release"]) (fs w) = false ->
  let r := copy_beta_to_release SCRIPT_DIR limit w in
  fst r = Raise FileNotFoundError
  /\ lookup (SCRIPT_DIR ++ ["release"]) (fs (snd r)) = Some (Dir []).
Proof.
  intros Hp Hlock Hsd Hbeta Hrel. cbv zeta.
  unfold copy_beta_to_release.
  rewrite (os_path_join_plain SCRIPT_DIR "beta" eq_refl).
  rewrite (os_path_join_plain SCRIPT_DIR "release" eq_refl).
  set (beta := SCRIPT_DIR ++ ["beta"]) in *.
  set (release := SCRIPT_DIR ++ ["release"]) in *.
  assert (Forall (fun s => plain s = true) release) as Hpr
    by (apply plain_app; auto).
  assert (Forall (fun s => plain s = true) beta) as Hpb
    by (apply plain_app; auto).
  assert (release <> []) as Hne by (unfold release; now destruct SCRIPT_DIR).
  unfold is_dir_at in Hsd.
  destruct (lookup SCRIPT_DIR (fs w)) as [[|d]|] eqn:Hd; try discriminate.
  unfold exists_at in Hbeta.
  destruct (lookup beta (fs w)) eqn:Hb; [discriminate|].
  (* the world after the old release tree is removed *)
  assert (exists t1 d1,
    (forall k : M unit,
       (found <- os_path_exists release ;;
        (if (found : bool) then shutil_rmtree release else ret tt) ;; k) w
       = k (with_fs t1 w))
    /\ lookup SCRIPT_DIR t1 = Some (Dir d1)
    /\ lookup release t1 = None
    /\ lookup beta t1 = None) as [t1 [d1 [Hstep [Hd1 [Hr1 Hb1]]]]].
  { unfold is_file_at in Hrel.
    destruct (lookup release (fs w)) as [[|es]|] eqn:Hr; try discriminate.
    - destruct (shutil_rmtree_unlocked release w es Hpr Hlock Hr Hne) as [t1 [Hpr1 Hrm]].
      exists t1, (alist_del "release" d). repeat split.
      + intros k. rewrite (bind_ok _ _ w w true)
          by (rewrite (os_path_exists_plain release w Hpr); unfold exists_at; now rewrite Hr).
        now rewrite (bind_ok _ _ _ _ _ Hrm).
      + eapply prune_parent; eassumption.
      + rewrite <- (app_nil_r release). eapply prune_gone; eassumption.
      + eapply prune_shrinks; eassumption.
    - exists (fs w), d. repeat split; auto.
      intros k. rewrite (bind_ok _ _ w w false)
        by (rewrite (os_path_exists_plain release w Hpr); unfold exists_at; now rewrite Hr).
      rewrite with_fs_id. reflexivity. }
  assert (alist_get "release" d1 = None) as Hk
    by (rewrite <- (lookup_child SCRIPT_DIR "release" t1 d1 Hd1); exact Hr1).
  set (t2 := graft SCRIPT_DIR (Dir (alist_set "release" (Dir []) d1)) t1).
  assert (lookup release t2 = Some (Dir [])) as Hr2.
  { unfold release, t2. rewrite (lookup_child SCRIPT_DIR "release" _ (alist_set "release" (Dir []) d1)).
    - apply alist_get_set_same.
    - eapply graft_lookup; eassumption. }
  assert (lookup beta t2 = None) as Hb2.
  { unfold t2. change (alist_set "release" (Dir []) d1)
      with (upd "release" (Some (Dir [])) d1).
    rewrite (lookup_graft_other SCRIPT_DIR "release" (Some (Dir [])) d1 t1 beta Hd1);
      [assumption|]. now apply disjointb_prefix. }
  rewrite Hstep.
  rewrite (bind_ok _ _ (with_fs t1 w) (with_fs t2 w) tt).
  - rewrite (bind_raise _ _ (with_fs t2 w) (with_fs t2 w) FileNotFoundError).
    + split; [reflexivity|exact Hr2].
    + unfold os_listdir. simpl fs. now rewrite (resolve_plain t2 beta Hpb), Hb2.
  - rewrite (os_makedirs_plain release (with_fs t1 w) t2 Hpr); [reflexivity|].
    simpl fs. unfold release, t2. now apply makedirs_child.
Qed.

Lemma promote_without_beta_witness :
  let w :=
    world_of (Dir [("home", Dir [("release", Dir [("old.txt", regular "stale")]);
                                 ("config.json", regular "{}")])]) in
  let r := copy_beta_to_release ["home"] 8 w in
  fst r = Raise FileNotFoundError
  /\ lookup (["home"] ++ ["release"]) (fs (snd r)) = Some (Dir []).
Proof.
  intros w.
  apply (promote_without_beta ["home"] 8 w); try reflexivity.
  repeat constructor.
Defined.

(** ** Texts in plain ASCII *)

Lemma all_bytes_app (P : ascii -> bool) (a b : string) :
  all_bytes P (a ++ b) = all_bytes P a && all_bytes P b.
Proof.
  induction a as [|c a IH]; simpl; [reflexivity|].
  now rewrite IH, andb_assoc.
Qed.

Lemma all_bytes_impl (P Q : ascii -> bool) (s : string) :
  (forall c, P c = true -> Q c = true) ->
  all_bytes P s = true -> all_bytes Q s = true.
Proof.
  intros H. induction s as [|c r IH]; simpl; [reflexivity|].
  rewrite !andb_true_iff. intros [Hc Hr]. auto.
Qed.

Lemma utf8_valid_ascii (s : string) :
  all_bytes (byte_in 0 127) s = true -> utf8_valid s = true.
Proof.
  induction s as [|c r IH]; simpl; [reflexivity|].
  rewrite andb_true_iff. intros [Hc Hr]. now rewrite Hc, IH.
Qed.

Lemma universal_newlines_no_CR (s : string) :
  has_CR s = false -> universal_newlines s = s.
Proof.
  induction s as [|c r IH]; simpl; [reflexivity|].
  destruct (Ascii.eqb c CR); simpl; [discriminate|].
  intros H. now rewrite IH.
Qed.

Lemma has_CR_all_bytes (s : string) :
  all_bytes (fun c => negb (Ascii.eqb c CR)) s = true -> has_CR s = false.
Proof.
  induction s as [|c r IH]; simpl; [reflexivity|].
  rewrite andb_true_iff, negb_true_iff. intros [-> Hr]. now apply IH.
Qed.

Lemma byte_in_sub (lo hi lo' hi' : nat) (c : ascii) :
  lo' <= lo -> hi <= hi' -> byte_in lo hi c = true -> byte_in lo' hi' c = true.
Proof.
  unfold byte_in. rewrite !andb_true_iff, !Nat.leb_le. lia.
Qed.

Lemma byte_in_not (lo hi : nat) (c x : ascii) :
  nat_of_ascii x < lo \/ hi < nat_of_ascii x ->
  byte_in lo hi c = true -> Ascii.eqb c x = false.
Proof.
  unfold byte_in. rewrite andb_true_iff, !Nat.leb_le. intros Hx [H1 H2].
  apply Ascii.eqb_neq. intros ->. lia.
Qed.

Lemma visible_valid (s : string) : visible s = true -> utf8_valid s = true.
Proof.
  intros H. apply utf8_valid_ascii. revert H. apply all_bytes_impl.
  intros c. apply byte_in_sub; lia.
Qed.

Lemma visible_no_CR (s : string) : visible s = true -> has_CR s = false.
Proof.
  intros H. apply has_CR_all_bytes. revert H. apply all_bytes_impl.
  intros c Hc. apply negb_true_iff. revert Hc. apply byte_in_not.
  left. vm_compute. lia.
Qed.

(** White space begins with a byte that is not visible. *)
Lemma lstrip_visible (c : ascii) (r : string) :
  byte_in 33 126 c = true -> lstrip (String c r) = String c r.
Proof.
  intros Hc. unfold byte_in in Hc. rewrite andb_true_iff, !Nat.leb_le in Hc.
  assert (space1 c = false) as H1.
  { unfold space1, byte_in. rewrite orb_false_iff, !andb_false_iff, !Nat.leb_gt. lia. }
  assert (forall n, 127 <= n -> byte_is n c = false) as Hn.
  { intros n Hle. unfold byte_is. apply Nat.eqb_neq. lia. }
  cbn [lstrip]. rewrite H1.
  destruct r as [|b r2]; [reflexivity|].
  unfold space2. rewrite (Hn 194) by lia. cbn [andb].
  destruct r2 as [|d r3]; [reflexivity|].
  unfold space3. rewrite (Hn 225), (Hn 226), (Hn 227) by lia. reflexivity.
Qed.

Lemma rstrip_visible_line (a : string) :
  visible a = true -> rstrip (a ++ String LF "") = a.
Proof.
  induction a as [|c a IH]; [reflexivity|].
  cbn [visible all_bytes]. rewrite andb_true_iff. intros [Hc Ha].
  change (String c a ++ String LF "")%string with (String c (a ++ String LF "")).
  cbn [rstrip]. rewrite (lstrip_visible c _ Hc). cbn [String.eqb].
  now rewrite (IH Ha).
Qed.

Lemma strip_visible_line (a : string) :
  visible a = true -> strip (a ++ String LF "") = a.
Proof.
  intros Ha. unfold strip. rewrite (rstrip_visible_line a Ha).
  destruct a as [|c r]; [reflexivity|].
  cbn [visible all_bytes] in Ha. apply andb_true_iff in Ha.
  now apply lstrip_visible.
Qed.

Lemma readlines_line (a rest : string) :
  visible a = true ->
  readlines (a ++ String LF rest) = (a ++ String LF "")%string :: readlines rest.
Proof.
  induction a as [|c a IH]; intros Ha.
  - reflexivity.
  - cbn [visible all_bytes] in Ha. apply andb_true_iff in Ha. destruct Ha as [Hc Ha].
    change (String c a ++ String LF rest)%string with (String c (a ++ String LF rest)).
    cbn [readlines].
    rewrite (byte_in_not 33 126 c LF) by (auto; left; vm_compute; lia).
    now rewrite (IH Ha).
Qed.

(** ** Path strings of plain names *)

Lemma split_slash_line (q : path) :
  q <> [] -> Forall (fun n => plain n = true) q ->
  split_slash (listed q) = q.
Proof.
  intros Hne Hq. induction Hq as [|n r Hn Hr IH]; [contradiction|].
  assert (no_slash n = true) as Hs.
  { unfold plain in Hn. rewrite !andb_true_iff in Hn. tauto. }
  destruct r as [|n' r'].
  - simpl. now apply split_slash_no_slash.
  - change (listed (n :: n' :: r')) with (n ++ "/" ++ listed (n' :: r'))%string.
    assert (forall x, split_slash (n ++ "/" ++ x) = n :: split_slash x) as Hgo.
    { intros x. clear - Hs. induction n as [|c n IHn]; simpl in *.
      - reflexivity.
      - apply andb_true_iff in Hs. destruct Hs as [Hc Hs].
        apply negb_true_iff in Hc. rewrite Hc, (IHn Hs). reflexivity. }
    rewrite Hgo, IH; [reflexivity|discriminate].
Qed.

Lemma components_line (q : path) :
  q <> [] -> Forall (fun n => plain n = true) q ->
  components (listed q) = q.
Proof.
  intros Hne Hq. unfold components. rewrite (split_slash_line q Hne Hq).
  assert (Forall (fun n => nonempty n = true) q) as Hn.
  { revert Hq. apply Forall_impl. intros n. unfold plain.
    rewrite !andb_true_iff. tauto. }
  assert (filter nonempty q = q) as ->.
  { clear - Hn. induction Hn as [|n r Hn Hr IH]; simpl; [reflexivity|].
    now rewrite Hn, IH. }
  assert (nonempty (last q "") = true) as ->.
  { destruct (exists_last Hne) as [q' [n ->]]. rewrite last_last.
    apply Forall_app in Hn. destruct Hn as [_ Hn]. now inversion Hn. }
  apply app_nil_r.
Qed.

Lemma listed_head (q : path) :
  q <> [] -> Forall (fun n => plain n = true) q ->
  exists c r, listed q = String c r /\ Ascii.eqb c SLASH = false.
Proof.
  intros Hne Hq. destruct Hq as [|n r Hn Hr]; [contradiction|].
  unfold plain in Hn. rewrite !andb_true_iff in Hn.
  destruct Hn as [[[Hn Hs] _] _].
  destruct n as [|c n']; [discriminate|].
  simpl in Hs. apply andb_true_iff in Hs. destruct Hs as [Hc _].
  apply negb_true_iff in Hc.
  destruct r as [|n2 r2].
  - exists c, n'. now split.
  - exists c, (n' ++ "/" ++ listed (n2 :: r2))%string. now split.
Qed.

Lemma visible_listed (q : path) :
  forallb visible q = true -> visible (listed q) = true.
Proof.
  induction q as [|n r IH]; [reflexivity|].
  cbn [forallb]. rewrite andb_true_iff. intros [Hn Hr].
  destruct r as [|n' r']; [exact Hn|].
  change (listed (n :: n' :: r')) with (n ++ "/" ++ listed (n' :: r'))%string.
  unfold visible in *. rewrite !all_bytes_app, Hn, (IH Hr). reflexivity.
Qed.

(** ** C8: the removal list *)

Lemma path_eqb_false (p q : path) : path_eqb p q = false -> p <> q.
Proof.
  unfold path_eqb. destruct (list_eq_dec string_dec p q); [discriminate|auto].
Qed.

Lemma listable_spec (q : path) :
  listable q = true ->
  q <> [] /\ Forall (fun n => plain n = true) q /\ forallb visible q = true
  /\ q <> ["filesToRemove.txt"].
Proof.
  unfold listable. rewrite !andb_true_iff, !negb_true_iff.
  intros [[[Hn Hp] Hv] Hl]. repeat split; auto using path_eqb_false.
  apply Forall_forall. now apply forallb_forall.
Qed.

(** One line of the list, spelling the relative path [q], with nothing
    locked: what it names is gone, nothing appears, and what lies beside
    it stays. *)
Lemma remove_listed_plain (out : pypath) (q : path) (w : world) :
  Forall (fun s => plain s = true) out ->
  locked w = [] ->
  listable q = true ->
  exists t',
    remove_listed out (listed q ++ String LF "") w = (Ok tt, with_fs t' w)
    /\ lookup (out ++ q) t' = None
    /\ (forall p, lookup p (fs w) = None -> lookup p t' = None)
    /\ (forall p, disjointb (out ++ q) p = true -> lookup p t' = lookup p (fs w))
    /\ (lookup (out ++ q) (fs w) = None -> t' = fs w).
Proof.
  intros Hpo Hlock Hq.
  destruct (listable_spec q Hq) as [Hne [Hpq [Hv _]]].
  destruct (listed_head q Hne Hpq) as [c [r [Hhead Hc]]].
  unfold remove_listed.
  rewrite (strip_visible_line (listed q) (visible_listed q Hv)).
  replace (nonempty (listed q)) with true by (now rewrite Hhead).
  cbv zeta. unfold os_path_join.
  replace (is_absolute (listed q)) with false
    by (rewrite Hhead; simpl; now rewrite Hc).
  rewrite (components_line q Hne Hpq).
  set (target := out ++ q).
  assert (Forall (fun s => plain s = true) target) as Hpt
    by (apply Forall_app; split; assumption).
  assert (target <> []) as Htne.
  { unfold target. intros H. apply app_eq_nil in H. tauto. }
  rewrite (bind_ok _ _ _ _ _ (os_path_isfile_plain target w Hpt)).
  unfold is_file_at.
  destruct (lookup target (fs w)) as [[data|es]|] eqn:Ht.
  - destruct (os_remove_unlocked target w data Hpt Hlock Ht Htne) as [t' [Hpr Hrm]].
    exists t'. repeat split.
    + exact Hrm.
    + rewrite <- (app_nil_r target). eapply prune_gone; eassumption.
    + intros p. eapply prune_shrinks; eassumption.
    + intros p. eapply prune_frame; eassumption.
    + discriminate.
  - rewrite (bind_ok _ _ _ _ _ (os_path_isdir_plain target w Hpt)).
    unfold is_dir_at. rewrite Ht.
    destruct (shutil_rmtree_unlocked target w es Hpt Hlock Ht Htne) as [t' [Hpr Hrm]].
    exists t'. repeat split.
    + exact Hrm.
    + rewrite <- (app_nil_r target). eapply prune_gone; eassumption.
    + intros p. eapply prune_shrinks; eassumption.
    + intros p. eapply prune_frame; eassumption.
    + discriminate.
  - rewrite (bind_ok _ _ _ _ _ (os_path_isdir_plain target w Hpt)).
    unfold is_dir_at. rewrite Ht.
    exists (fs w). unfold ret. rewrite with_fs_id. repeat split; auto.
Qed.

(** What exists and is named by a line other than the list does not
    touch the list file. *)
Lemma listed_beside_the_list (out : path) (q : path) (t : node) (data : file) (x : node) :
  lookup (out ++ ["filesToRemove.txt"]) t = Some (File data) ->
  lookup (out ++ q) t = Some x ->
  q <> [] -> q <> ["filesToRemove.txt"] ->
  disjointb (out ++ q) (out ++ ["filesToRemove.txt"]) = true.
Proof.
  intros Hlf Hq Hne Hnl. apply disjointb_prefix.
  destruct q as [|b q']; [contradiction|]. simpl.
  destruct (String.eqb b "filesToRemove.txt") eqn:E; [|reflexivity].
  apply String.eqb_eq in E. subst b.
  destruct q' as [|c q'']; [contradiction|]. exfalso.
  change (out ++ "filesToRemove.txt" :: c :: q'')
    with (out ++ ["filesToRemove.txt"] ++ c :: q'') in Hq.
  rewrite app_assoc, lookup_app, Hlf in Hq. discriminate.
Qed.

Lemma readlines_removal_list (names : list path) :
  forallb listable names = true ->
  readlines (removal_list names) = map (fun q => (listed q ++ String LF "")%string) names.
Proof.
  induction names as [|q rest IH]; [reflexivity|].
  cbn [forallb]. rewrite andb_true_iff. intros [Hq Hrest].
  destruct (listable_spec q Hq) as [_ [_ [Hv _]]].
  cbn [removal_list map].
  rewrite (readlines_line (listed q) _ (visible_listed q Hv)).
  now rewrite (IH Hrest).
Qed.

Lemma tame_removal_list (names : list path) :
  forallb listable names = true ->
  all_bytes (fun c => byte_in 33 126 c || Ascii.eqb c LF) (removal_list names) = true.
Proof.
  induction names as [|q rest IH]; [reflexivity|].
  cbn [forallb]. rewrite andb_true_iff. intros [Hq Hrest].
  destruct (listable_spec q Hq) as [_ [_ [Hv _]]].
  cbn [removal_list]. rewrite all_bytes_app. apply andb_true_iff. split.
  - generalize (visible_listed q Hv). apply all_bytes_impl.
    intros c ->. reflexivity.
  - cbn [all_bytes]. rewrite Ascii.eqb_refl, orb_true_r. cbn [andb]. now apply IH.
Qed.

Lemma read_removal_list (names : list path) :
  forallb listable names = true ->
  utf8_valid (removal_list names) = true
  /\ universal_newlines (removal_list names) = removal_list names.
Proof.
  intros H. pose proof (tame_removal_list names H) as Ht. split.
  - apply utf8_valid_ascii. revert Ht. apply all_bytes_impl.
    intros c Hc. apply orb_true_iff in Hc. destruct Hc as [Hc|Hc].
    + revert Hc. apply byte_in_sub; lia.
    + apply Ascii.eqb_eq in Hc. now subst c.
  - apply universal_newlines_no_CR, has_CR_all_bytes. revert Ht. apply all_bytes_impl.
    intros c Hc. apply negb_true_iff. apply orb_true_iff in Hc. destruct Hc as [Hc|Hc].
    + revert Hc. apply byte_in_not. left. vm_compute. lia.
    + apply Ascii.eqb_eq in Hc. now subst c.
Qed.

Lemma remove_loop_plain (out : pypath) (data : file) (names : list path) :
  Forall (fun s => plain s = true) out ->
  forall w,
    locked w = [] ->
    lookup (out ++ ["filesToRemove.txt"]) (fs w) = Some (File data) ->
    forallb listable names = true ->
    exists t',
      for_each (map (fun q => (listed q ++ String LF "")%string) names)
        (remove_listed out) w = (Ok tt, with_fs t' w)
      /\ lookup (out ++ ["filesToRemove.txt"]) t' = Some (File data)
      /\ (forall q, In q names -> lookup (out ++ q) t' = None)
      /\ (forall p, lookup p (fs w) = None -> lookup p t' = None)
      /\ (forall p, (forall q, In q names -> disjointb (out ++ q) p = true) ->
            lookup p t' = lookup p (fs w)).
Proof.
  intros Hpo. induction names as [|q rest IH]; intros w Hlock Hlf Hsafe.
  - exists (fs w). simpl. unfold ret. rewrite with_fs_id. repeat split; auto.
    intros q [].
  - cbn [forallb] in Hsafe. apply andb_true_iff in Hsafe. destruct Hsafe as [Hq Hrest].
    destruct (remove_listed_plain out q w Hpo Hlock Hq)
      as [t1 [Hrun [Hgone [Hshr [Hfr Hnop]]]]].
    assert (lookup (out ++ ["filesToRemove.txt"]) t1 = Some (File data)) as Hlf1.
    { destruct (lookup (out ++ q) (fs w)) as [x|] eqn:Hx.
      - rewrite Hfr; [assumption|].
        destruct (listable_spec q Hq) as [Hne [_ [_ Hl]]].
        eapply listed_beside_the_list; eassumption.
      - now rewrite (Hnop eq_refl). }
    destruct (IH (with_fs t1 w) Hlock Hlf1 Hrest)
      as [t2 [Hrun2 [Hlf2 [Hgone2 [Hshr2 Hfr2]]]]].
    exists t2. repeat split.
    + cbn [map for_each]. rewrite (bind_ok _ _ _ _ _ Hrun). exact Hrun2.
    + exact Hlf2.
    + intros q' [<-|Hin].
      * apply Hshr2. exact Hgone.
      * auto.
    + intros p Hp. apply Hshr2. simpl fs. auto.
    + intros p Hp. rewrite Hfr2 by (intros q' Hin; apply Hp; now right).
      simpl fs. apply Hfr. apply Hp. now left.
Qed.

(** C8: with nothing locked and a removal list that names relative paths
    line by line (plain names spelt in visible ASCII, none of the paths
    the list itself), the removal step returns normally and reports no
    error, whether or not the named entries exist; afterwards none of the
    named paths exists, file or directory, the removal list does not
    exist either, and what lies beside the named paths and the list is as
    it was. *)
Theorem removal_list_processed (output_path : pypath) (w : world)
    (names : list path) (data : file) :
  Forall (fun s => plain s = true) output_path ->
  locked w = [] ->
  lookup (output_path ++ ["filesToRemove.txt"]) (fs w) = Some (File data) ->
  content data = removal_list names ->
  forallb listable names = true ->
  let r := build_remove output_path w in
  fst r = Ok tt
  /\ stdout (snd r) = stdout w ++ ["Removing files from the list..."]
  /\ (forall q, In q names -> exists_at (output_path ++ q) (fs (snd r)) = false)
  /\ exists_at (output_path ++ ["filesToRemove.txt"]) (fs (snd r)) = false
  /\ (forall p, (forall q, In q names -> disjointb (output_path ++ q) p = true) ->
        disjointb (output_path ++ ["filesToRemove.txt"]) p = true ->
        lookup p (fs (snd r)) = lookup p (fs w)).
Proof.
  intros Hpo Hlock Hlf Hcontent Hsafe. cbv zeta.
  unfold build_remove.
  rewrite (os_path_join_plain output_path "filesToRemove.txt" eq_refl).
  set (lf := output_path ++ ["filesToRemove.txt"]) in *.
  assert (Forall (fun s => plain s = true) lf) as Hpl by (apply plain_app; auto).
  assert (lf <> []) as Hne by (unfold lf; now destruct output_path).
  rewrite (bind_ok _ _ w w true)
    by (rewrite (os_path_isfile_plain lf w Hpl); unfold is_file_at; now rewrite Hlf).
  set (w0 := mkWorld (fs w) (locked w) (spawned w)
               (stdout w ++ ["Removing files from the list..."])).
  rewrite (bind_ok _ _ w w0 tt) by reflexivity.
  destruct (remove_loop_plain output_path data names Hpo w0 Hlock Hlf Hsafe)
    as [t1 [Hrun [Hlf1 [Hgone [Hshr Hfr]]]]].
  destruct (os_remove_unlocked lf (with_fs t1 w0) data Hpl Hlock Hlf1 Hne)
    as [t2 [Hpr Hrm]].
  simpl fs in Hpr.
  destruct (read_removal_list names Hsafe) as [Hvalid Hnl].
  assert ((content0 <- read_text lf ;;
           for_each (readlines content0) (remove_listed output_path) ;;
           os_remove lf) w0 = (Ok tt, with_fs t2 w0)) as Hbody.
  { rewrite (bind_ok _ _ w0 w0 (removal_list names)).
    - rewrite (readlines_removal_list names Hsafe).
      rewrite (bind_ok _ _ _ _ _ Hrun). exact Hrm.
    - unfold read_text, read_node. simpl fs.
      now rewrite (resolve_plain (fs w) lf Hpl), Hlf, Hcontent, Hvalid, Hnl. }
  unfold try_except. rewrite Hbody. simpl. repeat split.
  - intros q Hin. unfold exists_at.
    now rewrite (prune_shrinks lf _ t1 t2 Hpr (Hgone q Hin)).
  - unfold exists_at. rewrite <- (app_nil_r lf).
    now rewrite (prune_gone lf t1 t2 Hpr []).
  - intros p Hp Hl. rewrite (prune_frame lf p t1 t2 Hpr Hl). now apply Hfr.
Qed.

Lemma removal_list_processed_witness :
  let names := [["old.jar"]; ["mods"; "extra"]; ["missing.cfg"]] in
  let w :=
    world_of (Dir [("beta", Dir [("filesToRemove.txt", regular "old.jar
mods/extra
missing.cfg
");
                                 ("old.jar", regular "jar");
                                 ("mods", Dir [("extra", Dir [("a.jar", regular "a")]);
                                               ("keep.jar", regular "k")])])]) in
  let r := build_remove ["beta"] w in
  fst r = Ok tt
  /\ exists_at ["beta"; "old.jar"] (fs w) = true
  /\ exists_at ["beta"; "old.jar"] (fs (snd r)) = false
  /\ exists_at ["beta"; "mods"; "extra"] (fs w) = true
  /\ exists_at ["beta"; "mods"; "extra"] (fs (snd r)) = false
  /\ exists_at ["beta"; "filesToRemove.txt"] (fs (snd r)) = false
  /\ lookup ["beta"; "mods"; "keep.jar"] (fs (snd r)) = Some (regular "k").
Proof.
  intros names w r.
  destruct (removal_list_processed ["beta"] w names
              (mkFile true (removal_list names)))
    as [Hr [_ [Hgone [Hlist Hframe]]]]; try reflexivity.
  - repeat constructor.
  - fold r in Hr, Hgone, Hlist, Hframe.
    split; [exact Hr|]. split; [reflexivity|]. split.
    { apply (Hgone ["old.jar"]). now left. }
    split; [reflexivity|]. split.
    { apply (Hgone ["mods"; "extra"]). right. now left. }
    split; [exact Hlist|].
    rewrite (Hframe ["beta"; "mods"; "keep.jar"]); [reflexivity| |reflexivity].
    intros q [<-|[<-|[<-|[]]]]; reflexivity.
Defined.

(** ** C9: what a line of the removal list can reach *)

(** C9: the line is joined to the output root as it is.  An absolute line
    names the path it spells, whatever the output root; and a removal list
    in [/beta] with the lines [../config.json] and [/etc/hosts] deletes
    both, which lie outside [/beta]. *)
Theorem removal_not_confined :
  (forall (output_path : pypath) (file_relative : string) (w : world),
     is_absolute (strip file_relative) = true ->
     os_path_join output_path (strip file_relative) = components (strip file_relative)
     /\ remove_listed output_path file_relative w = remove_listed [] file_relative w)
  /\ (let w :=
        world_of (Dir [("beta", Dir [("filesToRemove.txt", regular "../config.json
/etc/hosts
"); ("pack.toml", regular "p")]);
                       ("config.json", regular "{}");
                       ("etc", Dir [("hosts", regular "h")])]) in
      let r := build_remove ["beta"] w in
      fst r = Ok tt
      /\ exists_at ["config.json"] (fs w) = true
      /\ exists_at ["config.json"] (fs (snd r)) = false
      /\ exists_at ["etc"; "hosts"] (fs w) = true
      /\ exists_at ["etc"; "hosts"] (fs (snd r)) = false
      /\ exists_at ["beta"; "pack.toml"] (fs (snd r)) = true).
Proof.
  split.
  - intros output_path file_relative w Habs.
    assert (os_path_join output_path (strip file_relative)
            = components (strip file_relative)) as Hj
      by (unfold os_path_join; now rewrite Habs).
    split; [exact Hj|].
    unfold remove_listed. cbv zeta. rewrite Hj.
    unfold os_path_join. now rewrite Habs.
  - vm_compute. repeat split; reflexivity.
Qed.

Lemma removal_not_confined_witness :
  let w := world_of (Dir [("beta", Dir []); ("etc", Dir [("hosts", regular "h")])]) in
  os_path_join ["beta"] (strip "/etc/hosts
") = ["etc"; "hosts"]
  /\ exists_at ["etc"; "hosts"] (fs (snd (remove_listed ["beta"] "/etc/hosts
" w))) = false.
Proof.
  intros w.
  destruct (proj1 removal_not_confined ["beta"] "/etc/hosts
" w eq_refl) as [Hj Hr].
  split.
  - exact Hj.
  - rewrite Hr. reflexivity.
Defined.

(** ** C7: the stamping *)

Lemma sapp_assoc (a b c : string) : ((a ++ b) ++ c = a ++ (b ++ c))%string.
Proof. induction a as [|x a IH]; simpl; [reflexivity|now rewrite IH]. Qed.

Lemma sapp_nil_r (a : string) : (a ++ "" = a)%string.
Proof. induction a as [|x a IH]; simpl; [reflexivity|now rewrite IH]. Qed.

Lemma slen_app (a b : string) :
  String.length (a ++ b) = String.length a + String.length b.
Proof. induction a as [|x a IH]; simpl; [reflexivity|now rewrite IH]. Qed.

Lemma prefix_split (a s : string) :
  String.prefix a s = true -> exists r, s = (a ++ r)%string.
Proof.
  revert s. induction a as [|x a IH]; intros s.
  - intros _. now exists s.
  - destruct s as [|y s]; simpl; [discriminate|].
    destruct (Ascii.ascii_dec x y) as [->|]; [|discriminate].
    intros H. destruct (IH s H) as [r ->]. now exists r.
Qed.

Lemma prefix_app (a r : string) : String.prefix a (a ++ r) = true.
Proof.
  induction a as [|x a IH]; simpl; [now destruct r|].
  destruct (Ascii.ascii_dec x x); [assumption|contradiction].
Qed.

Lemma butlast_snoc (c : ascii) (s : string) :
  exists z, String c s = (butlast (String c s) ++ String z "")%string.
Proof.
  revert c. induction s as [|y s IH]; intros c.
  - now exists c.
  - destruct (IH y) as [z Hz]. exists z.
    change (butlast (String c (String y s))) with (String c (butlast (String y s))).
    change (String c (butlast (String y s)) ++ String z "")%string
      with (String c (butlast (String y s) ++ String z "")%string).
    now rewrite <- Hz.
Qed.

Lemma butlast_length (c : ascii) (s : string) :
  String.length (butlast (String c s)) = String.length s.
Proof.
  revert c. induction s as [|y s IH]; intros c; [reflexivity|].
  change (butlast (String c (String y s))) with (String c (butlast (String y s))).
  cbn [String.length]. f_equal. apply IH.
Qed.

Lemma occurs_length (old s : string) :
  occurs old s -> String.length old <= String.length s.
Proof.
  intros [a [b ->]]. rewrite !slen_app. lia.
Qed.

Lemma replace_go_skip (old new a r : string) :
  replace_go old new (a ++ r) (String.length a) = replace_go old new r 0.
Proof.
  induction a as [|x a IH]; simpl; [|assumption].
  destruct r; reflexivity.
Qed.

Lemma replace_go_hit (old new : string) (c : ascii) (old' rest : string) :
  old = String c old' ->
  replace_go old new (old ++ rest) 0 = (new ++ replace_go old new rest 0)%string.
Proof.
  intros ->. simpl append. cbn [replace_go].
  change (String c (old' ++ rest)) with (String c old' ++ rest)%string.
  rewrite prefix_app.
  replace (String.length (String c old') - 1) with (String.length old')
    by (simpl; lia).
  now rewrite replace_go_skip.
Qed.

Lemma replace_go_miss (old new : string) (c : ascii) (r : string) :
  String.prefix old (String c r) = false ->
  replace_go old new (String c r) 0 = String c (replace_go old new r 0).
Proof. intros H. cbn [replace_go]. now rewrite H. Qed.

Lemma not_occurs_cons (old : string) (c : ascii) (r : string) :
  String.prefix old (String c r) = false -> ~ occurs old r ->
  ~ occurs old (String c r).
Proof.
  intros Hp Hr [a [b E]]. destruct a as [|x a].
  - simpl in E. rewrite E, prefix_app in Hp. discriminate.
  - simpl in E. injection E as _ E. apply Hr. now exists a, b.
Qed.

Lemma Stamped_cons (old new : string) (c : ascii) (r out : string) :
  old <> ""%string ->
  String.prefix old (String c r) = false ->
  Stamped old new r out ->
  Stamped old new (String c r) (String c out).
Proof.
  intros Hne Hp Hst. inversion Hst as [s Hno|pre rest out' Hpre Hrest]; subst.
  - apply stamped_rest. now apply not_occurs_cons.
  - change (String c (pre ++ old ++ rest))
      with (String c pre ++ old ++ rest)%string.
    change (String c (pre ++ new ++ out'))
      with (String c pre ++ new ++ out')%string.
    apply stamped_next; [|assumption].
    intros [a [b E]]. destruct a as [|x a].
    + destruct old as [|o old']; [contradiction|].
      destruct (butlast_snoc o old') as [z Hz].
      remember (String o old') as old eqn:Eold.
      change ("" ++ old ++ b)%string with (old ++ b)%string in E.
      assert ((String c pre ++ old ++ rest)%string
              = (old ++ (b ++ String z "" ++ rest))%string) as Heq.
      { rewrite <- (sapp_assoc old b), <- E, sapp_assoc. f_equal.
        rewrite Hz at 1. apply sapp_assoc. }
      change (String c (pre ++ old ++ rest))
        with (String c pre ++ old ++ rest)%string in Hp.
      rewrite Heq, prefix_app in Hp. discriminate.
    + cbn [append] in E. injection E as _ E. apply Hpre. now exists a, b.
Qed.

Lemma replace_go_stamped (old new : string) :
  old <> ""%string ->
  forall n s, String.length s <= n -> Stamped old new s (replace_go old new s 0).
Proof.
  intros Hne. induction n as [|n IH]; intros s Hlen.
  - destruct s; [|simpl in Hlen; lia]. simpl. apply stamped_rest.
    intros Ho. apply occurs_length in Ho. destruct old; [contradiction|simpl in Ho; lia].
  - destruct s as [|c r].
    + simpl. apply stamped_rest.
      intros Ho. apply occurs_length in Ho.
      destruct old; [contradiction|simpl in Ho; lia].
    + destruct (String.prefix old (String c r)) eqn:Hp.
      * destruct (prefix_split _ _ Hp) as [rest E]. rewrite E.
        destruct old as [|o old'] eqn:Eold; [contradiction|]. rewrite <- Eold in *.
        rewrite (replace_go_hit old new o old' rest Eold).
        apply (stamped_next old new "" rest).
        -- simpl append. intros Ho. apply occurs_length in Ho.
           rewrite Eold, butlast_length in Ho. simpl in Ho. lia.
        -- apply IH. assert (String.length (String c r) = String.length (old ++ rest))
             as Hl by now rewrite E.
           rewrite slen_app, Eold in Hl. simpl in Hl, Hlen. lia.
      * rewrite (replace_go_miss old new c r Hp).
        apply Stamped_cons; auto. apply IH. simpl in Hlen. lia.
Qed.

Lemma Stamped_no_occurrence (old new s out : string) :
  Stamped old new s out -> ~ occurs old s -> out = s.
Proof.
  intros Hst Hno. inversion Hst as [|pre rest out' Hpre Hrest]; subst; [reflexivity|].
  exfalso. apply Hno. now exists pre, rest.
Qed.

Lemma write_node_file (p : path) (data out : file) (t : node) :
  lookup p t = Some (File data) -> writable data = true ->
  write_node p out t = inr (graft p (File out) t).
Proof.
  intros H Hw. rewrite <- (app_nil_r p) at 1.
  rewrite (write_node_zoom p [] out t _ H).
  eapply alter_graft; [eassumption|]. simpl. now rewrite Hw.
Qed.

Lemma write_node_read_only (p : path) (data out : file) (t : node) :
  lookup p t = Some (File data) -> writable data = false ->
  write_node p out t = inl PermissionError.
Proof.
  intros H Hw. rewrite <- (app_nil_r p) at 1.
  rewrite (write_node_zoom p [] out t _ H).
  eapply alter_err; [eassumption|]. simpl. now rewrite Hw.
Qed.

(** *** The empty token *)

Lemma replace_empty_continued (new tail rest : string) :
  all_bytes is_continuation tail = true ->
  replace_empty new (tail ++ rest) = (tail ++ replace_empty new rest)%string.
Proof.
  induction tail as [|c tail IH]; [reflexivity|].
  cbn [all_bytes]. rewrite andb_true_iff. intros [Hc Ht].
  cbn [append replace_empty]. now rewrite Hc, (IH Ht).
Qed.

(** A text splits into the continuation bytes it begins with and a rest
    that begins a character. *)
Lemma continuation_split (s : string) :
  exists tail rest,
    s = (tail ++ rest)%string /\ all_bytes is_continuation tail = true
    /\ at_boundary rest = true /\ String.length rest <= String.length s.
Proof.
  induction s as [|c r IH].
  - exists ""%string, ""%string. repeat split; auto.
  - destruct (is_continuation c) eqn:Ec.
    + destruct IH as [tail [rest [-> [Ht [Hb Hl]]]]].
      exists (String c tail), rest. repeat split; auto.
      * cbn [all_bytes]. now rewrite Ec, Ht.
      * simpl. lia.
    + exists ""%string, (String c r). repeat split; auto.
      cbn [at_boundary]. now rewrite Ec.
Qed.

Lemma replace_empty_interleaved (new : string) :
  forall n s, String.length s <= n -> at_boundary s = true ->
    Interleaved new s (replace_empty new s).
Proof.
  induction n as [|n IH]; intros s Hlen Hb.
  - destruct s; [|simpl in Hlen; lia]. apply interleaved_end.
  - destruct s as [|c r]; [apply interleaved_end|].
    cbn [at_boundary] in Hb. apply negb_true_iff in Hb.
    destruct (continuation_split r) as [tail [rest [-> [Ht [Hr Hl]]]]].
    cbn [replace_empty]. rewrite Hb, (replace_empty_continued new tail rest Ht).
    change (String c (tail ++ rest)) with ((String c tail) ++ rest)%string.
    change (String c (tail ++ replace_empty new rest))
      with ((String c tail) ++ replace_empty new rest)%string.
    apply interleaved_char.
    + cbn [is_char]. now rewrite Hb, Ht.
    + exact Hr.
    + apply IH; [|exact Hr]. simpl in Hlen. lia.
Qed.

Lemma utf8_valid_boundary (s : string) : utf8_valid s = true -> at_boundary s = true.
Proof.
  destruct s as [|c r]; [reflexivity|]. cbn [utf8_valid at_boundary].
  unfold is_continuation.
  destruct (byte_in 0 127 c) eqn:E1; [|destruct (byte_in 194 223 c) eqn:E2;
    [|destruct (byte_in 224 239 c) eqn:E3;
      [|destruct (byte_in 240 244 c) eqn:E4; [|discriminate]]]];
    intros _; apply negb_true_iff; unfold byte_in in *;
    rewrite ?andb_true_iff, ?andb_false_iff, ?Nat.leb_le, ?Nat.leb_gt in *; lia.
Qed.

Lemma universal_newlines_boundary (s : string) :
  at_boundary s = true -> at_boundary (universal_newlines s) = true.
Proof.
  destruct s as [|c r]; [reflexivity|]. cbn [universal_newlines at_boundary].
  destruct (Ascii.eqb c CR); [reflexivity|]. auto.
Qed.

(** C7, as stated, fails on a file with a carriage return: the file is
    read in text mode, every CR LF is read as LF, and the text is written
    back that way, token or no token. *)
Lemma stamping_rewrites_line_ends :
  let data := String "a" (String CR (String LF "b")) in
  let w := world_of (Dir [("pack.toml", regular data)]) in
  let r := replace_in_file ["pack.toml"] "noVersion" "3.2.0" w in
  str_replace "noVersion" "3.2.0" data = data
  /\ fst r = Ok tt
  /\ lookup ["pack.toml"] (fs (snd r)) = Some (regular (String "a" (String LF "b")))
  /\ lookup ["pack.toml"] (fs (snd r)) <> lookup ["pack.toml"] (fs w).
Proof.
  vm_compute. repeat split; try reflexivity. discriminate.
Qed.

(** The same call leaves a file alone, token or no token, when its bytes
    are not UTF-8 or when it is read-only, and prints the error. *)
Lemma stamping_leaves_what_it_cannot_rewrite :
  let bad := String (ascii_of_nat 255) " noVersion" in
  let w := world_of (Dir [("pack.toml", regular bad);
                          ("bcc.toml", read_only "noVersion")]) in
  let r1 := replace_in_file ["pack.toml"] "noVersion" "3.2.0" w in
  let r2 := replace_in_file ["bcc.toml"] "noVersion" "3.2.0" w in
  fst r1 = Ok tt /\ fs (snd r1) = fs w
  /\ stdout (snd r1) =
     ["Error processing file /pack.toml: 'utf-8' codec can't decode byte"]
  /\ fst r2 = Ok tt /\ fs (snd r2) = fs w
  /\ stdout (snd r2) = ["Error processing file /bcc.toml: Permission denied"].
Proof. vm_compute. repeat split; reflexivity. Qed.

(** C7, amended: on a regular file that holds UTF-8 and can be written
    to, [replace_in_file] replaces every occurrence of the token in the
    text of the file as text mode reads it (a carriage return, alone or
    before a line feed, read as a line feed), keeps the text between the
    occurrences, and writes the result back to that file alone; the empty
    token is found before every character and at the end.  A file with
    neither the token nor a carriage return is left as it is.  A file
    whose bytes are not UTF-8 or that is read-only is left as it is, and
    so is a directory: the error is printed and the call returns.  A path
    that does not exist leaves the world as it is. *)
Theorem stamping_replaces_every_occurrence (file_path : pypath)
    (old_text new_text : string) (w : world) :
  Forall (fun s => plain s = true) file_path ->
  let r := replace_in_file file_path old_text new_text w in
  match lookup file_path (fs w) with
  | Some (File data) =>
      if writable data && utf8_valid (content data) then
        let text := universal_newlines (content data) in
        let out := str_replace old_text new_text text in
        (old_text <> ""%string -> Stamped old_text new_text text out)
        /\ (old_text = ""%string -> Interleaved new_text text out)
        /\ r = (Ok tt, with_fs (graft file_path (File (mkFile true out)) (fs w)) w)
        /\ (~ occurs old_text text -> has_CR (content data) = false -> r = (Ok tt, w))
      else
        fst r = Ok tt /\ fs (snd r) = fs w
        /\ exists line, stdout (snd r) = stdout w ++ [line]
  | Some (Dir _) =>
      fst r = Ok tt /\ fs (snd r) = fs w
      /\ exists line, stdout (snd r) = stdout w ++ [line]
  | None => r = (Ok tt, w)
  end.
Proof.
  intros Hp r. subst r.
  destruct (lookup file_path (fs w)) as [[data|es]|] eqn:Hl.
  - destruct (writable data) eqn:Hw; cbn [andb];
      [destruct (utf8_valid (content data)) eqn:Hv|].
    + cbv zeta.
      set (text := universal_newlines (content data)).
      assert (old_text <> ""%string ->
              Stamped old_text new_text text (str_replace old_text new_text text)) as Hst.
      { intros Hne. destruct old_text as [|o old'] eqn:E; [contradiction|].
        rewrite <- E in *.
        replace (str_replace old_text new_text text)
          with (replace_go old_text new_text text 0) by (rewrite E; reflexivity).
        eapply replace_go_stamped; [assumption|apply Nat.le_refl]. }
      assert (replace_in_file file_path old_text new_text w =
              (Ok tt,
               with_fs (graft file_path
                          (File (mkFile true (str_replace old_text new_text text)))
                          (fs w)) w)) as Hrun.
      { unfold replace_in_file.
        rewrite (bind_ok _ _ w w true)
          by (rewrite (os_path_exists_plain file_path w Hp); unfold exists_at;
              now rewrite Hl).
        unfold try_except.
        rewrite (bind_ok _ _ w w text)
          by (unfold read_text, read_node; now rewrite (resolve_plain _ _ Hp), Hl, Hv).
        unfold write_text, fs_step. rewrite (resolve_plain _ _ Hp).
        now rewrite (write_node_file file_path data _ (fs w) Hl Hw). }
      repeat split; [exact Hst| |exact Hrun|].
      * intros ->. cbn [str_replace].
        apply (replace_empty_interleaved new_text (String.length text));
          [apply Nat.le_refl|].
        apply universal_newlines_boundary, utf8_valid_boundary, Hv.
      * intros Hno Hcr. rewrite Hrun.
        assert (old_text <> ""%string) as Hne.
        { intros ->. apply Hno. now exists ""%string, text. }
        rewrite (Stamped_no_occurrence _ _ _ _ (Hst Hne) Hno).
        unfold text. rewrite (universal_newlines_no_CR _ Hcr).
        replace (mkFile true (content data)) with data
          by (destruct data; simpl in Hw; now subst).
        now rewrite (graft_id file_path (fs w) _ Hl), with_fs_id.
    + unfold replace_in_file.
      rewrite (bind_ok _ _ w w true)
        by (rewrite (os_path_exists_plain file_path w Hp); unfold exists_at;
            now rewrite Hl).
      unfold try_except.
      rewrite (bind_raise _ _ w w UnicodeDecodeError)
        by (unfold read_text, read_node; now rewrite (resolve_plain _ _ Hp), Hl, Hv).
      repeat split. eexists. reflexivity.
    + unfold replace_in_file.
      rewrite (bind_ok _ _ w w true)
        by (rewrite (os_path_exists_plain file_path w Hp); unfold exists_at;
            now rewrite Hl).
      unfold try_except.
      destruct (utf8_valid (content data)) eqn:Hv.
      * rewrite (bind_ok _ _ w w (universal_newlines (content data)))
          by (unfold read_text, read_node; now rewrite (resolve_plain _ _ Hp), Hl, Hv).
        unfold write_text, fs_step. rewrite (resolve_plain _ _ Hp).
        rewrite (write_node_read_only file_path data _ (fs w) Hl Hw).
        repeat split. eexists. reflexivity.
      * rewrite (bind_raise _ _ w w UnicodeDecodeError)
          by (unfold read_text, read_node; now rewrite (resolve_plain _ _ Hp), Hl, Hv).
        repeat split. eexists. reflexivity.
  - unfold replace_in_file.
    rewrite (bind_ok _ _ w w true)
      by (rewrite (os_path_exists_plain file_path w Hp); unfold exists_at;
          now rewrite Hl).
    unfold try_except.
    rewrite (bind_raise _ _ w w IsADirectoryError)
      by (unfold read_text, read_node; now rewrite (resolve_plain _ _ Hp), Hl).
    repeat split. eexists. reflexivity.
  - unfold replace_in_file.
    rewrite (bind_ok _ _ w w false)
      by (rewrite (os_path_exists_plain file_path w Hp); unfold exists_at;
          now rewrite Hl).
    reflexivity.
Qed.

Lemma stamping_replaces_every_occurrence_witness :
  let w := world_of (Dir [("out", Dir [("pack.toml", regular "version = noVersion
name = noVersion-pack
")])]) in
  let out := "version = 3.2.0
name = 3.2.0-pack
" in
  Stamped "noVersion" "3.2.0" "version = noVersion
name = noVersion-pack
" out
  /\ replace_in_file ["out"; "pack.toml"] "noVersion" "3.2.0" w =
     (Ok tt, with_fs (Dir [("out", Dir [("pack.toml", regular out)])]) w).
Proof.
  intros w out.
  pose proof (stamping_replaces_every_occurrence ["out"; "pack.toml"]
                "noVersion" "3.2.0" w) as H.
  destruct H as [Hst [_ [Hrun _]]].
  - repeat constructor.
  - split; [apply Hst; discriminate|exact Hrun].
Defined.

(** ** Merging trees that agree *)

Lemma compatb_sound (a : node) : forall b, compatb a b = true -> agree a b.
Proof.
  induction a as [da|ea IH] using node_induction; intros [db|eb]; simpl;
    try discriminate.
  - intros _ [|k q] x y; simpl; [|discriminate]. now intros [= <-] [= <-].
  - intros Hall [|k q] x y; simpl.
    + now intros [= <-] [= <-].
    + destruct (alist_get k ea) as [sa|] eqn:Ea; [|discriminate].
      destruct (alist_get k eb) as [sb|] eqn:Eb; [|discriminate].
      pose proof (alist_get_in _ _ _ Ea) as Hin.
      rewrite forallb_forall in Hall. specialize (Hall _ Hin). simpl in Hall.
      rewrite Eb in Hall. rewrite Forall_forall in IH.
      exact (IH _ Hin sb Hall q x y).
Qed.

Lemma yields_sound (a : node) : forall b, yields a b = true -> gives_way a b.
Proof.
  induction a as [da|ea IH] using node_induction; intros [db|eb]; simpl.
  - intros Hw [|k q] g f; simpl; [|discriminate]. now intros [= <-] _.
  - intros _ [|k q] g f; simpl; discriminate.
  - intros _ [|k q] g f; simpl; [discriminate|].
    destruct (alist_get k ea); discriminate.
  - intros Hall [|k q] g f; simpl; [discriminate|].
    destruct (alist_get k ea) as [sa|] eqn:Ea; [|discriminate].
    destruct (alist_get k eb) as [sb|] eqn:Eb; [|discriminate].
    pose proof (alist_get_in _ _ _ Ea) as Hin.
    rewrite forallb_forall in Hall. specialize (Hall _ Hin). simpl in Hall.
    rewrite Eb in Hall. rewrite Forall_forall in IH.
    exact (IH _ Hin sb Hall q g f).
Qed.

Lemma agree_sym (a b : node) : agree a b -> agree b a.
Proof. intros H q x y Hx Hy. symmetry. eapply H; eassumption. Qed.

Lemma agree_entry (k : string) (ea eb : entries) (sa sb : node) :
  agree (Dir ea) (Dir eb) ->
  alist_get k ea = Some sa -> alist_get k eb = Some sb -> agree sa sb.
Proof.
  intros H Ea Eb q x y Hx Hy. apply (H (k :: q)); simpl.
  - now rewrite Ea.
  - now rewrite Eb.
Qed.

Lemma gives_way_entry (k : string) (ea eb : entries) (sa sb : node) :
  gives_way (Dir ea) (Dir eb) ->
  alist_get k ea = Some sa -> alist_get k eb = Some sb -> gives_way sa sb.
Proof.
  intros H Ea Eb q g f Hg Hf. apply (H (k :: q) g f); simpl.
  - now rewrite Ea.
  - now rewrite Eb.
Qed.

(** *** A merge that succeeds *)

Lemma overlay_loop_compatible (l : entries) :
  NoDup (map fst l) ->
  (forall m s, In (m, s) l -> forall k o, agree_opt s o -> gives_way_opt o s ->
     fst (overlay s k o) = Ok tt
     /\ exists x, snd (overlay s k o) = Some x /\ merged s o x) ->
  forall c,
    (forall m s y, In (m, s) l -> alist_get m c = Some y ->
       agree s y /\ gives_way y s) ->
    fst (overlay_loop overlay l false c) = false
    /\ (forall m s, In (m, s) l ->
          exists x, alist_get m (snd (overlay_loop overlay l false c)) = Some x
                    /\ merged s (alist_get m c) x).
Proof.
  induction l as [|[m s] rest IH]; intros Hnd Hrec c Hag.
  - split; [reflexivity|]. intros m s [].
  - inversion Hnd as [|? ? Hm Hrest]; subst.
    assert (agree_opt s (alist_get m c) /\ gives_way_opt (alist_get m c) s) as [Hago Hgo].
    { destruct (alist_get m c) as [y|] eqn:E; simpl; [|split; exact I].
      eapply Hag; [now left|eassumption]. }
    destruct (Hrec m s (or_introl eq_refl) m (alist_get m c) Hago Hgo)
      as [Hr [x [Hx Hmx]]].
    simpl overlay_loop.
    destruct (overlay s m (alist_get m c)) as [r v]. simpl in Hr, Hx. subst r v.
    simpl upd. simpl orb.
    assert (forall m' , In m' (map fst rest) ->
              alist_get m' (alist_set m x c) = alist_get m' c) as Hsame.
    { intros m' Hin. apply alist_get_set_other. intros ->. contradiction. }
    destruct (IH Hrest (fun m' s' Hin => Hrec m' s' (or_intror Hin)) (alist_set m x c))
      as [Hflag Hall].
    { intros m' s' y Hin. rewrite Hsame.
      - apply Hag. now right.
      - change m' with (fst (m', s')). now apply in_map. }
    split; [exact Hflag|].
    intros m' s' [E|Hin].
    + injection E as <- <-. exists x. split; [|exact Hmx].
      rewrite overlay_loop_get_other by assumption. apply alist_get_set_same.
    + destruct (Hall m' s' Hin) as [x' [Hx' Hm']]. exists x'. split; [exact Hx'|].
      rewrite Hsame in Hm'; [exact Hm'|].
      change m' with (fst (m', s')). now apply in_map.
Qed.

Lemma merged_dir (es c0 c' : entries) (o : option node) :
  NoDup (map fst es) ->
  (forall q, lookup_opt q o = match q with [] => lookup_opt [] o | _ => lookup q (Dir c0) end) ->
  (forall m s, In (m, s) es ->
     exists x, alist_get m c' = Some x /\ merged s (alist_get m c0) x) ->
  (forall b, ~ In b (map fst es) -> alist_get b c' = alist_get b c0) ->
  merged (Dir es) o (Dir c').
Proof.
  intros Hnd Ho Hin Hout. repeat split.
  - intros [|k q] d; simpl; [discriminate|].
    destruct (alist_get k es) as [s|] eqn:E; [|discriminate].
    destruct (Hin k s (alist_get_in _ _ _ E)) as [x [Hx [Ha _]]].
    rewrite Hx. apply Ha.
  - intros [|k q]; simpl; [discriminate|].
    rewrite (Ho (k :: q)). simpl.
    destruct (alist_get k es) as [s|] eqn:E.
    + destruct (Hin k s (alist_get_in _ _ _ E)) as [x [Hx [_ [Hb _]]]].
      rewrite Hx. intros Hn. rewrite (Hb q Hn).
      unfold lookup_opt. destruct (alist_get k c0); reflexivity.
    + intros _. rewrite Hout; [reflexivity|]. now apply alist_get_none.
  - intros [|k q] es'; unfold is_dir_at; simpl; [reflexivity|].
    destruct (alist_get k es) as [s|] eqn:E; [|discriminate].
    destruct (Hin k s (alist_get_in _ _ _ E)) as [x [Hx [_ [_ Hc]]]].
    rewrite Hx. apply Hc.
Qed.

(** A tree laid over one it agrees with in kind, whose files give way to
    it, arrives whole. *)
Lemma overlay_compatible (s : node) :
  wf_node s = true ->
  forall k o, agree_opt s o -> gives_way_opt o s ->
    fst (overlay s k o) = Ok tt
    /\ exists x, snd (overlay s k o) = Some x /\ merged s o x.
Proof.
  induction s as [data|es IH] using node_induction; intros Hwf k o Hag Hgw.
  - assert (o = None \/ exists d, o = Some (File d) /\ writable d = true) as Ho.
    { destruct o as [[d|c]|]; eauto.
      - right. exists d. split; [reflexivity|].
        simpl in Hgw. exact (Hgw [] d data eq_refl eq_refl).
      - simpl in Hag. specialize (Hag [] _ _ eq_refl eq_refl). discriminate. }
    assert (merged (File data) o (File data)) as Hm.
    { repeat split.
      - intros [|b q] d; simpl; [now intros [= <-]|discriminate].
      - intros [|b q]; simpl; [discriminate|]. intros _.
        destruct Ho as [-> | [d [-> _]]]; reflexivity.
      - intros [|b q] es; simpl; discriminate. }
    destruct Ho as [-> | [d [-> Hw]]]; simpl; [|rewrite Hw; simpl];
      (split; [reflexivity|eauto]).
  - destruct (wf_node_dir es Hwf) as [_ [Hnd Hwfe]].
    assert (exists c0, (o = None /\ c0 = [] \/ o = Some (Dir c0))) as [c0 Ho].
    { destruct o as [[d|c]|]; eauto.
      simpl in Hag. specialize (Hag [] _ _ eq_refl eq_refl). discriminate. }
    assert (forall m s, In (m, s) es -> forall k o, agree_opt s o -> gives_way_opt o s ->
              fst (overlay s k o) = Ok tt
              /\ exists x, snd (overlay s k o) = Some x /\ merged s o x) as Hrec.
    { intros m s Hin. rewrite Forall_forall in IH.
      apply (IH (m, s) Hin). eapply Hwfe; eassumption. }
    assert (forall m s y, In (m, s) es -> alist_get m c0 = Some y ->
              agree s y /\ gives_way y s) as Hagc.
    { intros m s y Hin Hy. destruct Ho as [[-> ->] | ->]; [discriminate|].
      simpl in Hag, Hgw. split.
      - eapply agree_entry; [exact Hag| |exact Hy]. now apply nodup_get.
      - eapply gives_way_entry; [exact Hgw|exact Hy|]. now apply nodup_get. }
    destruct (overlay_loop_compatible es Hnd Hrec c0 Hagc) as [Hflag Hall].
    assert (overlay (Dir es) k o =
            (Ok tt, Some (Dir (snd (overlay_loop overlay es false c0))))) as Hov.
    { simpl overlay.
      destruct Ho as [[-> ->] | ->];
        destruct (overlay_loop overlay es false _) as [errors c']; simpl in *;
        now rewrite Hflag. }
    rewrite Hov. split; [reflexivity|]. eexists. split; [reflexivity|].
    apply (merged_dir es c0 _ o Hnd).
    + intros [|b q]; [reflexivity|].
      destruct Ho as [[-> ->] | ->]; reflexivity.
    + exact Hall.
    + intros b Hb. now apply overlay_loop_get_other.
Qed.

Lemma overlay_all_no_errors (l : entries) :
  forall d,
    fst (overlay_loop overlay l false d) = false ->
    overlay_all l d = (Ok tt, snd (overlay_loop overlay l false d)).
Proof.
  induction l as [|[m s] rest IH]; intros d; simpl; [reflexivity|].
  destruct (overlay s m (alist_get m d)) as [r v].
  rewrite (overlay_loop_flag overlay rest (is_raise r)). simpl.
  destruct r as [[]|e]; simpl; [|discriminate].
  apply IH.
Qed.

(** *** A merge that may stop on the way *)

Lemma within_self (s y : node) : agree s y -> within s (Some y) y.
Proof.
  intros H. split; [reflexivity|].
  intros q n y' Hn Hy. symmetry. eapply H; eassumption.
Qed.

Lemma within_dir (es c0 c' : entries) (o : option node) :
  (forall q, lookup_opt q o = match q with [] => lookup_opt [] o | _ => lookup q (Dir c0) end) ->
  (forall m s, In (m, s) es ->
     match alist_get m c' with
     | Some x => within s (alist_get m c0) x
     | None => alist_get m c0 = None
     end) ->
  (forall b, ~ In b (map fst es) -> alist_get b c' = alist_get b c0) ->
  within (Dir es) o (Dir c').
Proof.
  intros Ho Hin Hout. split.
  - intros [|k q]; simpl; [discriminate|].
    rewrite (Ho (k :: q)). simpl.
    destruct (alist_get k es) as [s|] eqn:E.
    + intros Hn. pose proof (Hin k s (alist_get_in _ _ _ E)) as Hk.
      destruct (alist_get k c') as [x|].
      * destruct Hk as [Hb _]. rewrite (Hb q Hn).
        unfold lookup_opt. destruct (alist_get k c0); reflexivity.
      * now rewrite Hk.
    + intros _. rewrite Hout; [reflexivity|]. now apply alist_get_none.
  - intros [|k q] n y; simpl.
    + now intros [= <-] [= <-].
    + destruct (alist_get k es) as [s|] eqn:E; [|discriminate].
      pose proof (Hin k s (alist_get_in _ _ _ E)) as Hk.
      destruct (alist_get k c') as [x|]; [|discriminate].
      destruct Hk as [_ Hc]. apply Hc.
Qed.

Lemma overlay_loop_within (l : entries) :
  NoDup (map fst l) ->
  (forall m s, In (m, s) l -> forall k o, agree_opt s o ->
     exists x, snd (overlay s k o) = Some x /\ within s o x) ->
  forall e c,
    (forall m s y, In (m, s) l -> alist_get m c = Some y -> agree s y) ->
    forall m s, In (m, s) l ->
      exists x, alist_get m (snd (overlay_loop overlay l e c)) = Some x
                /\ within s (alist_get m c) x.
Proof.
  induction l as [|[m0 s0] rest IH]; intros Hnd Hrec e c Hag m s Hin; [destruct Hin|].
  inversion Hnd as [|? ? Hm Hrest]; subst.
  assert (agree_opt s0 (alist_get m0 c)) as Hago.
  { destruct (alist_get m0 c) as [y|] eqn:E; simpl; [|exact I].
    eapply Hag; [now left|eassumption]. }
  destruct (Hrec m0 s0 (or_introl eq_refl) m0 (alist_get m0 c) Hago) as [x [Hx Hw]].
  simpl overlay_loop.
  destruct (overlay s0 m0 (alist_get m0 c)) as [r v]. simpl in Hx. subst v.
  simpl upd.
  assert (forall m' , In m' (map fst rest) ->
            alist_get m' (alist_set m0 x c) = alist_get m' c) as Hsame.
  { intros m' Hin'. apply alist_get_set_other. intros ->. contradiction. }
  destruct Hin as [E|Hin].
  - injection E as <- <-. exists x. split; [|exact Hw].
    rewrite overlay_loop_get_other by assumption. apply alist_get_set_same.
  - assert (In m (map fst rest)) as Hmr
      by (change m with (fst (m, s)); now apply in_map).
    destruct (IH Hrest (fun m' s' Hin' => Hrec m' s' (or_intror Hin'))
                (e || is_raise r) (alist_set m0 x c)) with (m := m) (s := s)
      as [x' [Hx' Hw']]; auto.
    { intros m' s' y Hin'. rewrite Hsame.
      - apply Hag. now right.
      - change m' with (fst (m', s')). now apply in_map. }
    exists x'. split; [exact Hx'|]. now rewrite Hsame in Hw'.
Qed.

(** A tree laid over one it agrees with in kind: whatever the outcome,
    nothing is there afterwards that neither of them had, and nothing has
    changed its kind. *)
Lemma overlay_within (s : node) :
  wf_node s = true ->
  forall k o, agree_opt s o ->
    exists x, snd (overlay s k o) = Some x /\ within s o x.
Proof.
  induction s as [data|es IH] using node_induction; intros Hwf k o Hag.
  - assert (o = None \/ exists d, o = Some (File d)) as Ho.
    { destruct o as [[d|c]|]; eauto.
      simpl in Hag. specialize (Hag [] _ _ eq_refl eq_refl). discriminate. }
    assert (within (File data) o (File data)) as Hnew.
    { split.
      - intros [|b q]; simpl; [discriminate|]. intros _.
        destruct Ho as [-> | [d ->]]; reflexivity.
      - intros q n y Hn Hy. congruence. }
    destruct Ho as [-> | [d ->]]; simpl; [eauto|].
    destruct (writable d); simpl; [eauto|].
    exists (File d). split; [reflexivity|]. now apply within_self.
  - destruct (wf_node_dir es Hwf) as [_ [Hnd Hwfe]].
    assert (exists c0, (o = None /\ c0 = [] \/ o = Some (Dir c0))) as [c0 Ho].
    { destruct o as [[d|c]|]; eauto.
      simpl in Hag. specialize (Hag [] _ _ eq_refl eq_refl). discriminate. }
    assert (forall m s, In (m, s) es -> forall k o, agree_opt s o ->
              exists x, snd (overlay s k o) = Some x /\ within s o x) as Hrec.
    { intros m s Hin. rewrite Forall_forall in IH.
      apply (IH (m, s) Hin). eapply Hwfe; eassumption. }
    assert (forall m s y, In (m, s) es -> alist_get m c0 = Some y -> agree s y) as Hagc.
    { intros m s y Hin Hy. destruct Ho as [[-> ->] | ->]; [discriminate|].
      simpl in Hag. eapply agree_entry; [exact Hag| |exact Hy].
      now apply nodup_get. }
    pose proof (overlay_loop_within es Hnd Hrec false c0 Hagc) as Hall.
    assert (snd (overlay (Dir es) k o) =
            Some (Dir (snd (overlay_loop overlay es false c0)))) as Hov.
    { simpl overlay.
      destruct Ho as [[-> ->] | ->];
        destruct (overlay_loop overlay es false _) as [errors c']; reflexivity. }
    rewrite Hov. eexists. split; [reflexivity|].
    apply (within_dir es c0 _ o).
    + intros [|b q]; [reflexivity|].
      destruct Ho as [[-> ->] | ->]; reflexivity.
    + intros m s Hin. destruct (Hall m s Hin) as [x [-> Hw]]. exact Hw.
    + intros b Hb. now apply overlay_loop_get_other.
Qed.

Lemma overlay_all_within (l : entries) :
  NoDup (map fst l) ->
  (forall m s, In (m, s) l -> wf_node s = true) ->
  forall d,
    (forall m s y, In (m, s) l -> alist_get m d = Some y -> agree s y) ->
    forall m s, In (m, s) l ->
      match alist_get m (snd (overlay_all l d)) with
      | Some x => within s (alist_get m d) x
      | None => alist_get m d = None
      end.
Proof.
  induction l as [|[m0 s0] rest IH]; intros Hnd Hwf d Hag m s Hin; [destruct Hin|].
  inversion Hnd as [|? ? Hm Hrest]; subst.
  assert (agree_opt s0 (alist_get m0 d)) as Hago.
  { destruct (alist_get m0 d) as [y|] eqn:E; simpl; [|exact I].
    eapply Hag; [now left|eassumption]. }
  destruct (overlay_within s0 (Hwf m0 s0 (or_introl eq_refl)) m0 (alist_get m0 d) Hago)
    as [x [Hx Hw]].
  simpl overlay_all.
  destruct (overlay s0 m0 (alist_get m0 d)) as [r v]. simpl in Hx. subst v.
  simpl upd.
  assert (forall m' , In m' (map fst rest) ->
            alist_get m' (alist_set m0 x d) = alist_get m' d) as Hsame.
  { intros m' Hin'. apply alist_get_set_other. intros ->. contradiction. }
  destruct r as [[]|e]; simpl snd.
  - destruct Hin as [E|Hin].
    + injection E as <- <-.
      rewrite overlay_all_get_other by assumption.
      now rewrite alist_get_set_same.
    + assert (In m (map fst rest)) as Hmr
        by (change m with (fst (m, s)); now apply in_map).
      rewrite <- (Hsame m Hmr). apply IH; auto.
      * intros m' s' Hin'. apply (Hwf m' s'). now right.
      * intros m' s' y Hin'. rewrite Hsame.
        -- apply Hag. now right.
        -- change m' with (fst (m', s')). now apply in_map.
  - destruct Hin as [E|Hin].
    + injection E as <- <-. now rewrite alist_get_set_same.
    + assert (In m (map fst rest)) as Hmr
        by (change m with (fst (m, s)); now apply in_map).
      rewrite (Hsame m Hmr).
      destruct (alist_get m d) as [y|] eqn:E; [|reflexivity].
      apply within_self. eapply Hag; [right; eassumption|eassumption].
Qed.

(** ** One tier merged into the output tree *)

Lemma lookup_none_app (p q : path) (t : node) :
  lookup p t = None -> lookup (p ++ q) t = None.
Proof. intros H. now rewrite lookup_app, H. Qed.

Lemma disjointb_app_r (p q y : path) :
  disjointb p q = true -> disjointb p (q ++ y) = true.
Proof.
  intros H. rewrite <- (app_nil_r p). now apply disjointb_app.
Qed.

(** [t0] is the tree the build started from; the tiers are read there,
    since nothing outside [dest] changes on the way.  The tier agrees in
    kind with what the output holds, and the files of the output give way
    to it: the merge returns normally and the tier is in the output. *)
Lemma merge_step (limit : nat) (src dest : pypath) (t0 : node) (w : world)
    (d : entries) :
  Forall (fun s => plain s = true) src ->
  Forall (fun s => plain s = true) dest ->
  disjointb src dest = true ->
  (forall p, disjointb dest p = true -> lookup p (fs w) = lookup p t0) ->
  (forall s, lookup src t0 = Some s ->
     is_dir_node s = true /\ wf_node s = true /\ height s <= S limit) ->
  lookup dest (fs w) = Some (Dir d) ->
  (forall q x y, lookup (src ++ q) t0 = Some x -> lookup q (Dir d) = Some y ->
     is_dir_node x = is_dir_node y) ->
  (forall q g f, lookup q (Dir d) = Some (File g) ->
     lookup (src ++ q) t0 = Some (File f) -> writable g = true) ->
  exists d',
    copy_directory_contents limit src dest w =
      (Ok tt, with_fs (graft dest (Dir d') (fs w)) w)
    /\ (forall p, disjointb dest p = true ->
          lookup p (graft dest (Dir d') (fs w)) = lookup p t0)
    /\ lookup dest (graft dest (Dir d') (fs w)) = Some (Dir d')
    /\ (forall q g, lookup (src ++ q) t0 = Some (File g) ->
          lookup q (Dir d') = Some (File g))
    /\ (forall q, lookup (src ++ q) t0 = None ->
          lookup q (Dir d') = lookup q (Dir d))
    /\ (forall q es, lookup (src ++ q) t0 = Some (Dir es) ->
          is_dir_at q (Dir d') = true).
Proof.
  intros Hps Hpd Hdis Hframe Htier Hd Hag Hgw.
  assert (lookup src (fs w) = lookup src t0) as Hsrc
    by (apply Hframe; now rewrite disjointb_sym).
  assert (forall d', (forall p, disjointb dest p = true ->
            lookup p (graft dest (Dir d') (fs w)) = lookup p t0)) as Hframe'.
  { intros d' p Hp. rewrite (lookup_graft_disjoint dest p _ (fs w) _ Hd Hp). auto. }
  destruct (lookup src t0) as [s|] eqn:Hs.
  - destruct (Htier s eq_refl) as [Hdir [Hwf Hh]].
    destruct s as [|es]; [discriminate|].
    assert (agree_opt (Dir es) (Some (Dir d))) as Hago.
    { simpl. intros q x y Hx Hy. apply (Hag q x y); [|assumption].
      now rewrite lookup_app, Hs. }
    assert (gives_way_opt (Some (Dir d)) (Dir es)) as Hgo.
    { simpl. intros q g f Hg Hf. apply (Hgw q g f Hg).
      now rewrite lookup_app, Hs. }
    destruct (overlay_compatible (Dir es) Hwf "" (Some (Dir d)) Hago Hgo)
      as [Hr [x [Hx [Ha [Hb Hc]]]]].
    destruct (wf_node_dir es Hwf) as [_ [Hnd Hwfe]].
    simpl overlay in Hr, Hx.
    destruct (overlay_loop overlay es false d) as [errors d'] eqn:Hloop.
    simpl in Hr, Hx. destruct errors; [discriminate|]. injection Hx as <-.
    exists d'.
    assert (overlay_all es d = (Ok tt, d')) as Hall.
    { rewrite (overlay_all_no_errors es d); now rewrite Hloop. }
    repeat split.
    + rewrite (cdc_refine limit src dest w es d (fs w) Hps Hpd Hdis Hsrc Hwf Hh
                 (makedirs_existing dest (fs w) d Hd) Hd).
      now rewrite Hall.
    + apply Hframe'.
    + eapply graft_lookup; eassumption.
    + intros q g Hq. apply Ha. now rewrite lookup_app, Hs in Hq.
    + intros q Hq. rewrite (Hb q); [reflexivity|]. now rewrite lookup_app, Hs in Hq.
    + intros q es' Hq. apply (Hc q es'). now rewrite lookup_app, Hs in Hq.
  - exists d. repeat split.
    + unfold copy_directory_contents.
      rewrite (bind_ok _ _ w w false)
        by (rewrite (os_path_exists_plain src w Hps); unfold exists_at; now rewrite Hsrc).
      simpl. unfold ret. now rewrite (graft_id dest (fs w) _ Hd), with_fs_id.
    + apply Hframe'.
    + eapply graft_lookup; eassumption.
    + intros q g Hq. now rewrite lookup_app, Hs in Hq.
    + intros q es Hq. now rewrite lookup_app, Hs in Hq.
Qed.

(** The same without the files giving way: the merge may raise, and
    whatever its outcome the output holds nothing that neither it nor the
    tier had, and nothing of another kind than the tier has. *)
Lemma merge_step_any (limit : nat) (src dest : pypath) (t0 : node) (w : world)
    (d : entries) :
  Forall (fun s => plain s = true) src ->
  Forall (fun s => plain s = true) dest ->
  disjointb src dest = true ->
  (forall p, disjointb dest p = true -> lookup p (fs w) = lookup p t0) ->
  (forall s, lookup src t0 = Some s ->
     is_dir_node s = true /\ wf_node s = true /\ height s <= S limit) ->
  lookup dest (fs w) = Some (Dir d) ->
  (forall q x y, lookup (src ++ q) t0 = Some x -> lookup q (Dir d) = Some y ->
     is_dir_node x = is_dir_node y) ->
  exists r d',
    copy_directory_contents limit src dest w =
      (r, with_fs (graft dest (Dir d') (fs w)) w)
    /\ (forall p, disjointb dest p = true ->
          lookup p (graft dest (Dir d') (fs w)) = lookup p t0)
    /\ lookup dest (graft dest (Dir d') (fs w)) = Some (Dir d')
    /\ (forall q, lookup (src ++ q) t0 = None ->
          lookup q (Dir d') = lookup q (Dir d))
    /\ (forall q n y, lookup (src ++ q) t0 = Some n -> lookup q (Dir d') = Some y ->
          is_dir_node y = is_dir_node n).
Proof.
  intros Hps Hpd Hdis Hframe Htier Hd Hag.
  assert (lookup src (fs w) = lookup src t0) as Hsrc
    by (apply Hframe; now rewrite disjointb_sym).
  assert (forall d', (forall p, disjointb dest p = true ->
            lookup p (graft dest (Dir d') (fs w)) = lookup p t0)) as Hframe'.
  { intros d' p Hp. rewrite (lookup_graft_disjoint dest p _ (fs w) _ Hd Hp). auto. }
  destruct (lookup src t0) as [s|] eqn:Hs.
  - destruct (Htier s eq_refl) as [Hdir [Hwf Hh]].
    destruct s as [|es]; [discriminate|].
    destruct (wf_node_dir es Hwf) as [_ [Hnd Hwfe]].
    assert (agree (Dir es) (Dir d)) as Hago.
    { intros q x y Hx Hy. apply (Hag q x y); [|assumption].
      now rewrite lookup_app, Hs. }
    assert (within (Dir es) (Some (Dir d)) (Dir (snd (overlay_all es d)))) as [Hb Hc].
    { apply (within_dir es d _ (Some (Dir d))).
      - intros [|b q]; reflexivity.
      - apply (overlay_all_within es Hnd Hwfe d).
        intros m s y Hin Hy. eapply agree_entry; [exact Hago| |exact Hy].
        now apply nodup_get.
      - intros b Hb. now apply overlay_all_get_other. }
    exists (fst (overlay_all es d)), (snd (overlay_all es d)). repeat split.
    + exact (cdc_refine limit src dest w es d (fs w) Hps Hpd Hdis Hsrc Hwf Hh
               (makedirs_existing dest (fs w) d Hd) Hd).
    + apply Hframe'.
    + eapply graft_lookup; eassumption.
    + intros q Hq. rewrite (Hb q); [reflexivity|]. now rewrite lookup_app, Hs in Hq.
    + intros q n y Hq. apply (Hc q n y). now rewrite lookup_app, Hs in Hq.
  - exists (Ok tt), d. repeat split.
    + unfold copy_directory_contents.
      rewrite (bind_ok _ _ w w false)
        by (rewrite (os_path_exists_plain src w Hps); unfold exists_at; now rewrite Hsrc).
      simpl. unfold ret. now rewrite (graft_id dest (fs w) _ Hd), with_fs_id.
    + apply Hframe'.
    + eapply graft_lookup; eassumption.
    + intros q n y Hq. now rewrite lookup_app, Hs in Hq.
Qed.

(** Agreement with the output tree is kept by a merge of a tier that
    agrees, whatever the outcome of that merge. *)
Lemma agree_next (t0 : node) (prev next : path) (d d' : entries) :
  (forall q, lookup (prev ++ q) t0 = None -> lookup q (Dir d') = lookup q (Dir d)) ->
  (forall q n y, lookup (prev ++ q) t0 = Some n -> lookup q (Dir d') = Some y ->
     is_dir_node y = is_dir_node n) ->
  (forall q x y, lookup (next ++ q) t0 = Some x -> lookup (prev ++ q) t0 = Some y ->
     is_dir_node x = is_dir_node y) ->
  (forall q x y, lookup (next ++ q) t0 = Some x -> lookup q (Dir d) = Some y ->
     is_dir_node x = is_dir_node y) ->
  forall q x y, lookup (next ++ q) t0 = Some x -> lookup q (Dir d') = Some y ->
    is_dir_node x = is_dir_node y.
Proof.
  intros Hb Hc Hpn Hnd q x y Hx Hy.
  destruct (lookup (prev ++ q) t0) as [n|] eqn:Hp.
  - rewrite (Hc q n y Hp Hy). exact (Hpn q x n Hx Hp).
  - rewrite (Hb q Hp) in Hy. exact (Hnd q x y Hx Hy).
Qed.

(** What a merge that succeeded has laid down is as the tier has it. *)
Lemma merged_kinds (t0 : node) (prev : path) (d' : entries) :
  (forall q g, lookup (prev ++ q) t0 = Some (File g) ->
     lookup q (Dir d') = Some (File g)) ->
  (forall q es, lookup (prev ++ q) t0 = Some (Dir es) -> is_dir_at q (Dir d') = true) ->
  forall q n y, lookup (prev ++ q) t0 = Some n -> lookup q (Dir d') = Some y ->
    is_dir_node y = is_dir_node n.
Proof.
  intros Ha Hc q [g|es] y Hn Hy.
  - rewrite (Ha q g Hn) in Hy. now injection Hy as <-.
  - pose proof (Hc q es Hn) as Hdir. unfold is_dir_at in Hdir. rewrite Hy in Hdir.
    destruct y; [discriminate|reflexivity].
Qed.

(** The files of the output give way to the next tier after a merge, when
    those of the tier merged and those of the output before it do. *)
Lemma gives_way_next (t0 : node) (prev next : path) (d d' : entries) :
  (forall q g, lookup (prev ++ q) t0 = Some (File g) ->
     lookup q (Dir d') = Some (File g)) ->
  (forall q, lookup (prev ++ q) t0 = None -> lookup q (Dir d') = lookup q (Dir d)) ->
  (forall q es, lookup (prev ++ q) t0 = Some (Dir es) -> is_dir_at q (Dir d') = true) ->
  (forall q g f, lookup (prev ++ q) t0 = Some (File g) ->
     lookup (next ++ q) t0 = Some (File f) -> writable g = true) ->
  (forall q g f, lookup q (Dir d) = Some (File g) ->
     lookup (next ++ q) t0 = Some (File f) -> writable g = true) ->
  forall q g f, lookup q (Dir d') = Some (File g) ->
    lookup (next ++ q) t0 = Some (File f) -> writable g = true.
Proof.
  intros Ha Hb Hc Hpn Hnd q g f Hg Hf.
  destruct (lookup (prev ++ q) t0) as [[g'|es]|] eqn:Hp.
  - rewrite (Ha q g' Hp) in Hg. injection Hg as <-. exact (Hpn q g' f Hp Hf).
  - pose proof (Hc q es Hp) as Hdir. unfold is_dir_at in Hdir. rewrite Hg in Hdir.
    discriminate.
  - rewrite (Hb q Hp) in Hg. exact (Hnd q g f Hg Hf).
Qed.

Lemma agree_empty (t0 : node) (tier : path) :
  is_file_at tier t0 = false ->
  forall q x y, lookup (tier ++ q) t0 = Some x -> lookup q (Dir []) = Some y ->
    is_dir_node x = is_dir_node y.
Proof.
  intros Hf [|b q] x y; simpl; [|discriminate].
  rewrite app_nil_r. intros Hx [= <-]. unfold is_file_at in Hf. rewrite Hx in Hf.
  destruct x; [discriminate|reflexivity].
Qed.

Lemma gives_way_empty (t0 : node) (tier : path) :
  forall q g f, lookup q (Dir []) = Some (File g) ->
    lookup (tier ++ q) t0 = Some (File f) -> writable g = true.
Proof. intros [|b q] g f; simpl; discriminate. Qed.

Lemma agree_tiers (t0 : node) (a b : path) :
  compatb (tier_node t0 a) (tier_node t0 b) = true ->
  (forall q x y, lookup (a ++ q) t0 = Some x -> lookup (b ++ q) t0 = Some y ->
     is_dir_node x = is_dir_node y)
  /\ (forall q x y, lookup (b ++ q) t0 = Some x -> lookup (a ++ q) t0 = Some y ->
     is_dir_node x = is_dir_node y).
Proof.
  intros Hc. apply compatb_sound in Hc. unfold tier_node in Hc.
  assert (forall q x y, lookup (a ++ q) t0 = Some x -> lookup (b ++ q) t0 = Some y ->
            is_dir_node x = is_dir_node y) as H.
  { intros q x y. rewrite !lookup_app.
    destruct (lookup a t0) as [na|]; [|discriminate].
    destruct (lookup b t0) as [nb|]; [|discriminate].
    apply Hc. }
  split; [exact H|]. intros q x y Hx Hy. symmetry. exact (H q y x Hy Hx).
Qed.

Lemma yields_tiers (t0 : node) (a b : path) :
  yields (tier_node t0 a) (tier_node t0 b) = true ->
  forall q g f, lookup (a ++ q) t0 = Some (File g) ->
    lookup (b ++ q) t0 = Some (File f) -> writable g = true.
Proof.
  intros Hy. apply yields_sound in Hy. unfold tier_node in Hy.
  intros q g f. rewrite !lookup_app.
  destruct (lookup a t0) as [na|]; [|discriminate].
  destruct (lookup b t0) as [nb|]; [|discriminate].
  apply Hy.
Qed.

Lemma tier_facts (limit : nat) (t0 : node) (tier : path) :
  wf_node t0 = true -> height t0 <= limit -> is_file_at tier t0 = false ->
  forall s, lookup tier t0 = Some s ->
    is_dir_node s = true /\ wf_node s = true /\ height s <= S limit.
Proof.
  intros Hwf Hh Hf s Hs. repeat split.
  - unfold is_file_at in Hf. rewrite Hs in Hf. now destruct s.
  - eapply wf_lookup; eassumption.
  - pose proof (height_lookup tier t0 s Hs). lia.
Qed.

Lemma lookup_under (dest : path) (d' : entries) (t : node) (q : path) :
  lookup dest t = Some (Dir d') -> lookup (dest ++ q) t = lookup q (Dir d').
Proof. intros H. now rewrite lookup_app, H. Qed.

(** ** C5: the tiers of the giga variant *)




(** ** C6: the tiers of the server variant *)



(** * Further properties of the script *)

(** ** Merging into a fresh directory *)

Lemma alist_set_fresh (k : string) (v : node) (c : entries) :
  alist_get k c = None -> alist_set k v c = c ++ [(k, v)].
Proof.
  induction c as [|[k' v'] r IH]; simpl; [reflexivity|].
  destruct (String.eqb k k'); [discriminate|]. intros H. now rewrite IH.
Qed.

Lemma overlay_loop_fresh (l : entries) :
  (forall m s, In (m, s) l -> overlay s m None = (Ok tt, Some s)) ->
  forall c, NoDup (map fst c ++ map fst l) ->
    overlay_loop overlay l false c = (false, c ++ l).
Proof.
  induction l as [|[m s] rest IH]; intros Hrec c Hnd; simpl.
  - now rewrite app_nil_r.
  - assert (alist_get m c = None) as Hm.
    { apply alist_get_none. intros Hin.
      apply NoDup_remove_2 in Hnd. apply Hnd. apply in_or_app. now left. }
    rewrite Hm, (Hrec m s (or_introl eq_refl)). simpl.
    rewrite (alist_set_fresh m s c Hm).
    rewrite (IH (fun m' s' Hin => Hrec m' s' (or_intror Hin))).
    + now rewrite <- app_assoc.
    + rewrite map_app, <- app_assoc. exact Hnd.
Qed.

(** A well-formed tree laid where nothing is comes out as it is. *)
Lemma overlay_fresh (s : node) :
  wf_node s = true -> forall k, overlay s k None = (Ok tt, Some s).
Proof.
  induction s as [data|es IH] using node_induction; intros Hwf k; [reflexivity|].
  destruct (wf_node_dir es Hwf) as [_ [Hnd Hwfe]].
  simpl overlay. rewrite (overlay_loop_fresh es).
  - reflexivity.
  - intros m s Hin. rewrite Forall_forall in IH.
    apply (IH (m, s) Hin). eapply Hwfe; eassumption.
  - exact Hnd.
Qed.

Lemma overlay_all_fresh (l : entries) :
  (forall m s, In (m, s) l -> wf_node s = true) ->
  forall c, NoDup (map fst c ++ map fst l) ->
    overlay_all l c = (Ok tt, c ++ l).
Proof.
  induction l as [|[m s] rest IH]; intros Hwf c Hnd; simpl.
  - now rewrite app_nil_r.
  - assert (alist_get m c = None) as Hm.
    { apply alist_get_none. intros Hin.
      apply NoDup_remove_2 in Hnd. apply Hnd. apply in_or_app. now left. }
    rewrite Hm, (overlay_fresh s (Hwf m s (or_introl eq_refl)) m). simpl.
    rewrite (alist_set_fresh m s c Hm).
    rewrite (IH (fun m' s' Hin => Hwf m' s' (or_intror Hin))).
    + now rewrite <- app_assoc.
    + rewrite map_app, <- app_assoc. exact Hnd.
Qed.

Lemma makedirs_ok (p : path) (t : node) :
  file_on_path p t = false -> exists t1, makedirs_node p t = inr t1.
Proof.
  revert t. induction p as [|k p IH]; intros [d|es]; simpl; try discriminate; eauto.
  destruct (alist_get k es) as [c|] eqn:E; eauto.
  intros H. destruct (IH c H) as [c' Hc]. rewrite Hc. eauto.
Qed.

Lemma makedirs_fresh (p : path) (t t1 : node) :
  lookup p t = None -> makedirs_node p t = inr t1 -> lookup p t1 = Some (Dir []).
Proof.
  revert t t1. induction p as [|k p IH]; intros t t1; simpl; [discriminate|].
  destruct t as [d|es]; [discriminate|].
  destruct (alist_get k es) as [c|] eqn:E.
  - destruct (makedirs_node p c) as [e|c'] eqn:Ec; [discriminate|].
    intros Hl [= <-]. simpl. rewrite alist_get_set_same. eapply IH; eassumption.
  - intros _ [= <-]. simpl. rewrite alist_get_set_same. apply lookup_mkchain.
Qed.

(** X1. [copy_directory_contents]: the source is a directory, the
    destination is not there yet or is an empty directory: the merge returns normally, the destination is then
    the source tree itself, and the source is as it was. *)
Theorem merge_into_fresh_copies (limit : nat) (src dest : pypath) (w : world)
    (es : entries) :
  Forall (fun s => plain s = true) src ->
  Forall (fun s => plain s = true) dest ->
  disjointb src dest = true ->
  wf_node (fs w) = true ->
  height (fs w) <= limit ->
  lookup src (fs w) = Some (Dir es) ->
  file_on_path dest (fs w) = false ->
  (lookup dest (fs w) = None \/ lookup dest (fs w) = Some (Dir [])) ->
  let r := copy_directory_contents limit src dest w in
  fst r = Ok tt
  /\ lookup dest (fs (snd r)) = Some (Dir es)
  /\ lookup src (fs (snd r)) = Some (Dir es).
Proof.
  intros Hps Hpd Hdis Hwf Hh Hs Hfp Hdest. cbv zeta.
  assert (wf_node (Dir es) = true) as Hwfs by (eapply wf_lookup; eassumption).
  assert (height (Dir es) <= S limit) as Hhs
    by (pose proof (height_lookup src (fs w) _ Hs); lia).
  destruct (makedirs_ok dest (fs w) Hfp) as [t1 Hmk].
  assert (lookup dest t1 = Some (Dir [])) as Hd1.
  { destruct Hdest as [Hn|Hd].
    - eapply makedirs_fresh; eassumption.
    - rewrite (makedirs_existing dest (fs w) [] Hd) in Hmk. now injection Hmk as <-. }
  rewrite (cdc_refine limit src dest w es [] t1 Hps Hpd Hdis Hs Hwfs Hhs Hmk Hd1).
  destruct (wf_node_dir es Hwfs) as [_ [Hnd Hwfe]].
  rewrite (overlay_all_fresh es Hwfe [] Hnd). simpl.
  repeat split.
  - eapply graft_lookup; eassumption.
  - rewrite (lookup_graft_disjoint dest src _ t1 _ Hd1) by (now rewrite disjointb_sym).
    rewrite (makedirs_frame dest src (fs w) t1 Hmk) by (now rewrite disjointb_sym).
    exact Hs.
Qed.

Lemma merge_into_fresh_copies_witness :
  let w := world_of (Dir [("mod", Dir [("a.txt", regular "1");
                                       ("cfg", Dir [("b.txt", regular "2")])])]) in
  let r := copy_directory_contents 4 ["mod"] ["beta"; "out"] w in
  fst r = Ok tt
  /\ lookup ["beta"; "out"] (fs (snd r))
     = Some (Dir [("a.txt", regular "1"); ("cfg", Dir [("b.txt", regular "2")])])
  /\ lookup ["mod"] (fs (snd r))
     = Some (Dir [("a.txt", regular "1"); ("cfg", Dir [("b.txt", regular "2")])]).
Proof.
  intros w.
  apply (merge_into_fresh_copies 4 ["mod"] ["beta"; "out"] w); try reflexivity.
  - repeat constructor.
  - repeat constructor.
  - vm_compute. lia.
  - now left.
Defined.

(** ** Removing a directory and making it again *)

Lemma file_on_path_file (p : path) (t : node) (data : file) :
  lookup p t = Some (File data) -> file_on_path p t = true.
Proof.
  revert t. induction p as [|k p IH]; intros [d|es]; simpl; try discriminate; auto.
  destruct (alist_get k es) as [c|]; [apply IH|discriminate].
Qed.

Lemma prune_then_makedirs (p : path) (t t1 c : node) :
  lookup p t = Some c -> prune p t = inr t1 ->
  exists t2, makedirs_node p t1 = inr t2 /\ lookup p t2 = Some (Dir [])
             /\ forall q, disjointb p q = true -> lookup q t2 = lookup q t1.
Proof.
  revert t t1. induction p as [|k p IH]; intros t t1; simpl; [discriminate 2|].
  destruct t as [d|es]; [discriminate|].
  destruct (alist_get k es) as [x|] eqn:E; [|discriminate].
  destruct p as [|k' p'].
  - intros _ [= <-]. simpl. rewrite alist_get_del_same.
    eexists. split; [reflexivity|]. split.
    + simpl. now rewrite alist_get_set_same.
    + intros [|b q] Hd; [discriminate|]. simpl in Hd. simpl.
      destruct (String.eqb k b) eqn:Ekb; [destruct q; discriminate|].
      apply String.eqb_neq in Ekb. rewrite alist_get_set_other; auto.
  - destruct (prune (k' :: p') x) as [e|x'] eqn:Ex; [discriminate|].
    intros Hl [= <-].
    destruct (IH x x' Hl Ex) as [x2 [Hmk [Hl2 Hfr]]].
    rewrite alist_get_set_same. cbv beta iota. rewrite Hmk.
    eexists. split; [reflexivity|]. split.
    + rewrite alist_get_set_same. exact Hl2.
    + intros [|b q] Hd; [discriminate|]. cbn [lookup].
      destruct (String.eqb k b) eqn:Ekb.
      * apply String.eqb_eq in Ekb. subst b. rewrite !alist_get_set_same.
        now apply Hfr.
      * apply String.eqb_neq in Ekb. rewrite !alist_get_set_other; auto.
Qed.

(** The opening of [build_modpack] and of [copy_beta_to_release]: with
    nothing locked and no regular file at [p] or above it, the old tree at
    [p] goes, an empty directory is there instead, and nothing beside [p]
    changes. *)
Lemma reset_directory (p : pypath) (w : world) :
  Forall (fun s => plain s = true) p -> p <> [] ->
  locked w = [] -> file_on_path p (fs w) = false ->
  exists t2,
    lookup p t2 = Some (Dir [])
    /\ (forall q, disjointb p q = true -> lookup q t2 = lookup q (fs w))
    /\ (forall k : M unit,
          (found <- os_path_exists p ;;
           (if (found : bool) then shutil_rmtree p else ret tt) ;;
           os_makedirs p ;; k) w = k (with_fs t2 w))
    /\ (found <- os_path_exists p ;;
        (if (found : bool) then shutil_rmtree p else ret tt) ;;
        os_makedirs p) w = (Ok tt, with_fs t2 w).
Proof.
  intros Hp Hne Hlock Hfp.
  assert (exists t1 t2,
    (forall k : M unit,
       (found <- os_path_exists p ;;
        (if (found : bool) then shutil_rmtree p else ret tt) ;; k) w
       = k (with_fs t1 w))
    /\ makedirs_node p t1 = inr t2
    /\ lookup p t2 = Some (Dir [])
    /\ (forall q, disjointb p q = true -> lookup q t2 = lookup q (fs w)))
    as [t1 [t2 [Hstep [Hmk [Hl2 Hfr]]]]].
  { destruct (lookup p (fs w)) as [[data|es]|] eqn:Hl.
    - rewrite (file_on_path_file p (fs w) data Hl) in Hfp. discriminate.
    - destruct (shutil_rmtree_unlocked p w es Hp Hlock Hl Hne) as [t1 [Hpr Hrm]].
      destruct (prune_then_makedirs p (fs w) t1 _ Hl Hpr) as [t2 [Hmk [Hl2 Hfr]]].
      exists t1, t2. repeat split; auto.
      + intros k. rewrite (bind_ok _ _ w w true)
          by (rewrite (os_path_exists_plain p w Hp); unfold exists_at; now rewrite Hl).
        now rewrite (bind_ok _ _ _ _ _ Hrm).
      + intros q Hq. rewrite (Hfr q Hq). eapply prune_frame; eassumption.
    - destruct (makedirs_ok p (fs w) Hfp) as [t2 Hmk].
      exists (fs w), t2. repeat split; auto.
      + intros k. rewrite (bind_ok _ _ w w false)
          by (rewrite (os_path_exists_plain p w Hp); unfold exists_at; now rewrite Hl).
        rewrite with_fs_id. reflexivity.
      + eapply makedirs_fresh; eassumption.
      + intros q Hq. eapply makedirs_frame; eassumption. }
  exists t2. repeat split; auto.
  - intros k. rewrite Hstep.
    now rewrite (bind_ok _ _ _ _ _ (os_makedirs_plain p (with_fs t1 w) t2 Hp Hmk)).
  - rewrite Hstep. exact (os_makedirs_plain p (with_fs t1 w) t2 Hp Hmk).
Qed.

(** X2. [build_modpack], lines 201-204: with nothing locked and no regular
    file at the output path or above it, the clean-up returns normally,
    the output path is then an empty directory whatever was there, and
    nothing beside the output path has changed. *)
Theorem build_clean_resets (output_path : pypath) (w : world) :
  Forall (fun s => plain s = true) output_path ->
  output_path <> [] ->
  locked w = [] ->
  file_on_path output_path (fs w) = false ->
  let r := build_clean output_path w in
  fst r = Ok tt
  /\ lookup output_path (fs (snd r)) = Some (Dir [])
  /\ (forall q, disjointb output_path q = true ->
        lookup q (fs (snd r)) = lookup q (fs w)).
Proof.
  intros Hp Hne Hlock Hfp. cbv zeta.
  destruct (reset_directory output_path w Hp Hne Hlock Hfp) as [t2 [Hl [Hfr [_ Hrun]]]].
  unfold build_clean. rewrite Hrun. simpl. auto.
Qed.

Lemma build_clean_resets_witness :
  let w := world_of (Dir [("beta", Dir [("forge", Dir [("stale.jar", regular "old")])]);
                          ("mod", Dir [("a", regular "1")])]) in
  let r := build_clean ["beta"; "forge"] w in
  fst r = Ok tt
  /\ lookup ["beta"; "forge"] (fs (snd r)) = Some (Dir [])
  /\ (forall q, disjointb ["beta"; "forge"] q = true ->
        lookup q (fs (snd r)) = lookup q (fs w)).
Proof.
  intros w.
  apply (build_clean_resets ["beta"; "forge"] w); try reflexivity.
  - repeat constructor.
  - discriminate.
Defined.

(** ** Promoting beta to release *)

(** X3. [copy_beta_to_release]: with a beta directory, nothing locked, on a
    well-formed tree within the recursion limit and with no regular file
    at the release path or above it, the promotion returns normally; the
    release directory then holds the beta tree itself, without the entry
    [lastVersion.txt] when that is a regular file, and nothing of an
    earlier release; the beta directory is as it was. *)
Theorem promote_copies_beta (SCRIPT_DIR : pypath) (limit : nat) (w : world)
    (es : entries) :
  Forall (fun s => plain s = true) SCRIPT_DIR ->
  locked w = [] ->
  wf_node (fs w) = true ->
  height (fs w) <= limit ->
  lookup (SCRIPT_DIR ++ ["beta"]) (fs w) = Some (Dir es) ->
  file_on_path (SCRIPT_DIR ++ ["release"]) (fs w) = false ->
  let r := copy_beta_to_release SCRIPT_DIR limit w in
  fst r = Ok tt
  /\ lookup (SCRIPT_DIR ++ ["release"]) (fs (snd r)) =
     Some (Dir match alist_get "lastVersion.txt" es with
               | Some (File _) => alist_del "lastVersion.txt" es
               | _ => es
               end)
  /\ lookup (SCRIPT_DIR ++ ["beta"]) (fs (snd r)) = Some (Dir es).
Proof.
  intros Hp Hlock Hwf Hh Hbeta Hfp. cbv zeta.
  unfold copy_beta_to_release.
  rewrite (os_path_join_plain SCRIPT_DIR "beta" eq_refl).
  rewrite (os_path_join_plain SCRIPT_DIR "release" eq_refl).
  set (beta := SCRIPT_DIR ++ ["beta"]) in *.
  set (release := SCRIPT_DIR ++ ["release"]) in *.
  assert (Forall (fun s => plain s = true) release) as Hpr by (apply plain_app; auto).
  assert (Forall (fun s => plain s = true) beta) as Hpb by (apply plain_app; auto).
  assert (release <> []) as Hne by (unfold release; now destruct SCRIPT_DIR).
  assert (disjointb beta release = true) as Hdis by (apply disjointb_prefix; reflexivity).
  assert (disjointb release beta = true) as Hdis' by (now rewrite disjointb_sym).
  assert (wf_node (Dir es) = true) as Hwfb by (eapply wf_lookup; eassumption).
  destruct (wf_node_dir es Hwfb) as [Hpl [Hnd Hwfe]].
  destruct (reset_directory release w Hpr Hne Hlock Hfp) as [t2 [Hr2 [Hfr2 [Hstep _]]]].
  rewrite Hstep.
  assert (lookup beta t2 = Some (Dir es)) as Hb2 by (now rewrite (Hfr2 beta Hdis')).
  rewrite (bind_ok _ _ _ _ _ (os_listdir_plain beta (with_fs t2 w) es Hpb Hb2)).
  set (t3 := graft release (Dir es) t2).
  assert (for_each (map fst es) (fun item =>
            isd <- os_path_isdir (os_path_join beta item) ;;
            if (isd : bool)
            then shutil_copytree limit (os_path_join beta item) (os_path_join release item)
            else shutil_copy2 (os_path_join beta item) (os_path_join release item))
            (with_fs t2 w) = (Ok tt, with_fs t3 w)) as Hloop.
  { rewrite (cdc_loop_refine limit beta release es Hpb Hpr Hdis (with_fs t2 w) []).
    - now rewrite (overlay_all_fresh es Hwfe [] Hnd).
    - intros m s Hin. simpl fs. repeat split.
      + rewrite (lookup_child beta m t2 es Hb2). now apply nodup_get.
      + eapply Hwfe; eassumption.
      + pose proof (height_entry m s es Hin).
        pose proof (height_lookup beta (fs w) _ Hbeta). lia.
      + rewrite Forall_forall in Hpl. apply Hpl.
        change m with (fst (m, s)). now apply in_map.
    - exact Hr2. }
  rewrite (bind_ok _ _ _ _ _ Hloop).
  rewrite (os_path_join_plain release "lastVersion.txt" eq_refl).
  set (marker := release ++ ["lastVersion.txt"]).
  assert (Forall (fun s => plain s = true) marker) as Hpm by (apply plain_app; auto).
  assert (lookup release t3 = Some (Dir es)) as Hr3
    by (eapply graft_lookup; eassumption).
  assert (lookup beta t3 = Some (Dir es)) as Hb3.
  { unfold t3. now rewrite (lookup_graft_disjoint release beta _ t2 _ Hr2 Hdis'). }
  assert (lookup marker t3 = alist_get "lastVersion.txt" es) as Hm3
    by (apply lookup_child; exact Hr3).
  destruct (alist_get "lastVersion.txt" es) as [[data|c]|] eqn:Em.
  - rewrite (bind_ok _ _ (with_fs t3 w) (with_fs t3 w) true)
      by (rewrite (os_path_exists_plain marker _ Hpm); unfold exists_at; simpl fs;
          now rewrite Hm3).
    destruct (os_remove_unlocked marker (with_fs t3 w) data Hpm Hlock)
      as [t4 [Hpr4 Hrm]]; [exact Hm3|unfold marker; now destruct release|].
    change (fs (with_fs t3 w)) with t3 in Hpr4.
    unfold try_except. rewrite Hrm. cbn [fst snd with_fs fs]. repeat split.
    + eapply prune_parent; eassumption.
    + rewrite (prune_frame marker beta t3 t4 Hpr4); [exact Hb3|].
      unfold marker. rewrite <- (app_nil_r beta). now apply disjointb_app.
  - rewrite (bind_ok _ _ (with_fs t3 w) (with_fs t3 w) true)
      by (rewrite (os_path_exists_plain marker _ Hpm); unfold exists_at; simpl fs;
          now rewrite Hm3).
    assert (os_remove marker (with_fs t3 w) = (Raise IsADirectoryError, with_fs t3 w))
      as Hrm.
    { unfold os_remove. cbn [fs with_fs]. now rewrite (resolve_plain t3 marker Hpm), Hm3. }
    unfold try_except. rewrite Hrm. cbn [is_Exception print fst snd with_fs fs]. auto.
  - rewrite (bind_ok _ _ (with_fs t3 w) (with_fs t3 w) false)
      by (rewrite (os_path_exists_plain marker _ Hpm); unfold exists_at; simpl fs;
          now rewrite Hm3).
    cbn [ret fst snd with_fs fs]. auto.
Qed.

Lemma promote_copies_beta_witness :
  let es := [("lastVersion.txt", regular "3.2.0");
             ("forge", Dir [("1.20.1", Dir [("giga", Dir [("pack.toml", regular "p")])])])] in
  let w := world_of (Dir [("home", Dir [("beta", Dir es);
                                        ("release", Dir [("old", regular "stale")])])]) in
  let r := copy_beta_to_release ["home"] 8 w in
  fst r = Ok tt
  /\ lookup (["home"] ++ ["release"]) (fs (snd r)) =
     Some (Dir match alist_get "lastVersion.txt" es with
               | Some (File _) => alist_del "lastVersion.txt" es
               | _ => es
               end)
  /\ lookup (["home"] ++ ["beta"]) (fs (snd r)) = Some (Dir es).
Proof.
  intros es w.
  apply (promote_copies_beta ["home"] 8 w es); try reflexivity.
  - repeat constructor.
  - vm_compute. lia.
Defined.

(** ** Stamping, whatever the file *)

Lemma graft_file_preserved (p : path) (data out : file) (t : node) :
  lookup p t = Some (File data) -> preserved t (graft p (File out) t).
Proof.
  revert t. induction p as [|k p IH]; intros t; simpl.
  - intros [= ->]. apply preserved_file.
  - destruct t as [|es]; [discriminate|].
    destruct (alist_get k es) as [x|] eqn:E; [|discriminate].
    intros Hl. rewrite (graft_cons k p _ es x _ E Hl).
    eapply preserved_set_child; [exact E|]. now apply IH.
Qed.

Lemma write_back_preserved (p : path) (data out : file) (t : node) :
  lookup p t = Some (File data) ->
  preserved t (graft p (File out) t) /\ preserved (graft p (File out) t) t.
Proof.
  intros Hl. split.
  - eapply graft_file_preserved; eassumption.
  - pose proof (graft_file_preserved p out data (graft p (File out) t)
                  (graft_lookup p _ t _ Hl)) as H.
    rewrite (graft_graft p _ _ t _ Hl), (graft_id p t _ Hl) in H. exact H.
Qed.

(** X4. [replace_in_file] returns normally on every input, and it neither
    makes nor removes an entry: what was a file is a file afterwards, what
    was a directory is a directory, and nothing else is there. *)
Theorem stamping_never_raises (file_path : pypath) (old_text new_text : string)
    (w : world) :
  let r := replace_in_file file_path old_text new_text w in
  fst r = Ok tt
  /\ preserved (fs w) (fs (snd r))
  /\ preserved (fs (snd r)) (fs w).
Proof.
  cbv zeta. unfold replace_in_file, bind, os_path_exists, try_except, read_text,
    write_text, fs_step, read_node, ret, print.
  destruct (resolve (fs w) file_path) as [p|] eqn:Hr; simpl;
    [|repeat split; apply preserved_refl].
  destruct (exists_at p (fs w)); simpl; [|repeat split; apply preserved_refl].
  rewrite Hr.
  destruct (lookup p (fs w)) as [[data|es]|] eqn:Hl; simpl;
    try (repeat split; apply preserved_refl).
  destruct (utf8_valid (content data)); simpl;
    [|repeat split; apply preserved_refl].
  rewrite Hr.
  destruct (writable data) eqn:Hw.
  - rewrite (write_node_file p data _ (fs w) Hl Hw). simpl.
    destruct (write_back_preserved p data
                (mkFile true
                   (str_replace old_text new_text (universal_newlines (content data))))
                (fs w) Hl).
    repeat split; assumption.
  - rewrite (write_node_read_only p data _ (fs w) Hl Hw). simpl.
    repeat split; apply preserved_refl.
Qed.

(** What one stamping does to the tree, for a path of plain components. *)
Lemma replace_in_file_effect (p : pypath) (old_text new_text : string) (w : world) :
  Forall (fun s => plain s = true) p ->
  fst (replace_in_file p old_text new_text w) = Ok tt
  /\ locked (snd (replace_in_file p old_text new_text w)) = locked w
  /\ (forall q, disjointb p q = true ->
        lookup q (fs (snd (replace_in_file p old_text new_text w))) = lookup q (fs w))
  /\ (forall data, lookup p (fs w) = Some (File data) ->
        lookup p (fs (snd (replace_in_file p old_text new_text w))) =
        Some (File (if writable data && utf8_valid (content data)
                    then mkFile true
                           (str_replace old_text new_text
                              (universal_newlines (content data)))
                    else data))).
Proof.
  intros Hp. unfold replace_in_file.
  rewrite (bind_ok _ _ _ _ _ (os_path_exists_plain p w Hp)). unfold exists_at.
  destruct (lookup p (fs w)) as [[data|es]|] eqn:Hl.
  - unfold try_except.
    destruct (utf8_valid (content data)) eqn:Hv.
    + rewrite (bind_ok _ _ w w (universal_newlines (content data)))
        by (unfold read_text, read_node; now rewrite (resolve_plain _ _ Hp), Hl, Hv).
      unfold write_text, fs_step. rewrite (resolve_plain _ _ Hp).
      destruct (writable data) eqn:Hw.
      * rewrite (write_node_file p data _ (fs w) Hl Hw). cbn [fst snd fs with_fs locked].
        repeat split.
        -- intros q Hq. eapply lookup_graft_disjoint; eassumption.
        -- intros data' [= <-]. rewrite Hw, Hv. eapply graft_lookup; eassumption.
      * rewrite (write_node_read_only p data _ (fs w) Hl Hw).
        cbn [is_Exception print fst snd fs locked]. repeat split.
        intros data' [= <-]. now rewrite Hw.
    + rewrite (bind_raise _ _ w w UnicodeDecodeError)
        by (unfold read_text, read_node; now rewrite (resolve_plain _ _ Hp), Hl, Hv).
      cbn [is_Exception print fst snd fs locked]. repeat split.
      intros data' [= <-]. now rewrite Hv, andb_false_r.
  - unfold try_except.
    rewrite (bind_raise _ _ w w IsADirectoryError)
      by (unfold read_text, read_node; now rewrite (resolve_plain _ _ Hp), Hl).
    cbn [is_Exception print fst snd fs locked]. repeat split. discriminate.
  - cbn [ret fst snd]. repeat split. discriminate.
Qed.

(** X5. [build_modpack], lines 242-250: the stamping of a build returns
    normally whatever the targets are, and what it does to each target
    does not depend on what became of the others (missing, a directory,
    not stamped): a target that is a regular file holding UTF-8 and open
    to writing has the version in place of every [noVersion] afterwards,
    a target that is a regular file of another sort is left as it is.
    The targets are [pack.toml] and [config/bcc-common.toml] for every
    variant and the [en_us.local] file for nano and giga; for any other
    variant that file is left as it was. *)
Theorem stamps_are_independent (modpacktype : string) (output_path : pypath)
    (selected_version : string) (w : world) :
  Forall (fun s => plain s = true) output_path ->
  let pack := output_path ++ ["pack.toml"] in
  let bcc := output_path ++ ["config"; "bcc-common.toml"] in
  let locale :=
    output_path ++ ["config"; "fancymenu"; "custom_locals"; "mod"; "en_us.local"] in
  let r := build_stamp modpacktype output_path selected_version w in
  let stamp (data : file) :=
    if writable data && utf8_valid (content data)
    then mkFile true
           (str_replace "noVersion" selected_version (universal_newlines (content data)))
    else data in
  let stamped (target : path) :=
    forall data, lookup target (fs w) = Some (File data) ->
      lookup target (fs (snd r)) = Some (File (stamp data)) in
  fst r = Ok tt
  /\ stamped pack
  /\ stamped bcc
  /\ (modpacktype = "nano" \/ modpacktype = "giga" -> stamped locale)
  /\ (modpacktype <> "nano" -> modpacktype <> "giga" ->
      lookup locale (fs (snd r)) = lookup locale (fs w)).
Proof.
  intros Hpo pack bcc locale. cbv zeta.
  assert (Forall (fun s => plain s = true) pack) as Hp1
    by (apply Forall_app; split; [assumption|repeat constructor]).
  assert (Forall (fun s => plain s = true) bcc) as Hp2
    by (apply Forall_app; split; [assumption|repeat constructor]).
  assert (Forall (fun s => plain s = true) locale) as Hp3
    by (apply Forall_app; split; [assumption|repeat constructor]).
  assert (disjointb pack bcc = true) as D12 by (apply disjointb_prefix; reflexivity).
  assert (disjointb pack locale = true) as D13 by (apply disjointb_prefix; reflexivity).
  assert (disjointb bcc pack = true) as D21 by (apply disjointb_prefix; reflexivity).
  assert (disjointb bcc locale = true) as D23 by (apply disjointb_prefix; reflexivity).
  assert (disjointb locale pack = true) as D31 by (apply disjointb_prefix; reflexivity).
  assert (disjointb locale bcc = true) as D32 by (apply disjointb_prefix; reflexivity).
  assert (is_nano_or_giga modpacktype = true <->
          (modpacktype = "nano" \/ modpacktype = "giga")) as Hng.
  { unfold is_nano_or_giga. rewrite orb_true_iff, !String.eqb_eq. tauto. }
  unfold build_stamp.
  rewrite (os_path_join_plain output_path "pack.toml" eq_refl).
  rewrite !join_all_plain by (repeat constructor).
  fold pack bcc locale.
  destruct (replace_in_file_effect pack "noVersion" selected_version w Hp1)
    as [R1 [_ [F1 S1]]].
  destruct (replace_in_file pack "noVersion" selected_version w) as [r1 w1] eqn:E1.
  cbn [fst snd] in R1, F1, S1. subst r1.
  rewrite (bind_ok _ _ _ _ _ E1).
  destruct (replace_in_file_effect bcc "noVersion" selected_version w1 Hp2)
    as [R2 [_ [F2 S2]]].
  destruct (replace_in_file bcc "noVersion" selected_version w1) as [r2 w2] eqn:E2.
  cbn [fst snd] in R2, F2, S2. subst r2.
  rewrite (bind_ok _ _ _ _ _ E2).
  destruct (is_nano_or_giga modpacktype) eqn:Eng.
  - destruct (replace_in_file_effect locale "noVersion" selected_version w2 Hp3)
      as [R3 [_ [F3 S3]]].
    destruct (replace_in_file locale "noVersion" selected_version w2) as [r3 w3] eqn:E3.
    cbn [fst snd] in *. subst r3. split; [reflexivity|]. split; [|split; [|split]].
    + intros data Hd. rewrite (F3 pack D31), (F2 pack D21). now apply S1.
    + intros data Hd. rewrite (F3 bcc D32). apply S2. now rewrite (F1 bcc D12).
    + intros _ data Hd. apply S3. now rewrite (F2 locale D23), (F1 locale D13).
    + intros Hn Hg. destruct (proj1 Hng eq_refl); contradiction.
  - cbn [ret fst snd]. split; [reflexivity|]. split; [|split; [|split]].
    + intros data Hd. rewrite (F2 pack D21). now apply S1.
    + intros data Hd. apply S2. now rewrite (F1 bcc D12).
    + intros H. apply Hng in H. discriminate.
    + intros _ _. now rewrite (F2 locale D23), (F1 locale D13).
Qed.

Lemma stamps_are_independent_witness :
  let locale := ["out"; "config"; "fancymenu"; "custom_locals"; "mod"; "en_us.local"] in
  let w :=
    world_of
      (Dir [("out",
         Dir [("pack.toml", Dir []);
              ("config",
               Dir [("bcc-common.toml", read_only "v = noVersion");
                    ("fancymenu", Dir [("custom_locals", Dir [("mod",
                       Dir [("en_us.local", regular "title = noVersion")])])])])])]) in
  let r := build_stamp "giga" ["out"] "3.2.0" w in
  fst r = Ok tt
  /\ lookup ["out"; "config"; "bcc-common.toml"] (fs (snd r))
     = Some (read_only "v = noVersion")
  /\ lookup locale (fs (snd r)) = Some (regular "title = 3.2.0").
Proof.
  intros locale w.
  destruct (stamps_are_independent "giga" ["out"] "3.2.0" w) as [Hr [_ [Hb [Hl _]]]].
  - repeat constructor.
  - split; [exact Hr|]. split.
    + exact (Hb (mkFile false "v = noVersion") eq_refl).
    + exact (Hl (or_intror eq_refl) (mkFile true "title = noVersion") eq_refl).
Defined.

(** ** The packwiz refresh *)

(** X6. [build_modpack], lines 252-257: in an output directory that exists,
    packwiz is called once.  When it runs, the refresh returns normally
    whatever the exit status, and a status other than zero is reported
    with one line.  When it cannot be started the error is not caught and
    goes to the caller as the host gives it: [FileNotFoundError] when
    there is no such program, [PermissionError] when the program may not
    be executed. *)
Theorem refresh_reports_exit_status (spawn : command) (output_path : pypath)
    (w : world) :
  Forall (fun s => plain s = true) output_path ->
  is_dir_at output_path (fs w) = true ->
  let argv := ["packwiz"; "refresh"; "--build"] in
  let announced := stdout w ++ ["Refreshing modpack using packwiz..."] in
  let called := spawned w ++ [(argv, output_path)] in
  match spawn argv output_path (fs w) with
  | Exited code t' =>
      build_refresh spawn output_path w =
      (Ok tt,
       mkWorld t' (locked w) called
         (announced ++ if Nat.eqb code 0 then []
                       else ["Error refreshing modpack with packwiz."]))
  | NotStarted e =>
      build_refresh spawn output_path w =
      (Raise match e with
             | ENOENT => FileNotFoundError
             | EACCES => PermissionError
             | ENOTDIR => NotADirectoryError
             | ENOEXEC => OSError
             end,
       mkWorld (fs w) (locked w) called announced)
  end.
Proof.
  intros Hp Hd. cbv zeta. unfold is_dir_at in Hd.
  destruct (lookup output_path (fs w)) as [[d|es]|] eqn:Hl; try discriminate.
  unfold build_refresh, bind, print, try_except, subprocess_run. cbn [fs locked spawned stdout].
  rewrite (resolve_plain (fs w) output_path Hp), Hl.
  destruct (spawn ["packwiz"; "refresh"; "--build"] output_path (fs w))
    as [code t'|e].
  - destruct (Nat.eqb code 0); cbn; [now rewrite app_nil_r|reflexivity].
  - destruct e; reflexivity.
Qed.

Lemma refresh_reports_exit_status_witness :
  let w := world_of (Dir [("out", Dir [("pack.toml", regular "p")])]) in
  build_refresh no_permission ["out"] w =
  (Raise PermissionError,
   mkWorld (fs w) [] [(["packwiz"; "refresh"; "--build"], ["out"])]
     ["Refreshing modpack using packwiz..."]).
Proof.
  intros w.
  apply (refresh_reports_exit_status no_permission ["out"] w).
  - repeat constructor.
  - reflexivity.
Defined.

(** ** Files against directories in a merge *)

Lemma lookup_child_inv (dp : path) (k : string) (t x : node) :
  lookup (dp ++ [k]) t = Some x ->
  exists d, lookup dp t = Some (Dir d) /\ alist_get k d = Some x.
Proof.
  rewrite lookup_app. destruct (lookup dp t) as [[data|d]|]; simpl; try discriminate.
  intros H. exists d. split; [reflexivity|].
  destruct (alist_get k d); [assumption|discriminate].
Qed.

Lemma overlay_all_entries (l : entries) :
  NoDup (map fst l) ->
  forall d k s, In (k, s) l ->
    alist_get k (snd (overlay_all l d)) = alist_get k d
    \/ alist_get k (snd (overlay_all l d)) = snd (overlay s k (alist_get k d)).
Proof.
  induction l as [|[m s0] rest IH]; intros Hnd d k s Hin; [destruct Hin|].
  inversion Hnd as [|? ? Hm Hrest]; subst. simpl overlay_all.
  pose proof (overlay_upd_get s0 m d) as Hget.
  destruct (overlay s0 m (alist_get m d)) as [r v] eqn:E. simpl snd in Hget.
  destruct Hin as [Heq|Hin].
  - injection Heq as <- <-. right. rewrite E. simpl snd.
    destruct r as [[]|e]; simpl snd; [|exact Hget].
    now rewrite overlay_all_get_other.
  - assert (k <> m) as Hkm.
    { intros ->. apply Hm. change m with (fst (m, s)). now apply in_map. }
    destruct r as [[]|e]; simpl snd.
    + destruct (IH Hrest (upd m v d) k s Hin) as [H|H]; rewrite H;
        rewrite (alist_get_upd_other k m v d Hkm); auto.
    + left. now apply alist_get_upd_other.
Qed.

Lemma overlay_all_ok_entries (l : entries) :
  NoDup (map fst l) ->
  forall d, fst (overlay_all l d) = Ok tt ->
  forall k s, In (k, s) l ->
    fst (overlay s k (alist_get k d)) = Ok tt
    /\ alist_get k (snd (overlay_all l d)) = snd (overlay s k (alist_get k d)).
Proof.
  induction l as [|[m s0] rest IH]; intros Hnd d Hok k s Hin; [destruct Hin|].
  inversion Hnd as [|? ? Hm Hrest]; subst. simpl overlay_all in *.
  pose proof (overlay_upd_get s0 m d) as Hget.
  destruct (overlay s0 m (alist_get m d)) as [r v] eqn:E. simpl snd in Hget.
  destruct r as [[]|e]; [|discriminate].
  destruct Hin as [Heq|Hin].
  - injection Heq as <- <-. rewrite E. simpl. split; [reflexivity|].
    now rewrite overlay_all_get_other.
  - assert (k <> m) as Hkm.
    { intros ->. apply Hm. change m with (fst (m, s)). now apply in_map. }
    destruct (IH Hrest (upd m v d) Hok k s Hin) as [H1 H2].
    rewrite (alist_get_upd_other k m v d Hkm) in H1, H2. auto.
Qed.

(** X7. [copy_directory_contents], line 161: a file of the source whose name
    is a directory in the destination does not replace that directory; in
    a merge that returns normally it has been copied into it, under its
    own name. *)
Theorem file_lands_in_directory (limit : nat) (src dest : pypath) (w : world)
    (k : string) (data : file) (c : entries) :
  Forall (fun s => plain s = true) src ->
  Forall (fun s => plain s = true) dest ->
  disjointb src dest = true ->
  wf_node (fs w) = true ->
  height (fs w) <= limit ->
  lookup (src ++ [k]) (fs w) = Some (File data) ->
  lookup (dest ++ [k]) (fs w) = Some (Dir c) ->
  let r := copy_directory_contents limit src dest w in
  fst r = Ok tt ->
  lookup (dest ++ [k]) (fs (snd r)) = Some (Dir (alist_set k (File data) c)).
Proof.
  intros Hps Hpd Hdis Hwf Hh Hsk Hdk. cbv zeta.
  destruct (lookup_child_inv src k _ _ Hsk) as [es [Hs Hes]].
  destruct (lookup_child_inv dest k _ _ Hdk) as [d [Hd Hdd]].
  assert (wf_node (Dir es) = true) as Hwfs by (eapply wf_lookup; eassumption).
  assert (height (Dir es) <= S limit) as Hhs
    by (pose proof (height_lookup src (fs w) _ Hs); lia).
  destruct (wf_node_dir es Hwfs) as [_ [Hnd _]].
  rewrite (cdc_refine limit src dest w es d (fs w) Hps Hpd Hdis Hs Hwfs Hhs
             (makedirs_existing dest (fs w) d Hd) Hd).
  cbn [fst snd fs with_fs]. intros Hok.
  destruct (overlay_all_ok_entries es Hnd d Hok k (File data) (alist_get_in _ _ _ Hes))
    as [H1 H2].
  rewrite Hdd in H1, H2. simpl in H1, H2.
  rewrite (lookup_child dest k _ (snd (overlay_all es d)))
    by (eapply graft_lookup; eassumption).
  rewrite H2. destruct (alist_get k c) as [[old|]|]; simpl in *; try reflexivity.
  - destruct (writable old); simpl in *; [reflexivity|discriminate].
  - discriminate.
Qed.

Lemma file_lands_in_directory_witness :
  let w := world_of (Dir [("mod", Dir [("x", regular "new")]);
                          ("out", Dir [("x", Dir [("y", regular "kept")])])]) in
  lookup (["out"] ++ ["x"]) (fs (snd (copy_directory_contents 4 ["mod"] ["out"] w))) =
  Some (Dir (alist_set "x" (regular "new") [("y", regular "kept")])).
Proof.
  intros w.
  apply (file_lands_in_directory 4 ["mod"] ["out"] w "x" (mkFile true "new")
           [("y", regular "kept")]);
    try reflexivity.
  - repeat constructor.
  - repeat constructor.
  - vm_compute. lia.
Defined.

(** X8. [copy_directory_contents], line 159: a directory of the source whose
    name is a regular file in the destination makes the merge raise, and
    the file stays as it is. *)
Theorem directory_over_file_raises (limit : nat) (src dest : pypath) (w : world)
    (k : string) (data : file) (sub : entries) :
  Forall (fun s => plain s = true) src ->
  Forall (fun s => plain s = true) dest ->
  disjointb src dest = true ->
  wf_node (fs w) = true ->
  height (fs w) <= limit ->
  lookup (src ++ [k]) (fs w) = Some (Dir sub) ->
  lookup (dest ++ [k]) (fs w) = Some (File data) ->
  let r := copy_directory_contents limit src dest w in
  fst r <> Ok tt
  /\ lookup (dest ++ [k]) (fs (snd r)) = Some (File data).
Proof.
  intros Hps Hpd Hdis Hwf Hh Hsk Hdk. cbv zeta.
  destruct (lookup_child_inv src k _ _ Hsk) as [es [Hs Hes]].
  destruct (lookup_child_inv dest k _ _ Hdk) as [d [Hd Hdd]].
  assert (wf_node (Dir es) = true) as Hwfs by (eapply wf_lookup; eassumption).
  assert (height (Dir es) <= S limit) as Hhs
    by (pose proof (height_lookup src (fs w) _ Hs); lia).
  destruct (wf_node_dir es Hwfs) as [_ [Hnd _]].
  rewrite (cdc_refine limit src dest w es d (fs w) Hps Hpd Hdis Hs Hwfs Hhs
             (makedirs_existing dest (fs w) d Hd) Hd).
  cbn [fst snd fs with_fs]. split.
  - intros Hok.
    destruct (overlay_all_ok_entries es Hnd d Hok k (Dir sub) (alist_get_in _ _ _ Hes))
      as [H1 _].
    rewrite Hdd in H1. simpl in H1. discriminate.
  - rewrite (lookup_child dest k _ (snd (overlay_all es d)))
      by (eapply graft_lookup; eassumption).
    destruct (overlay_all_entries es Hnd d k (Dir sub) (alist_get_in _ _ _ Hes))
      as [H|H]; rewrite H, Hdd; reflexivity.
Qed.

Lemma directory_over_file_raises_witness :
  let w := world_of (Dir [("mod", Dir [("a", regular "1"); ("x", Dir [("y", regular "2")])]);
                          ("out", Dir [("x", regular "kept")])]) in
  let r := copy_directory_contents 4 ["mod"] ["out"] w in
  fst r <> Ok tt
  /\ lookup (["out"] ++ ["x"]) (fs (snd r)) = Some (regular "kept").
Proof.
  intros w.
  apply (directory_over_file_raises 4 ["mod"] ["out"] w "x" (mkFile true "kept")
           [("y", regular "2")]);
    try reflexivity.
  - repeat constructor.
  - repeat constructor.
  - vm_compute. lia.
Defined.

(** X9. [copy_directory_contents], lines 151-155: a source that is a regular
    file passes the existence test; the destination directory is made,
    and then listing the source raises [NotADirectoryError]. *)
Theorem merge_of_a_file_raises (limit : nat) (src dest : pypath) (w : world)
    (data : file) :
  Forall (fun s => plain s = true) src ->
  Forall (fun s => plain s = true) dest ->
  disjointb src dest = true ->
  lookup src (fs w) = Some (File data) ->
  file_on_path dest (fs w) = false ->
  let r := copy_directory_contents limit src dest w in
  fst r = Raise NotADirectoryError
  /\ is_dir_at dest (fs (snd r)) = true
  /\ lookup src (fs (snd r)) = Some (File data).
Proof.
  intros Hps Hpd Hdis Hs Hfp. cbv zeta.
  destruct (makedirs_ok dest (fs w) Hfp) as [t1 Hmk].
  destruct (makedirs_lookup dest (fs w) t1 Hmk) as [c Hc].
  assert (lookup src t1 = Some (File data)) as Hs1.
  { rewrite (makedirs_frame dest src (fs w) t1 Hmk); auto. now rewrite disjointb_sym. }
  unfold copy_directory_contents.
  rewrite (bind_ok _ _ w w true)
    by (rewrite (os_path_exists_plain src w Hps); unfold exists_at; now rewrite Hs).
  cbn [negb].
  rewrite (bind_ok _ _ w _ tt (os_makedirs_plain dest w t1 Hpd Hmk)).
  rewrite (bind_raise _ _ (with_fs t1 w) (with_fs t1 w) NotADirectoryError)
    by (unfold os_listdir; cbn [fs with_fs]; now rewrite (resolve_plain t1 src Hps), Hs1).
  cbn [fst snd fs with_fs]. unfold is_dir_at. rewrite Hc. auto.
Qed.

Lemma merge_of_a_file_raises_witness :
  let w := world_of (Dir [("mod", regular "not a directory")]) in
  let r := copy_directory_contents 4 ["mod"] ["beta"; "out"] w in
  fst r = Raise NotADirectoryError
  /\ is_dir_at ["beta"; "out"] (fs (snd r)) = true
  /\ lookup ["mod"] (fs (snd r)) = Some (regular "not a directory").
Proof.
  intros w.
  apply (merge_of_a_file_raises 4 ["mod"] ["beta"; "out"] w
           (mkFile true "not a directory"));
    try reflexivity.
  - repeat constructor.
  - repeat constructor.
Defined.

(** ** White space at the ends of a text *)

Lemma space1_bound (a : ascii) : space1 a = true -> nat_of_ascii a <= 32.
Proof.
  unfold space1, byte_in. rewrite orb_true_iff, !andb_true_iff, !Nat.leb_le. lia.
Qed.

Lemma continuation_bound (b : ascii) :
  is_continuation b = true <-> 128 <= nat_of_ascii b <= 191.
Proof.
  unfold is_continuation, byte_in. rewrite andb_true_iff, !Nat.leb_le. tauto.
Qed.

Lemma byte_is_true (n : nat) (a : ascii) : byte_is n a = true <-> nat_of_ascii a = n.
Proof. unfold byte_is. apply Nat.eqb_eq. Qed.

Lemma space2_bound (a b : ascii) :
  space2 a b = true -> nat_of_ascii a = 194 /\ is_continuation b = true.
Proof.
  unfold space2. rewrite andb_true_iff, orb_true_iff, !byte_is_true, continuation_bound.
  lia.
Qed.

Lemma space3_bound (a b c : ascii) :
  space3 a b c = true ->
  225 <= nat_of_ascii a <= 227 /\ second_of_three a b = true
  /\ is_continuation b = true /\ is_continuation c = true.
Proof.
  unfold space3, second_of_three, is_continuation, byte_in, byte_is.
  repeat rewrite ?orb_true_iff, ?andb_true_iff, ?Nat.eqb_eq, ?Nat.leb_le.
  intros [[[[[Ha Hb] Hc] | [[Ha Hb] Hc]] | [[Ha Hb] Hc]] | [[Ha Hb] Hc]];
    (split; [lia|split; [|lia]]); left; left; right; lia.
Qed.

(** A text that begins in the middle of a character, or with a character
    that is no white space, is its own [lstrip]. *)
Lemma lstrip_high (a : ascii) (r : string) :
  33 <= nat_of_ascii a -> nat_of_ascii a <> 194 ->
  ~ (225 <= nat_of_ascii a <= 227) ->
  lstrip (String a r) = String a r.
Proof.
  intros H1 H2 H3. cbn [lstrip].
  destruct (space1 a) eqn:E1; [apply space1_bound in E1; lia|].
  destruct r as [|b r2]; [reflexivity|].
  destruct (space2 a b) eqn:E2; [apply space2_bound in E2; lia|].
  destruct r2 as [|c r3]; [reflexivity|].
  destruct (space3 a b c) eqn:E3; [apply space3_bound in E3; lia|].
  reflexivity.
Qed.

Lemma lstrip_continuation (b : ascii) (r : string) :
  is_continuation b = true -> lstrip (String b r) = String b r.
Proof.
  intros H. apply continuation_bound in H. apply lstrip_high; lia.
Qed.

Lemma rstrip_continuation (b : ascii) (r : string) :
  is_continuation b = true -> rstrip (String b r) = String b (rstrip r).
Proof.
  intros H. cbn [rstrip]. now rewrite (lstrip_continuation b r H).
Qed.

Lemma lstrip_space1 (a : ascii) (r : string) :
  space1 a = true -> lstrip (String a r) = lstrip r.
Proof. intros H. cbn [lstrip]. now rewrite H. Qed.

Lemma lstrip_space2 (a b : ascii) (r : string) :
  space2 a b = true -> lstrip (String a (String b r)) = lstrip r.
Proof.
  intros H. cbn [lstrip].
  destruct (space1 a) eqn:E1;
    [apply space1_bound in E1; apply space2_bound in H; lia|].
  now rewrite H.
Qed.

Lemma lstrip_space3 (a b c : ascii) (r : string) :
  space3 a b c = true -> lstrip (String a (String b (String c r))) = lstrip r.
Proof.
  intros H. cbn [lstrip].
  destruct (space1 a) eqn:E1;
    [apply space1_bound in E1; apply space3_bound in H; lia|].
  destruct (space2 a b) eqn:E2;
    [apply space2_bound in E2; apply space3_bound in H; lia|].
  now rewrite H.
Qed.

(** A text keeps its first character when that is no white space. *)
Lemma lstrip_keeps (a : ascii) (r1 : string) :
  space1 a = false ->
  (forall b r2, r1 = String b r2 -> space2 a b = false) ->
  (forall b c r3, r1 = String b (String c r3) -> space3 a b c = false) ->
  lstrip (String a r1) = String a r1.
Proof.
  intros H1 H2 H3. cbn [lstrip]. rewrite H1.
  destruct r1 as [|b r2]; [reflexivity|]. rewrite (H2 b r2 eq_refl).
  destruct r2 as [|c r3]; [reflexivity|]. now rewrite (H3 b c r3 eq_refl).
Qed.

(** The cases of [lstrip] on a text that is not empty. *)
Lemma lstrip_cases (a : ascii) (r1 : string) :
  (space1 a = true /\ lstrip (String a r1) = lstrip r1)
  \/ (exists b r2, r1 = String b r2 /\ space2 a b = true
                   /\ lstrip (String a r1) = lstrip r2)
  \/ (exists b c r3, r1 = String b (String c r3) /\ space3 a b c = true
                     /\ lstrip (String a r1) = lstrip r3)
  \/ (space1 a = false
      /\ (forall b r2, r1 = String b r2 -> space2 a b = false)
      /\ (forall b c r3, r1 = String b (String c r3) -> space3 a b c = false)
      /\ lstrip (String a r1) = String a r1).
Proof.
  destruct (space1 a) eqn:E1; [left; split; [reflexivity|now apply lstrip_space1]|].
  right.
  destruct r1 as [|b r2].
  { right; right. repeat split; try discriminate. cbn [lstrip]. now rewrite E1. }
  destruct (space2 a b) eqn:E2.
  { left. exists b, r2. repeat split; [assumption|now apply lstrip_space2]. }
  right.
  destruct r2 as [|c r3].
  { right. repeat split.
    - now intros ? ? [= <- <-].
    - discriminate.
    - cbn [lstrip]. now rewrite E1, E2. }
  destruct (space3 a b c) eqn:E3.
  { left. exists b, c, r3. repeat split; [assumption|now apply lstrip_space3]. }
  right. repeat split.
  - now intros ? ? [= <- <-].
  - now intros ? ? ? [= <- <- <-].
  - cbn [lstrip]. now rewrite E1, E2, E3.
Qed.

Lemma lstrip_lstrip_n (n : nat) :
  forall s, String.length s <= n -> lstrip (lstrip s) = lstrip s.
Proof.
  induction n as [|n IH]; intros s Hn.
  - destruct s; [reflexivity|simpl in Hn; lia].
  - destruct s as [|a r1]; [reflexivity|].
    destruct (lstrip_cases a r1)
      as [[_ ->] | [[b [r2 [-> [_ ->]]]] | [[b [c [r3 [-> [_ ->]]]]]
                                            | [_ [_ [_ H]]]]]].
    + apply IH. simpl in Hn. lia.
    + apply IH. simpl in Hn. lia.
    + apply IH. simpl in Hn. lia.
    + now rewrite H.
Qed.

Lemma lstrip_lstrip (s : string) : lstrip (lstrip s) = lstrip s.
Proof. apply (lstrip_lstrip_n (String.length s)). apply Nat.le_refl. Qed.

Lemma rstrip_cons (c : ascii) (r : string) :
  lstrip (String c r) <> ""%string -> rstrip (String c r) = String c (rstrip r).
Proof.
  intros H. cbn [rstrip].
  destruct (String.eqb_spec (lstrip (String c r)) ""); [contradiction|reflexivity].
Qed.

Lemma rstrip_blank (s : string) : lstrip s = ""%string -> rstrip s = ""%string.
Proof. intros H. destruct s; [reflexivity|]. cbn [rstrip]. now rewrite H. Qed.

Lemma rstrip_head (r : string) (b : ascii) (x : string) :
  rstrip r = String b x -> exists r2, r = String b r2 /\ x = rstrip r2.
Proof.
  destruct r as [|b' r2]; [discriminate|]. cbn [rstrip].
  destruct (String.eqb (lstrip (String b' r2)) ""); [discriminate|].
  intros [= <- <-]. now exists r2.
Qed.

(** White space is taken from the two ends independently. *)
Lemma rstrip_lstrip_n (n : nat) :
  forall s, String.length s <= n -> rstrip (lstrip s) = lstrip (rstrip s).
Proof.
  induction n as [|n IH]; intros s Hn.
  - destruct s; [reflexivity|simpl in Hn; lia].
  - destruct s as [|a r1]; [reflexivity|].
    destruct (lstrip_cases a r1)
      as [[E1 H] | [[b [r2 [-> [E2 H]]]] | [[b [c [r3 [-> [E3 H]]]]]
                                            | [E1 [E2 [E3 H]]]]]].
    + destruct (String.eqb_spec (lstrip r1) "") as [Hb|Hb].
      * rewrite (rstrip_blank (String a r1)) by now rewrite H.
        now rewrite H, Hb.
      * rewrite rstrip_cons by now rewrite H.
        rewrite H, (lstrip_space1 _ _ E1). apply IH. simpl in Hn. lia.
    + destruct (String.eqb_spec (lstrip r2) "") as [Hb|Hb].
      * rewrite (rstrip_blank (String a (String b r2))) by now rewrite H.
        now rewrite H, Hb.
      * rewrite rstrip_cons by now rewrite H.
        rewrite rstrip_continuation by apply (space2_bound _ _ E2).
        rewrite H, (lstrip_space2 _ _ _ E2). apply IH. simpl in Hn. lia.
    + destruct (String.eqb_spec (lstrip r3) "") as [Hb|Hb].
      * rewrite (rstrip_blank (String a (String b (String c r3))))
          by now rewrite H.
        now rewrite H, Hb.
      * rewrite rstrip_cons by now rewrite H.
        rewrite rstrip_continuation by apply (space3_bound _ _ _ E3).
        rewrite rstrip_continuation by apply (space3_bound _ _ _ E3).
        rewrite H, (lstrip_space3 _ _ _ _ E3). apply IH. simpl in Hn. lia.
    + rewrite H. rewrite rstrip_cons by now rewrite H.
      symmetry. apply lstrip_keeps; [assumption| |].
      * intros b x Hx. apply rstrip_head in Hx as [r2 [-> _]]. now apply (E2 b r2).
      * intros b c x Hx. apply rstrip_head in Hx as [r2 [-> Hx]].
        symmetry in Hx. apply rstrip_head in Hx as [r3 [-> _]].
        now apply (E3 b c r3).
Qed.

Lemma rstrip_lstrip (s : string) : rstrip (lstrip s) = lstrip (rstrip s).
Proof. apply (rstrip_lstrip_n (String.length s)). apply Nat.le_refl. Qed.

Lemma rstrip_empty (s : string) :
  rstrip s = ""%string -> lstrip s = ""%string.
Proof.
  destruct s as [|c r]; [reflexivity|]. cbn [rstrip].
  destruct (String.eqb_spec (lstrip (String c r)) ""); [auto|discriminate].
Qed.

Lemma rstrip_rstrip (s : string) : rstrip (rstrip s) = rstrip s.
Proof.
  induction s as [|c r IH]; [reflexivity|].
  destruct (String.eqb_spec (lstrip (String c r)) "") as [Hb|Hb].
  - now rewrite (rstrip_blank _ Hb).
  - assert (Hk : rstrip (String c r) = String c (rstrip r))
      by now apply rstrip_cons.
    rewrite Hk. rewrite rstrip_cons; [now rewrite IH|].
    rewrite <- Hk, <- rstrip_lstrip. intros He.
    apply rstrip_empty in He. now rewrite lstrip_lstrip in He.
Qed.

Lemma strip_strip (s : string) : strip (strip s) = strip s.
Proof.
  unfold strip.
  now rewrite (rstrip_lstrip (rstrip s)), rstrip_rstrip, lstrip_lstrip.
Qed.

Lemma strip_blank (s : string) : lstrip s = ""%string -> strip s = ""%string.
Proof. intros H. unfold strip. now rewrite (rstrip_blank s H). Qed.

(** Stripping a text leaves a text. *)
Lemma second_of_three_continuation (a b : ascii) :
  second_of_three a b = true -> is_continuation b = true.
Proof.
  unfold second_of_three, is_continuation, byte_in, byte_is.
  repeat rewrite ?orb_true_iff, ?andb_true_iff, ?Nat.eqb_eq, ?Nat.leb_le. lia.
Qed.

Lemma second_of_four_continuation (a b : ascii) :
  second_of_four a b = true -> is_continuation b = true.
Proof.
  unfold second_of_four, is_continuation, byte_in, byte_is.
  repeat rewrite ?orb_true_iff, ?andb_true_iff, ?Nat.eqb_eq, ?Nat.leb_le. lia.
Qed.

Lemma utf8_valid_lstrip_n (n : nat) :
  forall s, String.length s <= n ->
    utf8_valid s = true -> utf8_valid (lstrip s) = true.
Proof.
  induction n as [|n IH]; intros s Hn Hv.
  - destruct s; [reflexivity|simpl in Hn; lia].
  - destruct s as [|a r1]; [reflexivity|].
    destruct (lstrip_cases a r1)
      as [[E1 H] | [[b [r2 [-> [E2 H]]]] | [[b [c [r3 [-> [E3 H]]]]]
                                            | [_ [_ [_ H]]]]]];
      rewrite H; [| | |assumption]; apply IH; try (simpl in Hn; lia).
    + apply space1_bound in E1. cbn [utf8_valid] in Hv.
      replace (byte_in 0 127 a) with true in Hv; [assumption|].
      symmetry. unfold byte_in. rewrite andb_true_iff, !Nat.leb_le. lia.
    + apply space2_bound in E2 as [Ea _]. cbn [utf8_valid] in Hv.
      replace (byte_in 0 127 a) with false in Hv
        by (symmetry; unfold byte_in; rewrite andb_false_iff, !Nat.leb_gt; lia).
      replace (byte_in 194 223 a) with true in Hv
        by (symmetry; unfold byte_in; rewrite andb_true_iff, !Nat.leb_le; lia).
      now apply andb_true_iff in Hv.
    + apply space3_bound in E3 as [Ea _]. cbn [utf8_valid] in Hv.
      replace (byte_in 0 127 a) with false in Hv
        by (symmetry; unfold byte_in; rewrite andb_false_iff, !Nat.leb_gt; lia).
      replace (byte_in 194 223 a) with false in Hv
        by (symmetry; unfold byte_in; rewrite andb_false_iff, !Nat.leb_gt; lia).
      replace (byte_in 224 239 a) with true in Hv
        by (symmetry; unfold byte_in; rewrite andb_true_iff, !Nat.leb_le; lia).
      now apply andb_true_iff in Hv.
Qed.

Lemma utf8_valid_rstrip_n (n : nat) :
  forall s, String.length s <= n ->
    utf8_valid s = true -> utf8_valid (rstrip s) = true.
Proof.
  induction n as [|n IH]; intros s Hn Hv.
  - destruct s; [reflexivity|simpl in Hn; lia].
  - destruct s as [|a r1]; [reflexivity|].
    destruct (String.eqb_spec (lstrip (String a r1)) "") as [Hb|Hb];
      [now rewrite (rstrip_blank _ Hb)|].
    rewrite (rstrip_cons _ _ Hb). cbn [utf8_valid] in Hv |- *.
    destruct (byte_in 0 127 a); [apply IH; [simpl in Hn; lia|assumption]|].
    destruct (byte_in 194 223 a).
    { destruct r1 as [|b r2]; [discriminate|].
      apply andb_true_iff in Hv as [Hc Hv].
      rewrite (rstrip_continuation _ _ Hc), Hc.
      apply IH; [simpl in Hn; lia|assumption]. }
    destruct (byte_in 224 239 a).
    { destruct r1 as [|b [|c r3]]; try discriminate.
      apply andb_true_iff in Hv as [Hv Hr].
      apply andb_true_iff in Hv as [Hb2 Hc].
      rewrite (rstrip_continuation _ _ (second_of_three_continuation _ _ Hb2)).
      rewrite (rstrip_continuation _ _ Hc), Hb2, Hc.
      apply IH; [simpl in Hn; lia|assumption]. }
    destruct (byte_in 240 244 a); [|discriminate].
    destruct r1 as [|b [|c [|d r4]]]; try discriminate.
    apply andb_true_iff in Hv as [Hv Hr].
    apply andb_true_iff in Hv as [Hv Hd].
    apply andb_true_iff in Hv as [Hb2 Hc].
    rewrite (rstrip_continuation _ _ (second_of_four_continuation _ _ Hb2)).
    rewrite (rstrip_continuation _ _ Hc), (rstrip_continuation _ _ Hd).
    rewrite Hb2, Hc, Hd.
    apply IH; [simpl in Hn; lia|assumption].
Qed.

Lemma utf8_valid_strip (s : string) :
  utf8_valid s = true -> utf8_valid (strip s) = true.
Proof.
  intros H. unfold strip.
  apply (utf8_valid_lstrip_n (String.length (rstrip s))); [apply Nat.le_refl|].
  now apply (utf8_valid_rstrip_n (String.length s)).
Qed.

(** ** The version prompt *)

Lemma file_on_path_dir (p : path) (t : node) (d : entries) :
  lookup p t = Some (Dir d) -> file_on_path p t = false.
Proof.
  revert t. induction p as [|k p IH]; intros [data|es]; simpl; try discriminate; auto.
  destruct (alist_get k es) as [c|]; [apply IH|discriminate].
Qed.

Lemma io_bind_returned {A B : Type} (m : IO A) (k : A -> IO B) (c c' : console) (a : A) :
  m c = (Returned a, c') -> io_bind m k c = k a c'.
Proof. intros H. unfold io_bind. now rewrite H. Qed.

Lemma lift_ok {A : Type} (m : M A) (c : console) (w' : world) (a : A) :
  m (screen c) = (Ok a, w') -> lift m c = (Returned a, mkConsole w' (keyboard c)).
Proof. intros H. unfold lift. now rewrite H. Qed.

(** Making the beta directory leaves the marker as it was. *)
Lemma makedirs_beta (beta : path) (k : string) (t : node) :
  file_on_path beta t = false ->
  exists t1 d1,
    makedirs_node beta t = inr t1
    /\ lookup beta t1 = Some (Dir d1)
    /\ lookup (beta ++ [k]) t1 = lookup (beta ++ [k]) t.
Proof.
  intros Hfp. destruct (makedirs_ok beta t Hfp) as [t1 Hmk].
  destruct (lookup beta t) as [[data|d]|] eqn:Hl.
  - rewrite (file_on_path_file beta t data Hl) in Hfp. discriminate.
  - rewrite (makedirs_existing beta t d Hl) in Hmk. injection Hmk as <-.
    exists t, d. repeat split; [eapply makedirs_existing; eassumption|assumption].
  - exists t1, []. split; [assumption|].
    pose proof (makedirs_fresh beta t t1 Hl Hmk) as H1. split; [assumption|].
    rewrite (lookup_child beta k t1 [] H1). now rewrite (lookup_none_app beta [k] t Hl).
Qed.

(** What one selection does: it reads one line, returns it stripped, or
    the stored version when the line is blank, and stores what it
    returns.  The stored version is the text of the marker, stripped; a
    marker that is no UTF-8 text counts as none. *)
Lemma select_spec (SCRIPT_DIR : pypath) (c : console) (line : string)
    (rest : list string) :
  Forall (fun s => plain s = true) SCRIPT_DIR ->
  file_on_path (SCRIPT_DIR ++ ["beta"]) (fs (screen c)) = false ->
  is_dir_at (SCRIPT_DIR ++ ["beta"; "lastVersion.txt"]) (fs (screen c)) = false ->
  (forall data,
     lookup (SCRIPT_DIR ++ ["beta"; "lastVersion.txt"]) (fs (screen c))
     = Some (File data) -> writable data = true) ->
  keyboard c = line :: rest ->
  let marker := SCRIPT_DIR ++ ["beta"; "lastVersion.txt"] in
  let last :=
    match lookup marker (fs (screen c)) with
    | Some (File data) =>
        if utf8_valid (content data)
        then strip (universal_newlines (content data)) else ""
    | _ => ""
    end in
  let v := if String.eqb (strip line) "" then last else strip line in
  exists c',
    select_new_mp_version SCRIPT_DIR c = (Returned v, c')
    /\ keyboard c' = rest
    /\ lookup marker (fs (screen c')) = Some (regular v)
    /\ locked (screen c') = locked (screen c)
    /\ spawned (screen c') = spawned (screen c)
    /\ (forall q, disjointb (SCRIPT_DIR ++ ["beta"]) q = true ->
          lookup q (fs (screen c')) = lookup q (fs (screen c))).
Proof.
  intros Hp Hfp Hnd Hwr Hkb marker last v.
  change (is_dir_at marker (fs (screen c)) = false) in Hnd.
  change (forall data, lookup marker (fs (screen c)) = Some (File data) ->
                       writable data = true) in Hwr.
  set (beta := SCRIPT_DIR ++ ["beta"]) in *.
  assert (marker = beta ++ ["lastVersion.txt"]) as Hmarker
    by (unfold marker, beta; now rewrite <- app_assoc).
  assert (Forall (fun s => plain s = true) beta) as Hpb by (apply plain_app; auto).
  assert (Forall (fun s => plain s = true) marker) as Hpm
    by (rewrite Hmarker; apply plain_app; auto).
  destruct c as [w kb]. cbn [screen keyboard] in *. subst kb.
  destruct (makedirs_beta beta "lastVersion.txt" (fs w) Hfp) as [t1 [d1 [Hmk [Hb1 Hm1]]]].
  rewrite <- Hmarker in Hm1.
  set (w1 := with_fs t1 w).
  unfold select_new_mp_version, LAST_VERSION_FILE.
  rewrite (os_path_join_plain SCRIPT_DIR "beta" eq_refl).
  rewrite !join_all_plain by (repeat constructor).
  fold beta marker. cbv zeta.
  rewrite (io_bind_returned _ _ _ _ _
             (lift_ok _ (mkConsole w (line :: rest)) w1 tt
                (os_makedirs_plain beta w t1 Hpb Hmk))).
  cbn [keyboard].
  assert (read_last_version SCRIPT_DIR w1 = (Ok last, w1)) as Hread.
  { unfold read_last_version, LAST_VERSION_FILE.
    rewrite !join_all_plain by (repeat constructor). fold marker.
    rewrite (bind_ok _ _ _ _ _ (os_path_exists_plain marker w1 Hpm)).
    unfold exists_at, last. cbn [fs w1 with_fs]. rewrite Hm1.
    unfold is_dir_at in Hnd.
    destruct (lookup marker (fs w)) as [[data|es]|] eqn:Hl; [|discriminate|reflexivity].
    unfold try_catch.
    destruct (utf8_valid (content data)) eqn:Hv.
    - rewrite (bind_ok _ _ w1 w1 (universal_newlines (content data))); [reflexivity|].
      unfold read_text, read_node. cbn [fs w1 with_fs].
      now rewrite (resolve_plain t1 marker Hpm), Hm1, Hv.
    - rewrite (bind_raise _ _ w1 w1 UnicodeDecodeError); [reflexivity|].
      unfold read_text, read_node. cbn [fs w1 with_fs].
      now rewrite (resolve_plain t1 marker Hpm), Hm1, Hv. }
  rewrite (io_bind_returned _ _ _ _ _
             (lift_ok _ (mkConsole w1 (line :: rest)) w1 last Hread)).
  cbn [keyboard].
  unfold input at 1. unfold io_bind at 1. cbn [keyboard screen].
  set (w2 := snd (print _ w1)).
  fold v.
  set (t3 := graft beta (Dir (alist_set "lastVersion.txt" (regular v) d1)) t1).
  assert (write_text marker v w2 = (Ok tt, with_fs t3 w2)) as Hwrite.
  { unfold write_text, fs_step. cbn [fs w2 w1 print snd with_fs].
    rewrite (resolve_plain t1 marker Hpm), Hmarker.
    rewrite (write_node_zoom beta ["lastVersion.txt"] _ t1 _ Hb1).
    rewrite (alter_graft beta _ t1 _ (Dir (alist_set "lastVersion.txt" (regular v) d1)) Hb1);
      [reflexivity|].
    simpl. unfold is_dir_at in Hnd. rewrite <- Hm1, Hmarker in Hnd, Hwr.
    rewrite (lookup_child beta "lastVersion.txt" t1 d1 Hb1) in Hnd, Hwr.
    destruct (alist_get "lastVersion.txt" d1) as [[data|es]|];
      [|discriminate|reflexivity].
    now rewrite (Hwr data eq_refl). }
  rewrite (io_bind_returned _ _ _ _ _
             (lift_ok _ (mkConsole w2 rest) _ tt Hwrite)).
  cbn [keyboard].
  unfold io_bind, lift, print, io_ret. cbn [screen keyboard].
  eexists. split; [reflexivity|]. cbn [keyboard screen fs locked spawned with_fs w2 w1 print snd].
  repeat split.
  - rewrite Hmarker,
      (lookup_child beta "lastVersion.txt" t3 (alist_set "lastVersion.txt" (regular v) d1)).
    + apply alist_get_set_same.
    + eapply graft_lookup; eassumption.
  - intros q Hq. unfold t3.
    rewrite (lookup_graft_disjoint beta q _ t1 _ Hb1 Hq).
    eapply makedirs_frame; eassumption.
Qed.



(** X11. [select_new_mp_version] twice: a version typed at one prompt comes
    back at the next prompt when only Enter, or only white space, is
    typed, and the marker still holds it - provided the typed line is a
    text and the version has no carriage return in it, which reading the
    marker in text mode would turn into a line feed. *)
Theorem enter_keeps_last_version (SCRIPT_DIR : pypath) (c : console)
    (line blank : string) (rest : list string) :
  Forall (fun s => plain s = true) SCRIPT_DIR ->
  file_on_path (SCRIPT_DIR ++ ["beta"]) (fs (screen c)) = false ->
  is_dir_at (SCRIPT_DIR ++ ["beta"; "lastVersion.txt"]) (fs (screen c)) = false ->
  (forall data,
     lookup (SCRIPT_DIR ++ ["beta"; "lastVersion.txt"]) (fs (screen c))
     = Some (File data) -> writable data = true) ->
  keyboard c = line :: blank :: rest ->
  utf8_valid line = true ->
  strip line <> ""%string ->
  strip blank = ""%string ->
  has_CR (strip line) = false ->
  let r1 := select_new_mp_version SCRIPT_DIR c in
  let r2 := select_new_mp_version SCRIPT_DIR (snd r1) in
  fst r1 = Returned (strip line)
  /\ fst r2 = Returned (strip line)
  /\ lookup (SCRIPT_DIR ++ ["beta"; "lastVersion.txt"]) (fs (screen (snd r2)))
     = Some (regular (strip line))
  /\ keyboard (snd r2) = rest.
Proof.
  intros Hp Hfp Hnd Hwr Hkb Htext Hline Hblank Hcr. cbv zeta.
  destruct (select_spec SCRIPT_DIR c line (blank :: rest) Hp Hfp Hnd Hwr Hkb)
    as [c1 [Hrun1 [Hk1 [Hm1 _]]]].
  apply String.eqb_neq in Hline. rewrite Hline in Hrun1, Hm1.
  rewrite Hrun1. cbn [fst snd].
  assert (file_on_path (SCRIPT_DIR ++ ["beta"]) (fs (screen c1)) = false) as Hfp1.
  { replace (SCRIPT_DIR ++ ["beta"; "lastVersion.txt"])
      with ((SCRIPT_DIR ++ ["beta"]) ++ ["lastVersion.txt"]) in Hm1
      by (now rewrite <- app_assoc).
    destruct (lookup_child_inv _ _ _ _ Hm1) as [d [Hd _]].
    eapply file_on_path_dir; eassumption. }
  assert (is_dir_at (SCRIPT_DIR ++ ["beta"; "lastVersion.txt"]) (fs (screen c1)) = false)
    as Hnd1 by (unfold is_dir_at; now rewrite Hm1).
  assert (forall data,
            lookup (SCRIPT_DIR ++ ["beta"; "lastVersion.txt"]) (fs (screen c1))
            = Some (File data) -> writable data = true) as Hwr1
    by (rewrite Hm1; now intros data [= <-]).
  destruct (select_spec SCRIPT_DIR c1 blank rest Hp Hfp1 Hnd1 Hwr1 Hk1)
    as [c2 [Hrun2 [Hk2 [Hm2 _]]]].
  rewrite Hblank in Hrun2, Hm2. cbn [String.eqb] in Hrun2, Hm2.
  rewrite Hm1 in Hrun2, Hm2. unfold regular in Hrun2, Hm2.
  cbn [content] in Hrun2, Hm2.
  rewrite (utf8_valid_strip line Htext) in Hrun2, Hm2.
  rewrite (universal_newlines_no_CR _ Hcr), strip_strip in Hrun2, Hm2.
  rewrite Hrun2. cbn [fst snd]. auto.
Qed.

(** The version is typed between an ideographic space and a no-break
    space; the second line is a lone no-break space. *)
Lemma enter_keeps_last_version_witness :
  let nbsp := String (ascii_of_nat 194) (String (ascii_of_nat 160) "") in
  let wide :=
    String (ascii_of_nat 227) (String (ascii_of_nat 128)
      (String (ascii_of_nat 128) "")) in
  let c :=
    mkConsole (world_of (Dir [("home", Dir [])]))
      [(wide ++ "3.2.0" ++ nbsp)%string; nbsp; "0"] in
  let r1 := select_new_mp_version ["home"] c in
  let r2 := select_new_mp_version ["home"] (snd r1) in
  fst r1 = Returned "3.2.0"
  /\ fst r2 = Returned "3.2.0"
  /\ lookup ["home"; "beta"; "lastVersion.txt"] (fs (screen (snd r2)))
     = Some (regular "3.2.0")
  /\ keyboard (snd r2) = ["0"].
Proof.
  intros nbsp wide c.
  apply (enter_keeps_last_version ["home"] c (wide ++ "3.2.0" ++ nbsp) nbsp ["0"]);
    try reflexivity.
  - repeat constructor.
  - discriminate.
  - discriminate.
Defined.

(** X12. [select_new_mp_version] at the end of the input: the prompt is
    written and the read fails; the beta directory has been made by then,
    and the marker is as it was, no version written. *)
Theorem selection_at_end_of_input (SCRIPT_DIR : pypath) (c : console) :
  Forall (fun s => plain s = true) SCRIPT_DIR ->
  file_on_path (SCRIPT_DIR ++ ["beta"]) (fs (screen c)) = false ->
  keyboard c = [] ->
  let marker := SCRIPT_DIR ++ ["beta"; "lastVersion.txt"] in
  let r := select_new_mp_version SCRIPT_DIR c in
  fst r = EndOfInput
  /\ is_dir_at (SCRIPT_DIR ++ ["beta"]) (fs (screen (snd r))) = true
  /\ lookup marker (fs (screen (snd r))) = lookup marker (fs (screen c)).
Proof.
  intros Hp Hfp Hkb marker. cbv zeta.
  set (beta := SCRIPT_DIR ++ ["beta"]) in *.
  assert (marker = beta ++ ["lastVersion.txt"]) as Hmarker
    by (unfold marker, beta; now rewrite <- app_assoc).
  assert (Forall (fun s => plain s = true) beta) as Hpb by (apply plain_app; auto).
  assert (Forall (fun s => plain s = true) marker) as Hpm
    by (rewrite Hmarker; apply plain_app; auto).
  destruct c as [w kb]. cbn [screen keyboard] in *. subst kb.
  destruct (makedirs_beta beta "lastVersion.txt" (fs w) Hfp) as [t1 [d1 [Hmk [Hb1 Hm1]]]].
  rewrite <- Hmarker in Hm1.
  set (w1 := with_fs t1 w).
  unfold select_new_mp_version.
  rewrite (os_path_join_plain SCRIPT_DIR "beta" eq_refl). fold beta. cbv zeta.
  rewrite (io_bind_returned _ _ _ _ _
             (lift_ok _ (mkConsole w []) w1 tt (os_makedirs_plain beta w t1 Hpb Hmk))).
  cbn [keyboard].
  assert (exists last, read_last_version SCRIPT_DIR w1 = (Ok last, w1)) as [last Hread].
  { unfold read_last_version, LAST_VERSION_FILE.
    rewrite !join_all_plain by (repeat constructor). fold marker.
    rewrite (bind_ok _ _ _ _ _ (os_path_exists_plain marker w1 Hpm)).
    unfold exists_at. cbn [fs w1 with_fs].
    destruct (lookup marker t1) as [[data|es]|] eqn:Hl.
    - destruct (utf8_valid (content data)) eqn:Hv.
      + exists (strip (universal_newlines (content data))). unfold try_catch.
        rewrite (bind_ok _ _ w1 w1 (universal_newlines (content data)));
          [reflexivity|].
        unfold read_text, read_node. cbn [fs w1 with_fs].
        now rewrite (resolve_plain t1 marker Hpm), Hl, Hv.
      + exists ""%string. unfold try_catch.
        rewrite (bind_raise _ _ w1 w1 UnicodeDecodeError); [reflexivity|].
        unfold read_text, read_node. cbn [fs w1 with_fs].
        now rewrite (resolve_plain t1 marker Hpm), Hl, Hv.
    - exists ""%string. unfold try_catch.
      rewrite (bind_raise _ _ w1 w1 IsADirectoryError); [reflexivity|].
      unfold read_text, read_node. cbn [fs w1 with_fs].
      now rewrite (resolve_plain t1 marker Hpm), Hl.
    - exists ""%string. reflexivity. }
  rewrite (io_bind_returned _ _ _ _ _ (lift_ok _ (mkConsole w1 []) w1 last Hread)).
  unfold io_bind, input. cbn [keyboard screen fst snd print fs with_fs w1].
  unfold is_dir_at. rewrite Hb1. auto.
Qed.

Lemma selection_at_end_of_input_witness :
  let c := mkConsole (world_of (Dir [("home", Dir [])])) [] in
  let r := select_new_mp_version ["home"] c in
  fst r = EndOfInput
  /\ is_dir_at (["home"] ++ ["beta"]) (fs (screen (snd r))) = true
  /\ lookup (["home"] ++ ["beta"; "lastVersion.txt"]) (fs (screen (snd r)))
     = lookup (["home"] ++ ["beta"; "lastVersion.txt"]) (fs (screen c)).
Proof.
  intros c.
  apply (selection_at_end_of_input ["home"] c); try reflexivity.
  repeat constructor.
Defined.

(** ** A whole build of the server variant *)

Lemma replace_in_file_keeps (file_path : pypath) (old_text new_text : string)
    (w : world) :
  Forall (fun s => plain s = true) file_path ->
  preserved (fs w) (fs (snd (replace_in_file file_path old_text new_text w)))
  /\ preserved (fs (snd (replace_in_file file_path old_text new_text w))) (fs w)
  /\ spawned (snd (replace_in_file file_path old_text new_text w)) = spawned w.
Proof.
  intros Hp. unfold replace_in_file.
  rewrite (bind_ok _ _ _ _ _ (os_path_exists_plain file_path w Hp)). unfold exists_at.
  assert (preserved (fs w) (fs w) /\ preserved (fs w) (fs w)
          /\ spawned w = spawned w) as Hsame
    by (repeat split; apply preserved_refl).
  destruct (lookup file_path (fs w)) as [[data|es]|] eqn:Hl.
  - unfold try_except.
    destruct (utf8_valid (content data)) eqn:Hv.
    + rewrite (bind_ok _ _ w w (universal_newlines (content data)))
        by (unfold read_text, read_node; now rewrite (resolve_plain _ _ Hp), Hl, Hv).
      unfold write_text, fs_step. rewrite (resolve_plain _ _ Hp).
      destruct (writable data) eqn:Hw.
      * rewrite (write_node_file file_path data _ (fs w) Hl Hw).
        cbn [fst snd fs with_fs spawned].
        destruct (write_back_preserved file_path data
                    (mkFile true
                       (str_replace old_text new_text
                          (universal_newlines (content data)))) (fs w) Hl)
          as [K K'].
        repeat split; assumption.
      * rewrite (write_node_read_only file_path data _ (fs w) Hl Hw).
        cbn [is_Exception print fst snd fs spawned]. exact Hsame.
    + rewrite (bind_raise _ _ w w UnicodeDecodeError)
        by (unfold read_text, read_node; now rewrite (resolve_plain _ _ Hp), Hl, Hv).
      cbn [is_Exception print fst snd fs spawned]. exact Hsame.
  - unfold try_except.
    rewrite (bind_raise _ _ w w IsADirectoryError)
      by (unfold read_text, read_node; now rewrite (resolve_plain _ _ Hp), Hl).
    cbn [is_Exception print fst snd fs spawned]. exact Hsame.
  - cbn [ret fst snd]. exact Hsame.
Qed.

Lemma preserved_none (t t' : node) (q : path) :
  preserved t' t -> lookup q t = None -> lookup q t' = None.
Proof.
  intros H Hn. destruct (lookup q t') as [n|] eqn:E; [|reflexivity].
  destruct (H q n E) as [n' [Hn' _]]. congruence.
Qed.

Lemma preserved_dir (t t' : node) (q : path) :
  preserved t t' -> is_dir_at q t = true -> is_dir_at q t' = true.
Proof.
  unfold is_dir_at. intros H Hd.
  destruct (lookup q t) as [[|d]|] eqn:E; try discriminate.
  destruct (H q _ E) as [n' [Hn' Hk]]. rewrite Hn'. now destruct n'.
Qed.



(** ** The programs a build starts *)

Lemma quiet_ret {A : Type} (a : A) : quiet (ret a).
Proof. intros w. reflexivity. Qed.

Lemma quiet_bind {A B : Type} (m : M A) (k : A -> M B) :
  quiet m -> (forall a, quiet (k a)) -> quiet (bind m k).
Proof.
  intros Hm Hk w. unfold bind. specialize (Hm w).
  destruct (m w) as [[a|e] w']; simpl in *; [|assumption].
  now rewrite Hk.
Qed.

Lemma quiet_for_each {A : Type} (l : list A) (body : A -> M unit) :
  (forall a, quiet (body a)) -> quiet (for_each l body).
Proof.
  intros Hb. induction l as [|x r IH]; simpl; [apply quiet_ret|].
  apply quiet_bind; auto.
Qed.

Lemma quiet_try_except (m : M unit) (catches : exn -> bool) (h : exn -> M unit) :
  quiet m -> (forall e, quiet (h e)) -> quiet (try_except m catches h).
Proof.
  intros Hm Hh w. unfold try_except. specialize (Hm w).
  destruct (m w) as [[a|e] w']; simpl in *; [assumption|].
  destruct (catches e); [|assumption]. now rewrite Hh.
Qed.

Lemma quiet_try_catch {A : Type} (m : M A) (catches : exn -> bool) (h : exn -> M A) :
  quiet m -> (forall e, quiet (h e)) -> quiet (try_catch m catches h).
Proof.
  intros Hm Hh w. unfold try_catch. specialize (Hm w).
  destruct (m w) as [[a|e] w']; simpl in *; [assumption|].
  destruct (catches e); [|assumption]. now rewrite Hh.
Qed.

Lemma quiet_print (s : string) : quiet (print s).
Proof. intros w. reflexivity. Qed.

Lemma quiet_fs_step (f : node -> exn + node) : quiet (fs_step f).
Proof. intros w. unfold fs_step. destruct (f (fs w)); reflexivity. Qed.

Lemma quiet_os_path_exists (pp : pypath) : quiet (os_path_exists pp).
Proof. intros w. reflexivity. Qed.

Lemma quiet_os_path_isdir (pp : pypath) : quiet (os_path_isdir pp).
Proof. intros w. reflexivity. Qed.

Lemma quiet_os_path_isfile (pp : pypath) : quiet (os_path_isfile pp).
Proof. intros w. reflexivity. Qed.

Lemma quiet_os_makedirs (pp : pypath) : quiet (os_makedirs pp).
Proof.
  intros w. unfold os_makedirs.
  destruct (resolve (fs w) pp); [apply quiet_fs_step|reflexivity].
Qed.

Lemma quiet_os_listdir (pp : pypath) : quiet (os_listdir pp).
Proof.
  intros w. unfold os_listdir. destruct (resolve (fs w) pp) as [p|]; [|reflexivity].
  destruct (lookup p (fs w)) as [[|]|]; reflexivity.
Qed.

Lemma quiet_os_remove (pp : pypath) : quiet (os_remove pp).
Proof.
  intros w. unfold os_remove. destruct (resolve (fs w) pp) as [p|]; [|reflexivity].
  destruct (lookup p (fs w)) as [[|]|]; try reflexivity.
  destruct (is_locked (locked w) p); [reflexivity|apply quiet_fs_step].
Qed.

Lemma quiet_shutil_rmtree (pp : pypath) : quiet (shutil_rmtree pp).
Proof.
  intros w. unfold shutil_rmtree. destruct (resolve (fs w) pp) as [p|]; [|reflexivity].
  destruct (lookup p (fs w)) as [[|es]|]; try reflexivity.
  destruct (rm_node (locked w) p (Dir es)); [|apply quiet_fs_step].
  destruct (alter p _ (fs w)); reflexivity.
Qed.

Lemma quiet_shutil_copytree (limit : nat) (s d : pypath) :
  quiet (shutil_copytree limit s d).
Proof.
  intros w. unfold shutil_copytree.
  destruct (resolve (fs w) s); [|reflexivity].
  destruct (resolve (fs w) d); [|reflexivity].
  destruct (copytree_node limit _ _ (fs w)). reflexivity.
Qed.

Lemma quiet_shutil_copy2 (s d : pypath) : quiet (shutil_copy2 s d).
Proof.
  intros w. unfold shutil_copy2.
  destruct (resolve (fs w) s); [|reflexivity].
  destruct (resolve (fs w) d); [|reflexivity].
  destruct (copy2_node _ _ (fs w)). reflexivity.
Qed.

Lemma quiet_read_text (pp : pypath) : quiet (read_text pp).
Proof.
  intros w. unfold read_text. destruct (resolve (fs w) pp) as [p|]; [|reflexivity].
  destruct (read_node p (fs w)) as [e|bytes]; [reflexivity|].
  destruct (utf8_valid bytes); reflexivity.
Qed.

Lemma quiet_write_text (pp : pypath) (s : string) : quiet (write_text pp s).
Proof.
  intros w. unfold write_text.
  destruct (resolve (fs w) pp); [apply quiet_fs_step|reflexivity].
Qed.

Lemma quiet_copy_directory_contents (limit : nat) (src dest : pypath) :
  quiet (copy_directory_contents limit src dest).
Proof.
  unfold copy_directory_contents.
  apply quiet_bind; [apply quiet_os_path_exists|]. intros found.
  destruct (negb found); [apply quiet_ret|].
  apply quiet_bind; [apply quiet_os_makedirs|]. intros _.
  apply quiet_bind; [apply quiet_os_listdir|]. intros items.
  apply quiet_for_each. intros item.
  apply quiet_bind; [apply quiet_os_path_isdir|]. intros isd.
  destruct isd; [apply quiet_shutil_copytree|apply quiet_shutil_copy2].
Qed.

Lemma quiet_replace_in_file (p : pypath) (old_text new_text : string) :
  quiet (replace_in_file p old_text new_text).
Proof.
  unfold replace_in_file.
  apply quiet_bind; [apply quiet_os_path_exists|]. intros found.
  destruct found; [|apply quiet_ret].
  apply quiet_try_except; [|intros e; apply quiet_print].
  apply quiet_bind; [apply quiet_read_text|]. intros content. apply quiet_write_text.
Qed.

Lemma quiet_build_clean (out : pypath) : quiet (build_clean out).
Proof.
  unfold build_clean.
  apply quiet_bind; [apply quiet_os_path_exists|]. intros found.
  apply quiet_bind; [|intros _; apply quiet_os_makedirs].
  destruct found; [apply quiet_shutil_rmtree|apply quiet_ret].
Qed.

Lemma quiet_build_merge (SCRIPT_DIR : pypath) (limit : nat) (modpacktype : string)
    (cfg : config) (out : pypath) :
  quiet (build_merge SCRIPT_DIR limit modpacktype cfg out).
Proof.
  unfold build_merge.
  apply quiet_bind; [apply quiet_copy_directory_contents|]. intros _.
  apply quiet_bind; [apply quiet_copy_directory_contents|]. intros _.
  destruct (is_nano_or_giga modpacktype); [|apply quiet_ret].
  apply quiet_bind; [apply quiet_copy_directory_contents|]. intros _.
  destruct (String.eqb modpacktype "giga");
    [apply quiet_copy_directory_contents|apply quiet_ret].
Qed.

Lemma quiet_remove_listed (out : pypath) (line : string) :
  quiet (remove_listed out line).
Proof.
  unfold remove_listed. destruct (nonempty (strip line)); [|apply quiet_ret].
  apply quiet_bind; [apply quiet_os_path_isfile|]. intros isf.
  destruct isf; [apply quiet_os_remove|].
  apply quiet_bind; [apply quiet_os_path_isdir|]. intros isd.
  destruct isd; [apply quiet_shutil_rmtree|apply quiet_ret].
Qed.

Lemma quiet_build_remove (out : pypath) : quiet (build_remove out).
Proof.
  unfold build_remove.
  apply quiet_bind; [apply quiet_os_path_isfile|]. intros isf.
  destruct isf; [|apply quiet_ret].
  apply quiet_bind; [apply quiet_print|]. intros _.
  apply quiet_try_except; [|intros e; apply quiet_print].
  apply quiet_bind; [apply quiet_read_text|]. intros content.
  apply quiet_bind; [|intros _; apply quiet_os_remove].
  apply quiet_for_each. intros line. apply quiet_remove_listed.
Qed.

Lemma quiet_build_stamp (modpacktype : string) (out : pypath) (v : string) :
  quiet (build_stamp modpacktype out v).
Proof.
  unfold build_stamp.
  apply quiet_bind; [apply quiet_replace_in_file|]. intros _.
  apply quiet_bind; [apply quiet_replace_in_file|]. intros _.
  destruct (is_nano_or_giga modpacktype); [apply quiet_replace_in_file|apply quiet_ret].
Qed.

Lemma starts_at_most_bind {A B : Type} (e : list string * pypath)
    (m : M A) (k : A -> M B) :
  quiet m -> (forall a, starts_at_most e (k a)) -> starts_at_most e (bind m k).
Proof.
  intros Hm Hk w. unfold bind. specialize (Hm w).
  destruct (m w) as [[a|x] w']; simpl in *.
  - rewrite <- Hm. apply Hk.
  - right. eauto.
Qed.

Lemma build_refresh_starts (spawn : command) (out : pypath) :
  forall w, spawned (snd (build_refresh spawn out w)) =
            spawned w ++ [(["packwiz"; "refresh"; "--build"], out)].
Proof.
  intros w. unfold build_refresh, bind, print, try_except, subprocess_run; simpl.
  destruct (resolve (fs w) out) as [p|]; simpl; [|reflexivity].
  destruct (lookup p (fs w)) as [[|]|]; simpl; try reflexivity.
  destruct (spawn _ p (fs w)) as [code t'|e]; simpl; [|destruct e; reflexivity].
  destruct (Nat.eqb code 0); reflexivity.
Qed.

Lemma build_modpack_starts (SCRIPT_DIR : pypath) (limit : nat) (spawn : command)
    (modpacktype : string) (cfg : config) (v : string) :
  starts_at_most (["packwiz"; "refresh"; "--build"],
                  output_path_of SCRIPT_DIR modpacktype cfg)
    (build_modpack SCRIPT_DIR limit spawn modpacktype cfg v).
Proof.
  unfold build_modpack.
  apply starts_at_most_bind; [apply quiet_print|]. intros _.
  apply starts_at_most_bind; [apply quiet_build_clean|]. intros _.
  apply starts_at_most_bind; [apply quiet_build_merge|]. intros _.
  apply starts_at_most_bind; [apply quiet_build_remove|]. intros _.
  apply starts_at_most_bind; [apply quiet_build_stamp|]. intros _.
  intros w. left. unfold bind.
  pose proof (build_refresh_starts spawn (output_path_of SCRIPT_DIR modpacktype cfg) w) as H.
  destruct (build_refresh spawn _ w) as [[a|x] w']; simpl in *; exact H.
Qed.

Lemma update_pack_framework_starts (SCRIPT_DIR : pypath) (spawn : command) (w : world) :
  exists g,
    spawned (snd (update_pack_framework SCRIPT_DIR spawn w)) = spawned w ++ [g]
    /\ hd "" (fst g) = "git".
Proof.
  unfold update_pack_framework, bind, os_path_exists. simpl.
  destruct (match resolve (fs w) (os_path_join SCRIPT_DIR "framework") with
            | Some p => exists_at p (fs w)
            | None => false
            end); unfold try_except, subprocess_run, print; simpl.
  - eexists. split; [|shelve].
    destruct (resolve (fs w) (os_path_join SCRIPT_DIR "framework")) as [p|]; simpl;
      [|reflexivity].
    destruct (lookup p (fs w)) as [[|]|]; simpl; try reflexivity.
    destruct (spawn _ p (fs w)) as [code t'|e]; simpl; [|destruct e; reflexivity].
    destruct (Nat.eqb code 0); reflexivity.
    Unshelve. reflexivity.
  - eexists. split; [|shelve].
    destruct (resolve (fs w) SCRIPT_DIR) as [p|]; simpl; [|reflexivity].
    destruct (lookup p (fs w)) as [[|]|]; simpl; try reflexivity.
    destruct (spawn _ p (fs w)) as [code t'|e]; simpl; [|destruct e; reflexivity].
    destruct (Nat.eqb code 0); reflexivity.
    Unshelve. reflexivity.
Qed.

Lemma select_new_mp_version_quiet (SCRIPT_DIR : pypath) (c : console) :
  spawned (screen (snd (select_new_mp_version SCRIPT_DIR c))) = spawned (screen c).
Proof.
  assert (forall A (m : M A) c0, quiet m ->
            spawned (screen (snd (lift m c0))) = spawned (screen c0)) as Hlift.
  { intros A m c0 Hq. unfold lift. specialize (Hq (screen c0)).
    destruct (m (screen c0)) as [[a|e] w']; exact Hq. }
  assert (quiet (read_last_version SCRIPT_DIR)) as Hread.
  { unfold read_last_version.
    apply quiet_bind; [apply quiet_os_path_exists|]. intros found.
    destruct found; [|apply quiet_ret].
    apply quiet_try_catch; [|intros e; apply quiet_ret].
    apply quiet_bind; [apply quiet_read_text|]. intros content. apply quiet_ret. }
  unfold select_new_mp_version, io_bind.
  pose proof (Hlift _ (os_makedirs (os_path_join SCRIPT_DIR "beta")) c
                (quiet_os_makedirs _)) as H1.
  destruct (lift (os_makedirs (os_path_join SCRIPT_DIR "beta")) c) as [[[]|e|] c1];
    cbn [snd] in *; try exact H1.
  pose proof (Hlift _ (read_last_version SCRIPT_DIR) c1 Hread) as H2.
  destruct (lift (read_last_version SCRIPT_DIR) c1) as [[last|e|] c2];
    cbn [snd] in *; try (now rewrite H2).
  unfold input at 1. cbn [screen keyboard].
  destruct (keyboard c2) as [|line rest]; cbn [snd screen print spawned];
    [now rewrite H2|].
  set (v := if String.eqb (strip line) "" then last else strip line).
  set (c3 := mkConsole _ rest).
  assert (spawned (screen c3) = spawned (screen c)) as H3
    by (unfold c3; cbn [screen spawned]; now rewrite H2).
  pose proof (Hlift _ (write_text (LAST_VERSION_FILE SCRIPT_DIR) v) c3
                (quiet_write_text _ _)) as H4.
  destruct (lift (write_text (LAST_VERSION_FILE SCRIPT_DIR) v) c3) as [[[]|e|] c4];
    cbn [snd] in *; try (now rewrite H4).
  pose proof (Hlift _ (print ("Selected modpack version: " ++ v)%string) c4
                (quiet_print _)) as H5.
  destruct (lift (print ("Selected modpack version: " ++ v)%string) c4)
    as [[[]|e|] c5]; cbn [snd io_ret] in *; rewrite H5, H4; exact H3.
Qed.

Lemma for_each_starts {A : Type} (e : A -> list string * pypath)
    (body : A -> M unit) (l : list A) :
  (forall a, starts_at_most (e a) (body a)) ->
  forall w,
    exists n,
      spawned (snd (for_each l body w)) = spawned w ++ firstn n (map e l)
      /\ (fst (for_each l body w) = Ok tt -> n = length l).
Proof.
  intros Hb. induction l as [|x r IH]; intros w.
  - exists 0. simpl. now rewrite app_nil_r.
  - cbn [for_each map length]. unfold bind.
    destruct (Hb x w) as [Hx | [Hx [y Hy]]].
    + destruct (body x w) as [[[]|y] w1]; cbn [fst snd] in *.
      * destruct (IH w1) as [n [Hn Hok]]. exists (S n). split.
        -- rewrite Hn, Hx, <- app_assoc. reflexivity.
        -- intros H. now rewrite (Hok H).
      * exists 1. split; [exact Hx|discriminate].
    + destruct (body x w) as [[[]|y'] w1]; cbn [fst snd] in *; [discriminate|].
      exists 0. split; [now rewrite app_nil_r|discriminate].
Qed.

(** X14. ([main_menu], lines 333-339, with [select_new_mp_version],
    [update_pack_framework] and [build_modpack]).  Whatever the file
    system, the keyboard input and the behaviour of the programs, the
    build action starts programs only in this order: one [git] call, then
    [packwiz refresh --build] in the giga output directory, then in the
    nano one, then in the server one.  What it has started when it stops
    is an initial part of that sequence; when the action returns normally
    all four were started, and when the input ends at the version prompt
    none was. *)
Theorem build_action_starts_programs_in_order
    (SCRIPT_DIR : pypath) (limit : nat) (spawn : command) (cfg : config)
    (c : console) :
  let r := menu_build SCRIPT_DIR limit spawn cfg c in
  let packwiz := fun modpacktype =>
    (["packwiz"; "refresh"; "--build"], output_path_of SCRIPT_DIR modpacktype cfg) in
  exists g n,
    hd "" (fst g) = "git"
    /\ spawned (screen (snd r)) =
       spawned (screen c) ++
       firstn n [g; packwiz "giga"; packwiz "nano"; packwiz "server"]
    /\ (fst r = Returned tt -> n = 4)
    /\ (fst r = EndOfInput -> n = 0).
Proof.
  intros r packwiz. subst r. unfold menu_build, io_bind.
  pose proof (select_new_mp_version_quiet SCRIPT_DIR c) as Hs.
  destruct (select_new_mp_version SCRIPT_DIR c) as [[v|x|] c1]; cbn [fst snd] in *.
  - destruct (update_pack_framework_starts SCRIPT_DIR spawn (screen c1))
      as [g [Hg Hgit]].
    exists g. unfold lift.
    destruct (update_pack_framework SCRIPT_DIR spawn (screen c1)) as [[[]|x] w2];
      cbn [fst snd] in *.
    + cbn [screen keyboard].
      destruct (for_each_starts packwiz
                  (fun modpacktype =>
                     build_modpack SCRIPT_DIR limit spawn modpacktype cfg v)
                  ["giga"; "nano"; "server"]
                  (fun a => build_modpack_starts SCRIPT_DIR limit spawn a cfg v) w2)
        as [n [Hn Hok]].
      destruct (for_each _ _ w2) as [[[]|x] w3]; cbn [fst snd screen] in *.
      * exists (S n). repeat split; try assumption.
        -- rewrite Hn, Hg, Hs, <- app_assoc. reflexivity.
        -- intros _. now rewrite Hok.
        -- discriminate.
      * exists (S n). repeat split; try assumption; try discriminate.
        rewrite Hn, Hg, Hs, <- app_assoc. reflexivity.
    + exists 1. cbn [screen]. repeat split; try assumption; try discriminate.
      rewrite Hg, Hs. reflexivity.
  - exists (["git"], []), 0. cbn [firstn]. rewrite app_nil_r.
    repeat split; try assumption; discriminate.
  - exists (["git"], []), 0. cbn [firstn]. rewrite app_nil_r.
    repeat split; try assumption; discriminate.
Qed.
